(** * Control-plane upgrader of cluster-api-upgrade-tool

  A shallow embedding of [pkg/upgrade/control_plane.go] and the properties
  its specification states about it.  Go strings are byte strings
  ([string], one [ascii] per byte), Go [int]s are [Z], Go maps are stdpp
  [gmap]s, and a Go function that can panic returns [option]. *)

From Stdlib Require Import ZArith Ascii String List Bool Lia.
From stdpp Require Import base option gmap strings list pretty.

Local Open Scope Z_scope.

(** ** Go strings *)

Module GoString.

(** [len(s)].  Two strings that both fit in memory have lengths whose sum
    is far below [2^63], so the [int] arithmetic on lengths never wraps. *)
Definition len (s : string) : Z := Z.of_nat (String.length s).

(** [s[0:hi]]: a slice expression panics unless [0 <= hi <= len(s)]. *)
Definition slice_to (s : string) (hi : Z) : option string :=
  if (0 <=? hi) && (hi <=? len s)
  then Some (String.substring 0 (Z.to_nat hi) s)
  else None.

Fixpoint drop (n : nat) (s : string) : string :=
  match n, s with
  | O, _ => s
  | S n', String _ s' => drop n' s'
  | S _, EmptyString => EmptyString
  end.

(** [strings.HasPrefix(s, p)], returning what follows the prefix. *)
Fixpoint strip_prefix (p s : string) : option string :=
  match p, s with
  | EmptyString, _ => Some s
  | String a p', String b s' =>
      if Ascii.eqb a b then strip_prefix p' s' else None
  | String _ _, EmptyString => None
  end.

Definition HasPrefix (s p : string) : bool :=
  match strip_prefix p s with Some _ => true | None => false end.

(** [strings.HasSuffix(s, suffix)]. *)
Definition HasSuffix (s suffix : string) : bool :=
  (String.length suffix <=? String.length s)%nat
  && String.eqb (drop (String.length s - String.length suffix) s) suffix.

(** [strings.Join(elems, sep)]. *)
Fixpoint Join (elems : list string) (sep : string) : string :=
  match elems with
  | [] => ""
  | [x] => x
  | x :: rest => x +:+ sep +:+ Join rest sep
  end.

Fixpoint repeat_byte (c : ascii) (n : nat) : string :=
  match n with
  | O => ""
  | S n' => String c (repeat_byte c n')
  end.

Definition byte_val (c : ascii) : N := N_of_ascii c.

Definition is_digit (c : ascii) : bool :=
  (48 <=? byte_val c)%N && (byte_val c <=? 57)%N.

Fixpoint all_digits (s : string) : bool :=
  match s with
  | EmptyString => true
  | String c s' => is_digit c && all_digits s'
  end.

Definition nonempty (s : string) : bool :=
  match s with EmptyString => false | String _ _ => true end.

End GoString.
Import GoString.

(** ** The upgrade-suffix pattern *)

Module Regexp.

Definition in_range (lo hi : N) (c : ascii) : bool :=
  (lo <=? byte_val c)%N && (byte_val c <=? hi)%N.

Definition cont (c : ascii) : bool := in_range 128 191 c.

(** Width in bytes of the rune at the head of a non-empty string, as
    [utf8.DecodeRuneInString] reports it: an ASCII byte or an ill-formed
    sequence has width one, a well-formed sequence its full width. *)
Definition rune_width (c : ascii) (rest : string) : nat :=
  let b := byte_val c in
  if (b <? 194)%N then 1%nat
  else if (b <? 224)%N then
    match rest with
    | String c1 _ => if cont c1 then 2%nat else 1%nat
    | _ => 1%nat
    end
  else if (b <? 240)%N then
    match rest with
    | String c1 (String c2 _) =>
        let ok1 := if (b =? 224)%N then in_range 160 191 c1
                   else if (b =? 237)%N then in_range 128 159 c1
                   else cont c1 in
        if ok1 && cont c2 then 3%nat else 1%nat
    | _ => 1%nat
    end
  else if (b <? 245)%N then
    match rest with
    | String c1 (String c2 (String c3 _)) =>
        let ok1 := if (b =? 240)%N then in_range 144 191 c1
                   else if (b =? 244)%N then in_range 128 143 c1
                   else cont c1 in
        if ok1 && cont c2 && cont c3 then 4%nat else 1%nat
    | _ => 1%nat
    end
  else 1%nat.

(** The pattern element [.]: one rune that is not a line feed.  Returns
    the number of bytes consumed. *)
Definition any_char (s : string) : option nat :=
  match s with
  | EmptyString => None
  | String c rest =>
      if (byte_val c =? 10)%N then None else Some (rune_width c rest)
  end.

(** Does [upgrade.[0-9]+$] match at the head of [s]?  The pattern is
    anchored at the end of the text, so a match always runs to the end. *)
Definition matches_here (s : string) : bool :=
  match strip_prefix "upgrade" s with
  | Some rest =>
      match any_char rest with
      | Some w => let d := drop w rest in nonempty d && all_digits d
      | None => false
      end
  | None => false
  end.

(** Leftmost match, scanning from byte offset [i].  The pattern starts
    with the ASCII byte [u], which never lies inside a well-formed
    multi-byte rune, so scanning byte by byte finds the same offsets as
    scanning rune by rune. *)
Fixpoint find_from (s : string) (i : Z) : option (Z * Z) :=
  match s with
  | EmptyString => None
  | String _ s' =>
      if matches_here s then Some (i, i + len s) else find_from s' (i + 1)
  end.

End Regexp.

(** Modelled from the spec: the package variable [upgradeIDNameSuffixRegex]
    is declared outside [control_plane.go].  Section 4.2 calls it the regex
    of the "upgrade-id-suffix tail" and has the name stripped "from the
    position one character before the match"; with [upgradeSuffix(U) =
    ".upgrade." + U] and upgrade-ids made of digits, the match therefore
    starts at the [u] of [upgrade] and runs over the digits to the end of
    the name: the pattern [upgrade.[0-9]+$].  [FindStringIndex] returns the
    byte offsets of the leftmost match, or [nil]. *)
Definition upgradeIDNameSuffixRegex_FindStringIndex (s : string)
  : option (Z * Z) :=
  Regexp.find_from s 0.

(** Modelled from the spec: [upgradeIDInputRegex], declared outside
    [control_plane.go]; section 6 gives it as [^[0-9]+$]. *)
Definition upgradeIDInputRegex_MatchString (s : string) : bool :=
  nonempty s && all_digits s.

(** ** Name generator *)

(** [validation.DNS1123SubdomainMaxLength] *)
Definition DNS1123SubdomainMaxLength : Z := 253.

Definition upgradeSuffix (upgradeID : string) : string :=
  ".upgrade." +:+ upgradeID.

(** [None] is a run-time panic (slice bounds out of range). *)
Definition generateReplacementMachineName (original upgradeID : string)
  : option string :=
  let machineName := original in
  let match_ := upgradeIDNameSuffixRegex_FindStringIndex machineName in
  let machineSuffix := upgradeSuffix upgradeID in
  machineName ← match match_ with
                | Some (m0, _) =>
                    let index := m0 - 1 in
                    slice_to machineName index
                | None => Some machineName
                end;
  let excess := len machineName + len machineSuffix - DNS1123SubdomainMaxLength in
  machineName ← (if 0 <? excess
                 then let max := len machineName - excess in
                      slice_to machineName max
                 else Some machineName);
  Some (machineName +:+ machineSuffix).

(** An upgrade-id of 245 digits: it passes the input check, and its suffix
    alone is longer than a DNS-1123 subdomain. *)
Definition long_upgrade_id : string := repeat_byte "1" 245.

(** ** Errors *)

(** [metav1.StatusReason], as far as the upgrader tells reasons apart. *)
Inductive StatusReason :=
| StatusReasonNotFound
| StatusReasonAlreadyExists
| StatusReasonOther (reason : string).

(** Go [error] values.  A formatted message keeps its format string and
    its rendered arguments apart. *)
Inductive error :=
| StatusError (reason : StatusReason) (message : string)
| Errorf (format : string) (args : list string)
| Wrapf (cause : error) (format : string) (args : list string)
| WithStack (cause : error)
| ErrWaitTimeout
| ErrOther (message : string).

(** [apierrors.IsNotFound]: the reason of an API status error; a wrapped
    error is not looked into. *)
Definition IsNotFound (err : error) : bool :=
  match err with
  | StatusError StatusReasonNotFound _ => true
  | _ => false
  end.

Definition IsAlreadyExists (err : error) : bool :=
  match err with
  | StatusError StatusReasonAlreadyExists _ => true
  | _ => false
  end.

(** ** Semantic versions (github.com/blang/semver) *)

Module semver.

(** Go compares strings byte by byte. *)
Fixpoint string_compare (a b : string) : comparison :=
  match a, b with
  | EmptyString, EmptyString => Eq
  | EmptyString, String _ _ => Lt
  | String _ _, EmptyString => Gt
  | String x a', String y b' =>
      match (byte_val x ?= byte_val y)%N with
      | Eq => string_compare a' b'
      | c => c
      end
  end.

Record PRVersion := {
  VersionStr : string;
  VersionNum : Z;       (* uint64 *)
  IsNum : bool
}.

Record Version := {
  Major : Z;            (* uint64 *)
  Minor : Z;            (* uint64 *)
  Patch : Z;            (* uint64 *)
  Pre : list PRVersion;
  Build : list string   (* no precedence *)
}.

(** [PRVersion.Compare] *)
Definition PRVersion_Compare (v o : PRVersion) : Z :=
  if IsNum v && negb (IsNum o) then -1
  else if negb (IsNum v) && IsNum o then 1
  else if IsNum v && IsNum o then
    if VersionNum v =? VersionNum o then 0
    else if VersionNum v >? VersionNum o then 1
    else -1
  else
    if String.eqb (VersionStr v) (VersionStr o) then 0
    else match string_compare (VersionStr v) (VersionStr o) with
         | Gt => 1
         | _ => -1
         end.

(** The loop of [Version.Compare] over two prerelease lists: the first
    position that differs decides, and a proper prefix is the smaller. *)
Fixpoint Pre_Compare (v o : list PRVersion) : Z :=
  match v, o with
  | x :: v', y :: o' =>
      let comp := PRVersion_Compare x y in
      if comp =? 0 then Pre_Compare v' o'
      else if comp =? 1 then 1
      else -1
  | [], [] => 0
  | [], _ :: _ => -1
  | _ :: _, [] => 1
  end.

(** [Version.Compare]: -1, 0 or 1.  Build metadata is ignored, and a
    version without prerelease part is greater than one with. *)
Definition Compare (v o : Version) : Z :=
  if negb (Major v =? Major o) then
    if Major v >? Major o then 1 else -1
  else if negb (Minor v =? Minor o) then
    if Minor v >? Minor o then 1 else -1
  else if negb (Patch v =? Patch o) then
    if Patch v >? Patch o then 1 else -1
  else
    match Pre v, Pre o with
    | [], [] => 0
    | [], _ :: _ => 1
    | _ :: _, [] => -1
    | _ :: _, _ :: _ => Pre_Compare (Pre v) (Pre o)
    end.

Definition EQ (v o : Version) : bool := Compare v o =? 0.
Definition LT (v o : Version) : bool := Compare v o =? -1.
Definition GT (v o : Version) : bool := Compare v o =? 1.

(** The zero value [semver.Version{}]. *)
Definition zero : Version :=
  {| Major := 0; Minor := 0; Patch := 0; Pre := []; Build := [] |}.

End semver.

(** [var unsetVersion semver.Version] *)
Definition unsetVersion : semver.Version := semver.zero.

Definition isMinorVersionUpgrade (base update : semver.Version) : bool :=
  (semver.Major base =? semver.Major update)
  && (semver.Minor base <? semver.Minor update).

(** ** Declarative objects *)

Record ObjectKey := {
  key_Namespace : string;
  key_Name : string
}.

(** [client.ObjectKey.String()] *)
Definition ObjectKey_String (k : ObjectKey) : string :=
  key_Namespace k +:+ "/" +:+ key_Name k.

Record ObjectReference := {
  ref_APIVersion : string;
  ref_Kind : string;
  ref_Namespace : string;
  ref_Name : string
}.

(** [clusterv1.Machine], with the fields the upgrader reads or writes.
    A Go pointer or map that may be [nil] is an [option]. *)
Module Machine.

Record Bootstrap := {
  ConfigRef : option ObjectReference;
  Data : option string
}.

Record MachineSpec := {
  InfrastructureRef : ObjectReference;
  Bootstrap_ : Bootstrap;
  Version : option string;
  ProviderID : option string
}.

Record t := {
  Namespace : string;
  Name : string;
  ResourceVersion : string;
  Annotations : option (gmap string string);
  Spec : MachineSpec
}.

End Machine.

(** Reading a Go [map[string]string]: a missing key reads as [""], also in
    a [nil] map. *)
Definition map_get (m : gmap string string) (k : string) : string :=
  default "" (m !! k).

(** ** Version resolution *)

Section VersionResolution.

(** [semver.ParseTolerant] *)
Variable ParseTolerant : string -> error + semver.Version.

(** The loop of [minMaxControlPlaneVersions], from the machines still to
    visit and the current [min] and [max]. *)
Fixpoint minMax_loop (machines : list Machine.t) (min max : semver.Version)
  : semver.Version * semver.Version * option error :=
  match machines with
  | [] => (min, max, None)
  | machine :: rest =>
      match Machine.Version (Machine.Spec machine) with
      | None =>
          (semver.zero, semver.zero,
           Some (Errorf "nil control plane version for machine %s/%s"
                   [Machine.Namespace machine; Machine.Name machine]))
      | Some version =>
          if negb (String.eqb version "") then
            match ParseTolerant version with
            | inl err =>
                (min, max,
                 Some (Wrapf err
                         "invalid control plane version %q for machine %s/%s"
                         [version; Machine.Namespace machine;
                          Machine.Name machine]))
            | inr machineVersion =>
                let min :=
                  if semver.EQ min unsetVersion || semver.LT machineVersion min
                  then machineVersion else min in
                let max :=
                  if semver.EQ max unsetVersion || semver.GT machineVersion max
                  then machineVersion else max in
                minMax_loop rest min max
            end
          else minMax_loop rest min max
      end
  end.

Definition minMaxControlPlaneVersions (machines : list Machine.t)
  : semver.Version * semver.Version * option error :=
  minMax_loop machines semver.zero semver.zero.

(** The versions that take part in the resolution: the parsed
    [spec.version] of every machine whose [spec.version] is not empty.
    [None] when a machine has no [spec.version] or one that does not
    parse. *)
Fixpoint parsedVersions (machines : list Machine.t)
  : option (list semver.Version) :=
  match machines with
  | [] => Some []
  | machine :: rest =>
      match Machine.Version (Machine.Spec machine) with
      | None => None
      | Some version =>
          if String.eqb version "" then parsedVersions rest
          else match ParseTolerant version with
               | inl _ => None
               | inr v => cons v <$> parsedVersions rest
               end
      end
  end.

End VersionResolution.

(** A parser to run the resolution on examples: [semver.ParseTolerant] on
    plain numeric versions, [MAJOR], [MAJOR.MINOR] or [MAJOR.MINOR.PATCH]
    with an optional leading [v] and every number below [2^64].  It rejects
    every other text, also those with a prerelease or build part, which the
    library parses. *)
Module NumericVersions.

Fixpoint split_dot (s cur : string) : list string :=
  match s with
  | EmptyString => [cur]
  | String c s' =>
      if Ascii.eqb c "." then cur :: split_dot s' ""
      else split_dot s' (cur +:+ String c "")
  end.

Fixpoint digits_value (s : string) (acc : Z) : Z :=
  match s with
  | EmptyString => acc
  | String c s' => digits_value s' (10 * acc + (Z.of_N (byte_val c) - 48))
  end.

Definition parse_uint (s : string) : option Z :=
  if nonempty s && all_digits s then
    let n := digits_value s 0 in
    if n <? 2 ^ 64 then Some n else None
  else None.

Definition version (major minor patch : Z) : semver.Version :=
  {| semver.Major := major; semver.Minor := minor; semver.Patch := patch;
     semver.Pre := []; semver.Build := [] |}.

Definition ParseTolerant (s : string) : error + semver.Version :=
  let s := match s with String "v" s' => s' | _ => s end in
  match parse_uint <$> split_dot s "" with
  | [Some a] => inr (version a 0 0)
  | [Some a; Some b] => inr (version a b 0)
  | [Some a; Some b; Some c] => inr (version a b c)
  | _ => inl (Errorf "Invalid version %q" [s])
  end.

End NumericVersions.

(** A control-plane machine as far as version resolution reads it. *)
Definition machine_with_version (name : string) (version : option string)
  : Machine.t :=
  {| Machine.Namespace := "default";
     Machine.Name := name;
     Machine.ResourceVersion := "1";
     Machine.Annotations := None;
     Machine.Spec :=
       {| Machine.InfrastructureRef :=
            {| ref_APIVersion := "infrastructure.cluster.x-k8s.io/v1alpha2";
               ref_Kind := "DockerMachine";
               ref_Namespace := "default";
               ref_Name := name |};
          Machine.Bootstrap_ :=
            {| Machine.ConfigRef :=
                 Some {| ref_APIVersion := "bootstrap.cluster.x-k8s.io/v1alpha2";
                         ref_Kind := "KubeadmConfig";
                         ref_Namespace := "default";
                         ref_Name := name |};
               Machine.Data := None |};
          Machine.Version := version;
          Machine.ProviderID := Some ("docker:////" +:+ name) |} |}.

(** ** Formatting *)

(** [fmt.Sprintf("%d", n)] for an unsigned [n]. *)
Definition format_uint (n : Z) : string := pretty (Z.to_N n).

Definition hex_digit (d : N) : ascii :=
  ascii_of_N (if (d <? 10)%N then 48 + d else 87 + d).

Fixpoint format_hex_go (digits : nat) (n : N) (acc : string) : string :=
  match digits with
  | O => acc
  | S k =>
      let acc := String (hex_digit (n mod 16)) acc in
      if (n / 16 =? 0)%N then acc else format_hex_go k (n / 16)%N acc
  end.

(** [strconv.FormatUint(n, 16)] for a [uint64]: lowercase, no prefix. *)
Definition FormatUint16 (n : Z) : string := format_hex_go 16 (Z.to_N n) "".

(** [uint64] subtraction wraps around. *)
Definition uint64_sub (a b : Z) : Z := (a - b) mod 2 ^ 64.

Definition PRVersion_String (v : semver.PRVersion) : string :=
  if semver.IsNum v then format_uint (semver.VersionNum v)
  else semver.VersionStr v.

(** [Version.String()]: [M.m.p], then [-pre] and [+build] when present. *)
Definition Version_String (v : semver.Version) : string :=
  format_uint (semver.Major v) +:+ "." +:+ format_uint (semver.Minor v)
  +:+ "." +:+ format_uint (semver.Patch v)
  +:+ match semver.Pre v with
      | [] => ""
      | pre => "-" +:+ Join (PRVersion_String <$> pre) "."
      end
  +:+ match semver.Build v with
      | [] => ""
      | build => "+" +:+ Join build "."
      end.

(** [time.Duration], in nanoseconds. *)
Definition Second : Z := 1000000000.
Definition Minute : Z := 60 * Second.

(** ** Objects of the two clusters *)

(** Schema-free content, as [map[string]interface{}] holds it after
    decoding JSON or YAML. *)
#[warnings="-register-all"]
Inductive Value :=
| VNull
| VBool (b : bool)
| VNumber (float64_bits : Z)
| VString (s : string)
| VList (l : list Value)
| VMap (m : gmap string Value).

(** [unstructured.RemoveNestedField] *)
Fixpoint RemoveNestedField (obj : gmap string Value) (fields : list string)
  : gmap string Value :=
  match fields with
  | [] => obj
  | [field] => delete field obj
  | field :: rest =>
      match obj !! field with
      | Some (VMap x) => <[field := VMap (RemoveNestedField x rest)]> obj
      | _ => obj
      end
  end.

(** [unstructured.SetNestedField], its error dropped as the setters of
    [Unstructured] drop it. *)
Fixpoint setNestedField (obj : gmap string Value) (value : Value)
  (fields : list string) : gmap string Value :=
  match fields with
  | [] => obj
  | [field] => <[field := value]> obj
  | field :: rest =>
      match obj !! field with
      | Some (VMap x) => <[field := VMap (setNestedField x value rest)]> obj
      | Some _ => obj
      | None => <[field := VMap (setNestedField ∅ value rest)]> obj
      end
  end.

(** [unstructured.Unstructured]: the object is its content. *)
Module Unstructured.

Definition t := gmap string Value.

Definition SetAPIVersion (version : string) (u : t) : t :=
  setNestedField u (VString version) ["apiVersion"].

Definition SetKind (kind : string) (u : t) : t :=
  setNestedField u (VString kind) ["kind"].

Definition SetName (name : string) (u : t) : t :=
  if String.eqb name "" then RemoveNestedField u ["metadata"; "name"]
  else setNestedField u (VString name) ["metadata"; "name"].

Definition SetResourceVersion (version : string) (u : t) : t :=
  if String.eqb version ""
  then RemoveNestedField u ["metadata"; "resourceVersion"]
  else setNestedField u (VString version) ["metadata"; "resourceVersion"].

(** [SetOwnerReferences(nil)] *)
Definition SetOwnerReferences_nil (u : t) : t :=
  RemoveNestedField u ["metadata"; "ownerReferences"].

End Unstructured.

Record OwnerReference := {
  owner_APIVersion : string;
  owner_Kind : string;
  owner_Name : string;
  owner_UID : string
}.

Module Node.
Record t := {
  Name : string;
  ProviderID : string;                    (* Spec.ProviderID *)
  Addresses : list (string * string)      (* Status.Addresses: type, address *)
}.
End Node.

Module Pod.
Record t := {
  Namespace : string;
  Name : string;
  PodIP : string;                         (* Status.PodIP *)
  Conditions : list (string * string)     (* Status.Conditions: type, status *)
}.
End Pod.

(** [v1.ConfigMap].  [Data] is a Go map: [nil], or a reference to a map
    held in a store of maps. *)
Module ConfigMap.
Record t := {
  Namespace : string;
  Name : string;
  ResourceVersion : string;
  Data : option positive
}.

(** [&v1.ConfigMap{}] *)
Definition empty : t :=
  {| Namespace := ""; Name := ""; ResourceVersion := ""; Data := None |}.
End ConfigMap.

Module Secret.
Record t := {
  Namespace : string;
  Name : string;
  OwnerReferences : list OwnerReference
}.
End Secret.

(** [bootstrapv1.KubeadmConfig] *)
Module KubeadmConfig.

Record NodeRegistrationOptions := {
  nr_Name : string;
  nr_CRISocket : string;
  nr_KubeletExtraArgs : option (gmap string string)
}.

Definition NodeRegistrationOptions_zero : NodeRegistrationOptions :=
  {| nr_Name := ""; nr_CRISocket := ""; nr_KubeletExtraArgs := None |}.

Record InitConfiguration := {
  init_NodeRegistration : NodeRegistrationOptions
}.

Record JoinConfiguration := {
  join_NodeRegistration : NodeRegistrationOptions;
  join_CACertPath : string;
  join_ControlPlane : option unit          (* *JoinControlPlane *)
}.

Record t := {
  Namespace : string;
  Name : string;
  ResourceVersion : string;
  UID : string;
  OwnerReferences : option (list OwnerReference);
  InitConfiguration_ : option InitConfiguration;
  JoinConfiguration_ : option JoinConfiguration
}.

End KubeadmConfig.

(** [noderefutil.ProviderID] *)
Module ProviderID.
Record t := {
  original : string;
  cloudProvider : string;
  id : string
}.
Definition ID (p : t) : string := id p.
Definition String_ (p : t) : string := original p.
Definition Equals (p o : t) : bool :=
  String.eqb (cloudProvider p) (cloudProvider o)
  && String.eqb (id p) (id o).
End ProviderID.

Record etcdMember := {
  member_ID : Z;                          (* uint64 *)
  member_Name : string;
  member_ClientURLs : list string
}.

(** [kubernetes2.PodExecInput], without the client handles. *)
Record PodExecInput := {
  exec_Namespace : string;
  exec_Name : string;
  exec_Command : list string
}.

(** ** The two clusters as an environment *)

(** What the upgrader asks of its environment (the two clusters' clients,
    the patch helper, the poller's clock), each with the type of what it
    gets back.  A Go result [(T, error)] is [error + T]; a lone
    [error] is [option error]. *)
Inductive Call : Type -> Type :=
| MgmtGetObject (apiVersion kind : string) (key : ObjectKey)
    : Call (error + Unstructured.t)
| MgmtGetMachine (key : ObjectKey) : Call (error + Machine.t)
| MgmtGetKubeadmConfig (key : ObjectKey) : Call (error + KubeadmConfig.t)
| MgmtGetSecret (key : ObjectKey) : Call (error + Secret.t)
| MgmtCreateObject (obj : Unstructured.t) : Call (option error)
| MgmtCreateMachine (machine : Machine.t) : Call (option error)
| MgmtCreateKubeadmConfig (config : KubeadmConfig.t)
    : Call (error + KubeadmConfig.t)
| MgmtDeleteMachine (machine : Machine.t) : Call (option error)
| PatchNewHelperMachine (before : Machine.t) : Call (option error)
| PatchMachine (before after : Machine.t) : Call (option error)
| PatchNewHelperSecret (before : Secret.t) : Call (option error)
| PatchSecret (before after : Secret.t) : Call (option error)
| TargetGetConfigMap (name : string) : Call (ConfigMap.t * option error)
| TargetCreateConfigMap (cm : ConfigMap.t) : Call (option error)
| TargetGetPod (name : string) : Call (error + Pod.t)
| TargetListPods (labelSelector : string) : Call (error + list Pod.t)
| TargetListNodes : Call (error + list Node.t)
| PodExec (timeout : Z) (input : PodExecInput)
    : Call (string * string * option error)
| PollerTicks (interval timeout : Z) : Call nat.

(** The clientset built by [kubernetes.NewForConfig] returns a non-nil
    object from [ConfigMaps().Get] also when it returns an error.
    [Create] fills the caller's object in from the server's answer;
    [MgmtCreateKubeadmConfig] returns that object, whose [UID] the upgrader
    goes on to use.  The patch helper sends copies: a [Patch] leaves the
    caller's object as the caller wrote it. *)

(** One call as it happened: the call and what came back. *)
Inductive Event := Ev (T : Type) (call : Call T) (reply : T).
Arguments Ev {T} call reply.

(** An environment answers every call and moves on. *)
Class Cluster (W : Type) := perform : forall T, Call T -> W -> T * W.

(** Library functions without effect on the clusters. *)
Class Libraries := {
  (** [noderefutil.NewProviderID] *)
  NewProviderID : string -> error + ProviderID.t;
  (** [json.Unmarshal] into an [etcdMembersResponse], keeping the members *)
  json_Unmarshal_members : string -> error + list etcdMember
}.

(** ** The upgrader *)

Definition etcdCACertFile : string := "/etc/kubernetes/pki/etcd/ca.crt".
Definition etcdCertFile : string := "/etc/kubernetes/pki/etcd/peer.crt".
Definition etcdKeyFile : string := "/etc/kubernetes/pki/etcd/peer.key".

Definition annotationPrefix : string := "upgrade.cluster-api.vmware.com/".
Definition AnnotationUpgradeID : string := annotationPrefix +:+ "id".

(** [clusterv1.GroupVersion.String()], [bootstrapv1.GroupVersion.String()] *)
Definition clusterv1_GroupVersion : string := "cluster.x-k8s.io/v1alpha2".
Definition bootstrapv1_GroupVersion : string :=
  "bootstrap.cluster.x-k8s.io/v1alpha2".

(** [v1.NodeHostName] *)
Definition NodeHostName : string := "Hostname".

(** The fields of [ControlPlaneUpgrader] other than the logger and the
    client handles. *)
Record ControlPlaneUpgrader := {
  userVersion : semver.Version;
  desiredVersion : semver.Version;
  clusterNamespace : string;
  clusterName : string;
  providerIDsToNodes : gmap string Node.t;
  imageField : string;
  imageID : string;
  upgradeID : string;
  oldNodeToEtcdMember : gmap string string;
  secretsUpdated : bool
}.

Definition set_providerIDsToNodes (pairs : gmap string Node.t)
  (u : ControlPlaneUpgrader) : ControlPlaneUpgrader :=
  {| userVersion := userVersion u; desiredVersion := desiredVersion u;
     clusterNamespace := clusterNamespace u; clusterName := clusterName u;
     providerIDsToNodes := pairs;
     imageField := imageField u; imageID := imageID u;
     upgradeID := upgradeID u;
     oldNodeToEtcdMember := oldNodeToEtcdMember u;
     secretsUpdated := secretsUpdated u |}.

Definition set_oldNodeToEtcdMember (m : gmap string string)
  (u : ControlPlaneUpgrader) : ControlPlaneUpgrader :=
  {| userVersion := userVersion u; desiredVersion := desiredVersion u;
     clusterNamespace := clusterNamespace u; clusterName := clusterName u;
     providerIDsToNodes := providerIDsToNodes u;
     imageField := imageField u; imageID := imageID u;
     upgradeID := upgradeID u;
     oldNodeToEtcdMember := m;
     secretsUpdated := secretsUpdated u |}.

Definition set_secretsUpdated (b : bool)
  (u : ControlPlaneUpgrader) : ControlPlaneUpgrader :=
  {| userVersion := userVersion u; desiredVersion := desiredVersion u;
     clusterNamespace := clusterNamespace u; clusterName := clusterName u;
     providerIDsToNodes := providerIDsToNodes u;
     imageField := imageField u; imageID := imageID u;
     upgradeID := upgradeID u;
     oldNodeToEtcdMember := oldNodeToEtcdMember u;
     secretsUpdated := b |}.

Definition hostnameForNode (node : Node.t) : string :=
  match List.find (fun address => String.eqb address.1 NodeHostName)
          (Node.Addresses node) with
  | Some address => address.2
  | None => ""
  end.

Definition GetNodeFromProviderID (u : ControlPlaneUpgrader)
  (providerID : string) : option Node.t :=
  providerIDsToNodes u !! providerID.

(** The exec request [etcdctlForPod] builds for a pod. *)
Definition etcdctlForPod_opts (pod : Pod.t) (args : list string)
  : PodExecInput :=
  let endpoint := "https://" +:+ Pod.PodIP pod +:+ ":2379" in
  let fullArgs := ["ETCDCTL_API=3"; "etcdctl";
                   "--cacert"; etcdCACertFile;
                   "--cert"; etcdCertFile;
                   "--key"; etcdKeyFile;
                   "--endpoints"; endpoint] in
  let fullArgs := fullArgs ++ args in
  let opts := {| exec_Namespace := Pod.Namespace pod;
                 exec_Name := Pod.Name pod;
                 exec_Command := ["sh"; "-c"; Join fullArgs " "] |} in
  {| exec_Namespace := exec_Namespace opts;
     exec_Name := exec_Name opts;
     exec_Command := exec_Command opts ++ args |}.

(** How a caller of [generateReplacementMachineName] changes a Machine. *)
Definition Machine_with_annotations (annotations : gmap string string)
  (machine : Machine.t) : Machine.t :=
  {| Machine.Namespace := Machine.Namespace machine;
     Machine.Name := Machine.Name machine;
     Machine.ResourceVersion := Machine.ResourceVersion machine;
     Machine.Annotations := Some annotations;
     Machine.Spec := Machine.Spec machine |}.

(** The replacement [updateMachine] derives from a deep copy of the old
    Machine.  [None] when [Spec.Bootstrap.ConfigRef] is nil: the write
    through it panics. *)
Definition replacementMachine_of (replacementKey : ObjectKey)
  (desiredVersion : string) (machine : Machine.t) : option Machine.t :=
  let spec := Machine.Spec machine in
  let infra := Machine.InfrastructureRef spec in
  configRef ← Machine.ConfigRef (Machine.Bootstrap_ spec);
  Some {|
    Machine.Namespace := Machine.Namespace machine;
    Machine.Name := key_Name replacementKey;
    Machine.ResourceVersion := "";
    Machine.Annotations := Machine.Annotations machine;
    Machine.Spec := {|
      Machine.InfrastructureRef :=
        {| ref_APIVersion := ref_APIVersion infra;
           ref_Kind := ref_Kind infra;
           ref_Namespace := ref_Namespace infra;
           ref_Name := key_Name replacementKey |};
      Machine.Bootstrap_ :=
        {| Machine.ConfigRef :=
             Some {| ref_APIVersion := ref_APIVersion configRef;
                     ref_Kind := ref_Kind configRef;
                     ref_Namespace := ref_Namespace configRef;
                     ref_Name := key_Name replacementKey |};
           Machine.Data := None |};
      Machine.Version := Some desiredVersion;
      Machine.ProviderID := None |} |}.

(** Outcome of a Go call: a value, a non-nil [error], or a panic. *)
Inductive result (A : Type) :=
| Ok (a : A)
| Err (e : error)
| Panic.
Arguments Ok {A} a.
Arguments Err {A} e.
Arguments Panic {A}.

Section Upgrader.

Context {W : Type} `{!Cluster W} `{!Libraries}.

(** What a method of the upgrader can read and change. *)
Record State := {
  upgrader : ControlPlaneUpgrader;
  world : W
}.

(** A method: from a state to an outcome, the state after, and the
    calls made, in order. *)
Definition M (A : Type) : Type := State -> result A * State * list Event.

#[global] Instance M_ret : MRet M := fun A a s => (Ok a, s, []).

#[global] Instance M_bind : MBind M := fun A B f m s =>
  match m s with
  | (Ok a, s', t) => let '(r, s'', t') := f a s' in (r, s'', t ++ t')
  | (Err e, s', t) => (Err e, s', t)
  | (Panic, s', t) => (Panic, s', t)
  end.

Definition fail {A} (e : error) : M A := fun s => (Err e, s, []).

Definition panic {A} : M A := fun s => (Panic, s, []).

Definition call {T} (c : Call T) : M T := fun s =>
  let '(r, w) := perform T c (world s) in
  (Ok r, {| upgrader := upgrader s; world := w |}, [Ev c r]).

Definition get_u : M ControlPlaneUpgrader := fun s => (Ok (upgrader s), s, []).

Definition modify_u (f : ControlPlaneUpgrader -> ControlPlaneUpgrader)
  : M unit :=
  fun s => (Ok tt, {| upgrader := f (upgrader s); world := world s |}, []).

(** [if err != nil { return errors.Wrapf(err, ...) }] *)
Definition wrapf {A} (m : M A) (format : string) (args : list string) : M A :=
  fun s =>
    match m s with
    | (Err e, s', t) => (Err (Wrapf e format args), s', t)
    | r => r
    end.

Fixpoint forM_ {A} (l : list A) (body : A -> M unit) : M unit :=
  match l with
  | [] => mret tt
  | x :: rest => body x;; forM_ rest body
  end.

(** [wait.PollImmediate]: the condition is tried at once; if it is neither
    done nor failed, it is tried again on every tick of the poller and
    once more when the timeout closes it.  [Some a] is "done", with the
    value the condition left for its caller. *)
Fixpoint poll_loop {A} (tries : nat) (condition : M (option A)) : M A :=
  match tries with
  | O => fail ErrWaitTimeout
  | S n =>
      done ← condition;
      match done with
      | Some a => mret a
      | None => poll_loop n condition
      end
  end.

Definition PollImmediate {A} (interval timeout : Z)
  (condition : M (option A)) : M A :=
  done ← condition;
  match done with
  | Some a => mret a
  | None =>
      ticks ← call (PollerTicks interval timeout);
      poll_loop (S ticks) condition
  end.

Definition resourceExists (ref : ObjectReference) : M bool :=
  let key := {| key_Namespace := ref_Namespace ref;
                key_Name := ref_Name ref |} in
  r ← call (MgmtGetObject (ref_APIVersion ref) (ref_Kind ref) key);
  match r with
  | inl err =>
      if IsNotFound err then mret false else fail (WithStack err)
  | inr _ => mret true
  end.

(** *** Etcd *)

Definition listEtcdPods : M (list Pod.t) :=
  r ← call (TargetListPods "component=etcd");
  match r with
  | inl err => fail (Wrapf err "error listing pods" [])
  | inr items => mret items
  end.

Definition etcdctlForPod (ctx : Z) (pod : Pod.t) (args : list string)
  : M (string * string * option error) :=
  call (PodExec ctx (etcdctlForPod_opts pod args)).

(** The loop of [etcdctl] over the pods still to try; [last] is what the
    previous pod returned. *)
Fixpoint etcdctl_loop (ctx : Z) (pods : list Pod.t) (args : list string)
  (last : string * string * option error) : M (string * string) :=
  match pods with
  | [] =>
      match last with
      | (stdout, stderr, None) => mret (stdout, stderr)
      | (_, _, Some err) => fail err
      end
  | pod :: rest =>
      r ← etcdctlForPod ctx pod args;
      match r with
      | (stdout, stderr, None) => mret (stdout, stderr)
      | (_, _, Some _) => etcdctl_loop ctx rest args r
      end
  end.

Definition etcdctl (ctx : Z) (args : list string) : M (string * string) :=
  pods ← listEtcdPods;
  match pods with
  | [] => fail (Errorf "found 0 etcd pods" [])
  | _ => etcdctl_loop ctx pods args ("", "", None)
  end.

Definition listEtcdMembers (timeout : Z) : M (list etcdMember) :=
  out ← etcdctl timeout ["member list -w json"];
  match json_Unmarshal_members out.1 with
  | inl err =>
      fail (Wrapf err "unable to parse etcdctl member list json output" [])
  | inr members => mret members
  end.

Definition etcdClusterHealthCheck (timeout : Z) : M unit :=
  members ← listEtcdMembers timeout;
  let endpoints := members ≫= member_ClientURLs in
  etcdctl timeout ["endpoint health --endpoints"; Join endpoints ","];;
  mret tt.

Definition oldNodeToEtcdMemberId (timeout : Z) : M unit :=
  members ← listEtcdMembers timeout;
  let m := foldl (fun m member =>
                    <[member_Name member := FormatUint16 (member_ID member)]> m)
             ∅ members in
  modify_u (set_oldNodeToEtcdMember m).

Definition deleteEtcdMember (timeout : Z) (etcdMemberId : string) : M unit :=
  etcdctl timeout ["member"; "remove"; etcdMemberId];;
  mret tt.

(** *** Nodes *)

Definition UpdateProviderIDsToNodes : M unit :=
  r ← call TargetListNodes;
  match r with
  | inl err => fail (Wrapf err "error listing nodes" [])
  | inr items =>
      let pairs :=
        foldl (fun pairs node =>
                 let id := match NewProviderID (Node.ProviderID node) with
                           | inr providerID => ProviderID.ID providerID
                           | inl _ => Node.ProviderID node
                           end in
                 <[id := node]> pairs)
          ∅ items in
      modify_u (set_providerIDsToNodes pairs)
  end.

Definition waitForProviderID (ns name : string) (timeout : Z) : M string :=
  wrapf
    (PollImmediate (5 * Second) timeout
       (r ← call (MgmtGetMachine {| key_Name := name; key_Namespace := ns |});
        match r with
        | inl _ => mret None
        | inr machine =>
            match Machine.ProviderID (Machine.Spec machine) with
            | None => mret None
            | Some providerID =>
                if negb (String.eqb providerID "") then mret (Some providerID)
                else mret None
            end
        end))
    "timed out waiting for machine provider id" [].

Definition waitForMatchingNode (rawProviderID : string) (timeout : Z)
  : M Node.t :=
  match NewProviderID rawProviderID with
  | inl err => fail err
  | inr providerID =>
      wrapf
        (PollImmediate (5 * Second) timeout
           (r ← call TargetListNodes;
            match r with
            | inl _ => mret None
            | inr items =>
                mret (List.find
                        (fun node =>
                           match NewProviderID (Node.ProviderID node) with
                           | inl _ => false
                           | inr nodeID => ProviderID.Equals providerID nodeID
                           end)
                        items)
            end))
        "timed out waiting for matching node" []
  end.

Definition components : list string :=
  ["etcd"; "kube-apiserver"; "kube-scheduler"; "kube-controller-manager"].

Definition requiredConditions : gset string :=
  {[ "PodScheduled"; "Initialized"; "Ready"; "ContainersReady" ]}.

(** The conditions of a pod whose status is ["True"]. *)
Definition foundConditions (pod : Pod.t) : gset string :=
  list_to_set ((fun c => c.1)
                 <$> filter (fun c => c.2 = "True") (Pod.Conditions pod)).

(** The loop of [isReady] over the components still to check. *)
Fixpoint isReady_loop (components : list string) (nodeHostname : string)
  : M bool :=
  match components with
  | [] => mret true
  | component :: rest =>
      let podName := component +:+ "-" +:+ nodeHostname in
      r ← call (TargetGetPod podName);
      match r with
      | inl _ => mret false
      | inr pod =>
          let missingConditions := requiredConditions ∖ foundConditions pod in
          if (0 <? size missingConditions)%nat then mret false
          else isReady_loop rest nodeHostname
      end
  end.

Definition isReady (nodeHostname : string) : M bool :=
  isReady_loop components nodeHostname.

Definition waitForNodeReady (newNode : Node.t) (timeout : Z) : M unit :=
  let nodeHostname := hostnameForNode newNode in
  if String.eqb nodeHostname "" then
    fail (Errorf "unable to find hostname for node %s" [Node.Name newNode])
  else
    wrapf
      (PollImmediate (15 * Second) timeout
         (ready ← isReady nodeHostname;
          mret (match ready with true => Some tt | false => None end)))
      "components on node %s are not ready" [Node.Name newNode].

(** *** Replacing one machine *)

Definition updateMachine (replacementKey : ObjectKey) (machine : Machine.t)
  : M unit :=
  match Machine.ProviderID (Machine.Spec machine) with
  | None => panic
  | Some machineProviderID =>
  match NewProviderID machineProviderID with
  | inl err => fail err
  | inr originalProviderID =>
  u ← get_u;
  match GetNodeFromProviderID u (ProviderID.ID originalProviderID) with
  | None =>
      fail (Errorf "unknown previous node %q"
              [ProviderID.String_ originalProviderID])
  | Some oldNode =>
  let oldHostName := hostnameForNode oldNode in
  let replacementRef :=
    {| ref_APIVersion := clusterv1_GroupVersion;
       ref_Kind := "Machine";
       ref_Namespace := key_Namespace replacementKey;
       ref_Name := key_Name replacementKey |} in
  exists_ ← resourceExists replacementRef;
  (if negb exists_ then
     match replacementMachine_of replacementKey
             (Version_String (desiredVersion u)) machine with
     | None => panic
     | Some replacementMachine =>
         r ← call (MgmtCreateMachine replacementMachine);
         match r with
         | Some err =>
             fail (Wrapf err "Error creating machine: %s"
                     [Machine.Name replacementMachine])
         | None => mret tt
         end
     end
   else
     r ← call (MgmtGetMachine replacementKey);
     match r with
     | inl err =>
         fail (Wrapf err "error getting replacement machine %s"
                 [ObjectKey_String replacementKey])
     | inr _ => mret tt
     end);;
  newProviderID ← waitForProviderID (clusterNamespace u)
                    (key_Name replacementKey) (15 * Minute);
  node ← waitForMatchingNode newProviderID (15 * Minute);
  waitForNodeReady node (15 * Minute);;
  UpdateProviderIDsToNodes;;
  u ← get_u;
  let oldEtcdMemberID := map_get (oldNodeToEtcdMember u) oldHostName in
  (if negb (String.eqb oldEtcdMemberID "") then
     wrapf (deleteEtcdMember (1 * Minute) oldEtcdMemberID)
       "unable to delete old etcd member %s" [oldEtcdMemberID]
   else mret tt);;
  r ← call (MgmtDeleteMachine machine);
  match r with
  | Some err =>
      fail (Wrapf err "error deleting machine %s/%s"
              [Machine.Namespace machine; Machine.Name machine])
  | None => mret tt
  end
  end end end.

(** *** Synthesizing the replacement's objects *)

(** [external.Get] *)
Definition external_Get (ref : ObjectReference) (namespace : string)
  : M Unstructured.t :=
  let key := {| key_Name := ref_Name ref; key_Namespace := namespace |} in
  r ← call (MgmtGetObject (ref_APIVersion ref) (ref_Kind ref) key);
  match r with
  | inl err =>
      fail (Wrapf err "failed to retrieve %s external object %q/%q"
              [ref_Kind ref; key_Namespace key; key_Name key])
  | inr obj => mret obj
  end.

Definition updateInfrastructureReference (replacementKey : ObjectKey)
  (ref : ObjectReference) : M unit :=
  let replacementRef :=
    {| ref_APIVersion := ref_APIVersion ref;
       ref_Kind := ref_Kind ref;
       ref_Namespace := key_Namespace replacementKey;
       ref_Name := key_Name replacementKey |} in
  exists_ ← resourceExists replacementRef;
  if (exists_ : bool) then mret tt
  else
    u ← get_u;
    infraRef ← external_Get ref (clusterNamespace u);
    let infraRef := Unstructured.SetResourceVersion "" infraRef in
    let infraRef := Unstructured.SetName (key_Name replacementKey) infraRef in
    let infraRef := Unstructured.SetOwnerReferences_nil infraRef in
    let infraRef := RemoveNestedField infraRef ["spec"; "providerID"] in
    r ← call (MgmtCreateObject infraRef);
    match r with
    | Some err => fail (WithStack err)
    | None => mret tt
    end.

(** The bootstrap config [updateBootstrapConfig] creates from the one it
    fetched: renamed, always joining, never initializing. *)
Definition replacementBootstrap_of (replacementKey : ObjectKey)
  (bootstrap : KubeadmConfig.t) : KubeadmConfig.t :=
  let nodeRegistration :=
    match KubeadmConfig.InitConfiguration_ bootstrap with
    | Some init => KubeadmConfig.init_NodeRegistration init
    | None =>
        match KubeadmConfig.JoinConfiguration_ bootstrap with
        | Some join => KubeadmConfig.join_NodeRegistration join
        | None => KubeadmConfig.NodeRegistrationOptions_zero
        end
    end in
  let join :=
    match KubeadmConfig.JoinConfiguration_ bootstrap with
    | Some join => join
    | None =>
        {| KubeadmConfig.join_NodeRegistration :=
             KubeadmConfig.NodeRegistrationOptions_zero;
           KubeadmConfig.join_CACertPath := "";
           KubeadmConfig.join_ControlPlane := Some tt |}
    end in
  {| KubeadmConfig.Namespace := KubeadmConfig.Namespace bootstrap;
     KubeadmConfig.Name := key_Name replacementKey;
     KubeadmConfig.ResourceVersion := "";
     KubeadmConfig.UID := KubeadmConfig.UID bootstrap;
     KubeadmConfig.OwnerReferences := None;
     KubeadmConfig.InitConfiguration_ := None;
     KubeadmConfig.JoinConfiguration_ :=
       Some {| KubeadmConfig.join_NodeRegistration := nodeRegistration;
               KubeadmConfig.join_CACertPath :=
                 KubeadmConfig.join_CACertPath join;
               KubeadmConfig.join_ControlPlane :=
                 KubeadmConfig.join_ControlPlane join |} |}.

Definition updateBootstrapConfig (replacementKey : ObjectKey)
  (configName : string) : M unit :=
  let replacementRef :=
    {| ref_APIVersion := bootstrapv1_GroupVersion;
       ref_Kind := "KubeadmConfig";
       ref_Namespace := key_Namespace replacementKey;
       ref_Name := key_Name replacementKey |} in
  exists_ ← resourceExists replacementRef;
  if (exists_ : bool) then mret tt
  else
    u ← get_u;
    let bootstrapKey := {| key_Name := configName;
                           key_Namespace := clusterNamespace u |} in
    r ← call (MgmtGetKubeadmConfig bootstrapKey);
    match r with
    | inl err => fail (WithStack err)
    | inr bootstrap =>
        r ← call (MgmtCreateKubeadmConfig
                    (replacementBootstrap_of replacementKey bootstrap));
        match r with
        | inl err => fail (WithStack err)
        | inr bootstrap =>
            u ← get_u;
            if secretsUpdated u then mret tt
            else
              let secretNames := [clusterName u +:+ "-ca";
                                  clusterName u +:+ "-etcd";
                                  clusterName u +:+ "-sa";
                                  clusterName u +:+ "-proxy"] in
              forM_ secretNames (fun secretName =>
                let secretKey := {| key_Name := secretName;
                                    key_Namespace := clusterNamespace u |} in
                r ← call (MgmtGetSecret secretKey);
                match r with
                | inl err => fail (WithStack err)
                | inr secret =>
                    r ← call (PatchNewHelperSecret secret);
                    match r with
                    | Some err => fail err
                    | None =>
                        let owned :=
                          {| Secret.Namespace := Secret.Namespace secret;
                             Secret.Name := Secret.Name secret;
                             Secret.OwnerReferences :=
                               [{| owner_APIVersion := bootstrapv1_GroupVersion;
                                   owner_Kind := "KubeadmConfig";
                                   owner_Name := KubeadmConfig.Name bootstrap;
                                   owner_UID := KubeadmConfig.UID bootstrap |}]
                          |} in
                        r ← call (PatchSecret secret owned);
                        match r with
                        | Some err => fail err
                        | None => mret tt
                        end
                    end
                end);;
              modify_u (set_secretsUpdated true)
        end
    end.

(** *** The loop over the machines *)

(** The end of the loop body of [updateMachines], from "Skip if this is a
    replacement machine" on: the replacement's name and the three
    replacement steps. *)
Definition replaceMachine (machine : Machine.t) : M unit :=
  u ← get_u;
  if HasSuffix (Machine.Name machine) (upgradeSuffix (upgradeID u))
  then mret tt
  else
    match generateReplacementMachineName (Machine.Name machine)
            (upgradeID u) with
    | None => panic
    | Some replacementMachineName =>
        let replacementKey := {| key_Namespace := clusterNamespace u;
                                 key_Name := replacementMachineName |} in
        updateInfrastructureReference replacementKey
          (Machine.InfrastructureRef (Machine.Spec machine));;
        match Machine.ConfigRef (Machine.Bootstrap_ (Machine.Spec machine)) with
        | None => panic
        | Some configRef =>
            updateBootstrapConfig replacementKey (ref_Name configRef);;
            updateMachine replacementKey machine
        end
    end.

(** The loop body from "Don't process a mismatching upgrade ID" on. *)
Definition processMachine (machine : Machine.t) : M unit :=
  u ← get_u;
  let annotations := default ∅ (Machine.Annotations machine) in
  if negb (String.eqb (map_get annotations AnnotationUpgradeID) (upgradeID u))
  then mret tt
  else replaceMachine machine.

(** The body of the loop of [updateMachines]; returning [tt] early is
    [continue]. *)
Definition updateMachines_body (machine : Machine.t) : M unit :=
  u ← get_u;
  match Machine.ProviderID (Machine.Spec machine) with
  | None => mret tt
  | Some _ =>
      let annotations := default ∅ (Machine.Annotations machine) in
      let machine := Machine_with_annotations annotations machine in
      if String.eqb (map_get annotations AnnotationUpgradeID) "" then
        r ← call (PatchNewHelperMachine machine);
        match r with
        | Some _ => mret tt
        | None =>
            let annotated :=
              Machine_with_annotations
                (<[AnnotationUpgradeID := upgradeID u]> annotations) machine in
            r ← call (PatchMachine machine annotated);
            match r with
            | Some _ => mret tt
            | None => processMachine annotated
            end
        end
      else processMachine machine
  end.

Definition updateMachines (machines : list Machine.t) : M unit :=
  oldNodeToEtcdMemberId (1 * Minute);;
  forM_ machines updateMachines_body.

(** *** Kubelet configmap *)

Definition kubeletConfigMapName (major minor : Z) : string :=
  "kubelet-config-" +:+ format_uint major +:+ "." +:+ format_uint minor.

Definition updateKubeletConfigMapIfNeeded (version : semver.Version)
  : M unit :=
  let desiredKubeletConfigMapName :=
    kubeletConfigMapName (semver.Major version) (semver.Minor version) in
  r ← call (TargetGetConfigMap desiredKubeletConfigMapName);
  match r.2 with
  | None => mret tt
  | Some err =>
      if negb (IsNotFound err) then
        fail (Wrapf err "error determining if configmap %s exists"
                [desiredKubeletConfigMapName])
      else
        let previousMinorVersionKubeletConfigMapName :=
          kubeletConfigMapName (semver.Major version)
            (uint64_sub (semver.Minor version) 1) in
        r ← call (TargetGetConfigMap previousMinorVersionKubeletConfigMapName);
        if match r.2 with Some err => IsNotFound err | None => false end then
          fail (Errorf "unable to find current kubelet configmap %s"
                  [previousMinorVersionKubeletConfigMapName])
        else
          let cm := r.1 in
          let cm :=
            {| ConfigMap.Namespace := ConfigMap.Namespace cm;
               ConfigMap.Name := desiredKubeletConfigMapName;
               ConfigMap.ResourceVersion := "";
               ConfigMap.Data := ConfigMap.Data cm |} in
          r ← call (TargetCreateConfigMap cm);
          match r with
          | Some err =>
              if negb (IsAlreadyExists err) then
                fail (Wrapf err "error creating configmap %s"
                        [desiredKubeletConfigMapName])
              else mret tt
          | None => mret tt
          end
  end.

End Upgrader.

Arguments State : clear implicits.
Arguments M : clear implicits.

(** ** Kubeadm configmap *)

(** [sigs.k8s.io/yaml], decoding into and encoding from a
    [map[string]interface{}]. *)
Class YAML := {
  yaml_Unmarshal : string -> error + gmap string Value;
  yaml_Marshal : gmap string Value -> error + string
}.

(** The Go maps that configmaps refer to, by reference. *)
Abbreviation MapStore := (gmap positive (gmap string string)).

(** The map behind [cm.Data]; a [nil] map reads as empty. *)
Definition ConfigMap_data (h : MapStore) (cm : ConfigMap.t)
  : gmap string string :=
  match ConfigMap.Data cm with
  | Some l => default ∅ (h !! l)
  | None => ∅
  end.

(** [ConfigMap.DeepCopy]: a new struct and, unless [Data] is nil, a new
    map with the same entries. *)
Definition ConfigMap_DeepCopy (cm : ConfigMap.t) (h : MapStore)
  : ConfigMap.t * MapStore :=
  match ConfigMap.Data cm with
  | None => (cm, h)
  | Some l =>
      let l' := fresh (dom h) in
      ({| ConfigMap.Namespace := ConfigMap.Namespace cm;
          ConfigMap.Name := ConfigMap.Name cm;
          ConfigMap.ResourceVersion := ConfigMap.ResourceVersion cm;
          ConfigMap.Data := Some l' |},
       <[l' := default ∅ (h !! l)]> h)
  end.

Definition updateKubeadmKubernetesVersion `{!YAML} (original : ConfigMap.t)
  (version : string) (h : MapStore) : result ConfigMap.t * MapStore :=
  let '(cm, h) := ConfigMap_DeepCopy original h in
  match yaml_Unmarshal (map_get (ConfigMap_data h cm) "ClusterConfiguration")
  with
  | inl err =>
      (Err (Wrapf err
              "error decoding kubeadm configmap ClusterConfiguration" []), h)
  | inr clusterConfig =>
      let clusterConfig :=
        <["kubernetesVersion" := VString version]> clusterConfig in
      match yaml_Marshal clusterConfig with
      | inl err =>
          (Err (Wrapf err
                  "error encoding kubeadm configmap ClusterConfiguration" []),
           h)
      | inr updated =>
          match ConfigMap.Data cm with
          | None => (Panic, h)
          | Some l =>
              (Ok cm,
               <[l := <["ClusterConfiguration" := updated]>
                        (ConfigMap_data h cm)]> h)
          end
      end
  end.

(** ** Notions used in the proofs *)

(** What the proofs need of a three-way comparison. *)
Record GoodCmp {A : Type} (cmp : A -> A -> comparison) : Prop := {
  gc_sym : forall a b, cmp b a = CompOpp (cmp a b);
  gc_trans : forall a b c, cmp a b = Lt -> cmp b c = Lt -> cmp a c = Lt;
  gc_eq : forall a b c, cmp a b = Eq -> cmp b c = cmp a c
}.

(** A comparison as the integer [Compare] returns. *)
Definition sgn (c : comparison) : Z :=
  match c with Lt => -1 | Eq => 0 | Gt => 1 end.

(** [PRVersion.Compare] as a three-way comparison: numeric identifiers
    come first, then numbers by value and words byte by byte. *)
Definition pr_cmp (v o : semver.PRVersion) : comparison :=
  match semver.IsNum v, semver.IsNum o with
  | true, false => Lt
  | false, true => Gt
  | true, true => semver.VersionNum v ?= semver.VersionNum o
  | false, false =>
      semver.string_compare (semver.VersionStr v) (semver.VersionStr o)
  end.

(** Lexicographic order of two lists of prerelease identifiers. *)
Fixpoint pre_cmp (v o : list semver.PRVersion) : comparison :=
  match v, o with
  | x :: v', y :: o' =>
      match pr_cmp x y with Eq => pre_cmp v' o' | c => c end
  | [], [] => Eq
  | [], _ :: _ => Lt
  | _ :: _, [] => Gt
  end.

(** The prerelease part of [Version.Compare]: no prerelease part at all
    is the greatest. *)
Definition pre_top (v o : list semver.PRVersion) : comparison :=
  match v, o with
  | [], [] => Eq
  | [], _ :: _ => Gt
  | _ :: _, [] => Lt
  | _ :: _, _ :: _ => pre_cmp v o
  end.

(** Lexicographic combination: the first comparison decides unless it
    is [Eq]. *)
Definition lexc (c d : comparison) : comparison :=
  match c with Eq => d | _ => c end.

(** [Version.Compare] as a three-way comparison. *)
Definition version_cmp (v o : semver.Version) : comparison :=
  lexc (semver.Major v ?= semver.Major o)
    (lexc (semver.Minor v ?= semver.Minor o)
       (lexc (semver.Patch v ?= semver.Patch o)
          (pre_top (semver.Pre v) (semver.Pre o)))).

(** What the loop has established once it has seen the versions [seen]. *)
Definition resolved (seen : list semver.Version) (min max : semver.Version)
  : Prop :=
  (seen = [] /\ min = semver.zero /\ max = semver.zero)
  \/ (In min seen /\ In max seen
      /\ forall v, In v seen ->
                   semver.Compare min v <= 0 /\ semver.Compare v max <= 0).

(** ** Reading a trace *)

(** The exec request of an event, if it is a [PodExec], with the error it
    returned. *)
Definition event_exec (ev : Event) : option (Z * PodExecInput * option error) :=
  match ev with
  | Ev c reply =>
      match c in Call T return T -> option (Z * PodExecInput * option error)
      with
      | PodExec timeout input => fun reply => Some (timeout, input, reply.2)
      | _ => fun _ => None
      end reply
  end.

(** The Machine an event deletes, with the error returned. *)
Definition event_delete (ev : Event) : option (Machine.t * option error) :=
  match ev with
  | Ev c reply =>
      match c in Call T return T -> option (Machine.t * option error) with
      | MgmtDeleteMachine machine => fun reply => Some (machine, reply)
      | _ => fun _ => None
      end reply
  end.

(** The Machine an event creates. *)
Definition event_create_machine (ev : Event) : option Machine.t :=
  match ev with
  | Ev c _ =>
      match c with
      | MgmtCreateMachine machine => Some machine
      | _ => None
      end
  end.

(** The name an event looks a configmap up by. *)
Definition event_get_configmap (ev : Event) : option string :=
  match ev with
  | Ev c _ =>
      match c with
      | TargetGetConfigMap name => Some name
      | _ => None
      end
  end.

(** An event that neither runs a command in a pod nor deletes a Machine. *)
Definition quiet (ev : Event) : bool :=
  match event_exec ev, event_delete ev with
  | None, None => true
  | _, _ => false
  end.

(** The hostname [updateMachine] determines for the node of the old
    Machine, from the node index of upgrader [u]; [None] where
    [updateMachine] stops before it has one. *)
Definition oldHostName_of `{!Libraries} (u : ControlPlaneUpgrader)
  (machine : Machine.t) : option string :=
  machineProviderID ← Machine.ProviderID (Machine.Spec machine);
  match NewProviderID machineProviderID with
  | inl _ => None
  | inr originalProviderID =>
      oldNode ← GetNodeFromProviderID u (ProviderID.ID originalProviderID);
      Some (hostnameForNode oldNode)
  end.

(** A method is calm when it leaves the etcd snapshot of the upgrader as
    it was and performs only quiet operations. *)
Definition calm {W : Type} {A : Type} (m : M W A) : Prop :=
  forall s r s' t,
    m s = (r, s', t) ->
    oldNodeToEtcdMember (upgrader s') = oldNodeToEtcdMember (upgrader s)
    /\ Forall (fun ev => quiet ev = true) t.

(** An event of [etcdctl ctx args]: no deletion, and if it runs a command
    in a pod, then the command [etcdctlForPod] builds from [args], under
    the deadline [ctx]. *)
Definition etcdctl_event (ctx : Z) (args : list string) (ev : Event) : Prop :=
  event_delete ev = None
  /\ forall timeout input err,
       event_exec ev = Some (timeout, input, err) ->
       timeout = ctx /\ exists pod, input = etcdctlForPod_opts pod args.

(** An event that ran the command of [etcdctl ctx args] in a pod with
    success. *)
Definition etcdctl_success (ctx : Z) (args : list string) (ev : Event)
  : Prop :=
  exists pod, event_exec ev = Some (ctx, etcdctlForPod_opts pod args, None).

(** The part of [updateMachine] after the node index is refreshed: remove
    the old etcd member, if the snapshot has one for [oldHostName], then
    delete the old Machine. *)
Definition removeAndDelete {W : Type} `{!Cluster W}
  (oldHostName : string) (machine : Machine.t) : M W unit :=
  u ← get_u;
  let oldEtcdMemberID := map_get (oldNodeToEtcdMember u) oldHostName in
  (if negb (String.eqb oldEtcdMemberID "") then
     wrapf (deleteEtcdMember (1 * Minute) oldEtcdMemberID)
       "unable to delete old etcd member %s" [oldEtcdMemberID]
   else mret tt);;
  r ← call (MgmtDeleteMachine machine);
  match r with
  | Some err =>
      fail (Wrapf err "error deleting machine %s/%s"
              [Machine.Namespace machine; Machine.Name machine])
  | None => mret tt
  end.

(** The trace [t1] holds, in this order, a wait that saw the provider id
    of the Machine named [name], a wait that saw the node of that
    provider id, and a wait for that node to be ready which returned
    without error, its last readiness check having returned true. *)
Definition ready_before {W : Type} `{!Cluster W} `{!Libraries}
  (ns name : string) (t1 : list Event) : Prop :=
  exists newProviderID node s0 s1 s2 s3 ta tp tn tr tc,
    t1 = ta ++ tp ++ tn ++ tr ++ tc
    /\ waitForProviderID ns name (15 * Minute) s0 = (Ok newProviderID, s1, tp)
    /\ waitForMatchingNode newProviderID (15 * Minute) s1 = (Ok node, s2, tn)
    /\ waitForNodeReady node (15 * Minute) s2 = (Ok tt, s3, tr)
    /\ exists sc tr0 tr1,
         tr = tr0 ++ tr1
         /\ isReady (hostnameForNode node) sc = (Ok true, s3, tr1).

(** ** An environment for examples *)

(** An environment that answers each call by a fixed function of the
    call. *)
Definition Oracle : Type := forall T, Call T -> T.

#[global] Instance oracle_cluster : Cluster Oracle :=
  fun T c w => (w T c, w).

Module Example.

(** Provider ids of the form [docker:////NAME], the only ones this
    instance accepts. *)
Definition parseDockerProviderID (s : string) : error + ProviderID.t :=
  match strip_prefix "docker:////" s with
  | Some name =>
      if nonempty name
      then inr {| ProviderID.original := s;
                  ProviderID.cloudProvider := "docker";
                  ProviderID.id := name |}
      else inl (Errorf "providerID is empty" [])
  | None =>
      inl (Errorf "providerID must be of the form <cloudProvider>://<optional>/<segments>/<provider id>" [])
  end.

Definition member_cp0 : etcdMember :=
  {| member_ID := 10276657743932975437;
     member_Name := "cp-0";
     member_ClientURLs := ["https://10.0.0.10:2379"] |}.

(** The member list is decoded from one known output only. *)
Definition decodeMembers (s : string) : error + list etcdMember :=
  if String.eqb s "members: cp-0" then inr [member_cp0]
  else inl (Errorf "invalid character" []).

#[global] Instance libraries : Libraries :=
  {| NewProviderID := parseDockerProviderID;
     json_Unmarshal_members := decodeMembers |}.

Definition notFound : error := StatusError StatusReasonNotFound "not found".

Definition internalError : error :=
  StatusError (StatusReasonOther "InternalError") "etcdserver: request timed out".

(** The control-plane machine [cp-0] at v1.16.3, not annotated. *)
Definition cp0 : Machine.t := machine_with_version "cp-0" (Some "v1.16.3").

(** [cp-0] as a run with upgrade-id 99 left it. *)
Definition cp0_of_run_99 : Machine.t :=
  Machine_with_annotations {[ AnnotationUpgradeID := "99" ]} cp0.

Definition node_of (name : string) : Node.t :=
  {| Node.Name := name;
     Node.ProviderID := "docker:////" +:+ name;
     Node.Addresses := [("InternalIP", "10.0.0.10"); ("Hostname", name)] |}.

Definition ready_pod (name : string) : Pod.t :=
  {| Pod.Namespace := "kube-system";
     Pod.Name := name;
     Pod.PodIP := "10.0.0.10";
     Pod.Conditions := [("Initialized", "True"); ("Ready", "True");
                        ("ContainersReady", "True"); ("PodScheduled", "True")] |}.

Definition etcd_pod : Pod.t := ready_pod "etcd-cp-0".

Definition kubeadmConfig_of (name : string) : KubeadmConfig.t :=
  {| KubeadmConfig.Namespace := "default";
     KubeadmConfig.Name := name;
     KubeadmConfig.ResourceVersion := "7";
     KubeadmConfig.UID := "uid-of-" +:+ name;
     KubeadmConfig.OwnerReferences := Some [];
     KubeadmConfig.InitConfiguration_ :=
       Some {| KubeadmConfig.init_NodeRegistration :=
                 {| KubeadmConfig.nr_Name := name;
                    KubeadmConfig.nr_CRISocket := "/var/run/containerd/containerd.sock";
                    KubeadmConfig.nr_KubeletExtraArgs := None |} |};
     KubeadmConfig.JoinConfiguration_ := None |}.

Definition infrastructure_of (apiVersion kind : string) (key : ObjectKey)
  : Unstructured.t :=
  {[ "apiVersion" := VString apiVersion;
     "kind" := VString kind;
     "metadata" := VMap {[ "name" := VString (key_Name key);
                           "namespace" := VString (key_Namespace key);
                           "resourceVersion" := VString "12" ]};
     "spec" := VMap {[ "providerID" :=
                         VString ("docker:////" +:+ key_Name key) ]} ]}.

(** A cluster in which every replacement comes up at once: no object
    named for upgrade-id 100 exists yet, every creation, patch, deletion and etcdctl command
    succeeds, a Machine read back has its provider id, the nodes of [cp-0]
    and of its replacement for upgrade-id 100 are listed, and every static
    pod is ready.  Only the kubelet configmap of minor 16 exists. *)
Definition rolling : Oracle := fun T c =>
  match c in Call T return T with
  | MgmtGetObject apiVersion kind key =>
      if HasSuffix (key_Name key) ".upgrade.100" then inl notFound
      else inr (infrastructure_of apiVersion kind key)
  | MgmtGetMachine key =>
      inr (machine_with_version (key_Name key) (Some "1.16.3"))
  | MgmtGetKubeadmConfig key => inr (kubeadmConfig_of (key_Name key))
  | MgmtGetSecret key =>
      inr {| Secret.Namespace := key_Namespace key;
             Secret.Name := key_Name key;
             Secret.OwnerReferences := [] |}
  | MgmtCreateObject _ => None
  | MgmtCreateMachine _ => None
  | MgmtCreateKubeadmConfig config => inr config
  | MgmtDeleteMachine _ => None
  | PatchNewHelperMachine _ => None
  | PatchMachine _ _ => None
  | PatchNewHelperSecret _ => None
  | PatchSecret _ _ => None
  | TargetGetConfigMap name =>
      if String.eqb name "kubelet-config-1.16"
      then ({| ConfigMap.Namespace := "kube-system";
               ConfigMap.Name := name;
               ConfigMap.ResourceVersion := "42";
               ConfigMap.Data := Some 1%positive |}, None)
      else (ConfigMap.empty, Some notFound)
  | TargetCreateConfigMap _ => None
  | TargetGetPod name => inr (ready_pod name)
  | TargetListPods _ => inr [etcd_pod]
  | TargetListNodes => inr [node_of "cp-0"; node_of "cp-0.upgrade.100"]
  | PodExec _ _ => ("members: cp-0", "", None)
  | PollerTicks _ _ => 0%nat
  end.

(** As [rolling], but reading any kubelet configmap other than that of
    version 1.17 fails with a server error. *)
Definition flaky_configmaps : Oracle := fun T c =>
  match c in Call T return T with
  | TargetGetConfigMap name =>
      if String.eqb name "kubelet-config-1.17"
      then (ConfigMap.empty, Some notFound)
      else (ConfigMap.empty, Some internalError)
  | c => rolling _ c
  end.

(** The upgrader of a run with upgrade-id 100 towards v1.16.3, after the
    node index and the etcd snapshot were taken. *)
Definition upgrader_100 : ControlPlaneUpgrader :=
  {| userVersion := NumericVersions.version 1 16 3;
     desiredVersion := NumericVersions.version 1 16 3;
     clusterNamespace := "default";
     clusterName := "test";
     providerIDsToNodes := {[ "cp-0" := node_of "cp-0" ]};
     imageField := "";
     imageID := "";
     upgradeID := "100";
     oldNodeToEtcdMember := {[ "cp-0" := "8e9e05c52164694d" ]};
     secretsUpdated := false |}.

Definition start (w : Oracle) : State Oracle :=
  {| upgrader := upgrader_100; world := w |}.

(** A codec that knows the cluster configuration of the example at
    v1.16.3 and at v1.17.0, and no other document. *)
Definition clusterConfiguration (version : string) : gmap string Value :=
  {[ "apiVersion" := VString "kubeadm.k8s.io/v1beta1";
     "kind" := VString "ClusterConfiguration";
     "clusterName" := VString "test";
     "kubernetesVersion" := VString version ]}.

Definition clusterConfiguration_text (version : string) : string :=
  "apiVersion: kubeadm.k8s.io/v1beta1, clusterName: test, kind: ClusterConfiguration, kubernetesVersion: "
  +:+ version.

#[global] Instance yaml : YAML :=
  {| yaml_Unmarshal text :=
       if String.eqb text (clusterConfiguration_text "v1.16.3")
       then inr (clusterConfiguration "v1.16.3")
       else if String.eqb text (clusterConfiguration_text "v1.17.0")
       then inr (clusterConfiguration "v1.17.0")
       else inl (Errorf "yaml: did not find expected key" []);
     yaml_Marshal m :=
       match m !! "kubernetesVersion" with
       | Some (VString version) => inr (clusterConfiguration_text version)
       | _ => inl (Errorf "json: unsupported value" [])
       end |}.

(** The kubeadm configmap, its data held at reference 1 of the store. *)
Definition kubeadm_config : ConfigMap.t :=
  {| ConfigMap.Namespace := "kube-system";
     ConfigMap.Name := "kubeadm-config";
     ConfigMap.ResourceVersion := "42";
     ConfigMap.Data := Some 1%positive |}.

Definition kubeadm_store : MapStore :=
  {[ 1%positive :=
       {[ "ClusterConfiguration" := clusterConfiguration_text "v1.16.3";
          "ClusterStatus" := "apiEndpoints: {}" ]} ]}.

End Example.

(** ** Further notions used in the proofs *)

(** The exec events of [etcdctl ctx args] for pods tried one after the
    other, each with what its command returned. *)
Definition exec_events (ctx : Z) (args : list string)
  (tried : list (Pod.t * (string * string * option error))) : list Event :=
  (fun x => Ev (PodExec ctx (etcdctlForPod_opts x.1 args)) x.2) <$> tried.

(** The value of a string of hex digits, most significant first, as
    [strconv.ParseUint(s, 16, 64)] reads the output of
    [strconv.FormatUint(n, 16)]. *)
Definition hex_digit_value (c : ascii) : N :=
  let b := byte_val c in
  if (b <? 58)%N then (b - 48)%N else (b - 87)%N.

Fixpoint hex_value_go (s : string) (acc : N) : N :=
  match s with
  | EmptyString => acc
  | String c s' => hex_value_go s' (16 * acc + hex_digit_value c)%N
  end.

Definition hex_value (s : string) : Z := Z.of_N (hex_value_go s 0).

(** The last etcd member of a listing that goes by the name [name]. *)
Definition lastMemberNamed (name : string) (members : list etcdMember)
  : option etcdMember :=
  last (filter (fun member => member_Name member = name) members).

(** The key [UpdateProviderIDsToNodes] files a node under: the id part of
    its provider id, or the whole provider id where it does not parse. *)
Definition nodeIndexKey `{!Libraries} (node : Node.t) : string :=
  match NewProviderID (Node.ProviderID node) with
  | inr providerID => ProviderID.ID providerID
  | inl _ => Node.ProviderID node
  end.

(** The last node of a listing that is filed under [id]. *)
Definition lastNodeIndexed `{!Libraries} (id : string) (nodes : list Node.t)
  : option Node.t :=
  last (filter (fun node => nodeIndexKey node = id) nodes).

(** A method stays within [R] and [P] when every run of it takes the
    upgrader to one related by [R] and performs only calls that satisfy
    [P]. *)
Definition within {W A : Type} (R : relation ControlPlaneUpgrader)
  (P : Event -> Prop) (m : M W A) : Prop :=
  forall s, R (upgrader s) (upgrader (m s).1.2) /\ Forall P (m s).2.

(** A condition that a poller can always evaluate: it returns "done" or
    "not yet", never an error. *)
Definition evaluates {W A : Type} (condition : M W (option A)) : Prop :=
  forall s, exists done, (condition s).1.1 = Ok done.

(** The calls [waitForProviderID ns name timeout] may make. *)
Definition waitForProviderID_event (ns name : string) (timeout : Z)
  (ev : Event) : Prop :=
  (exists reply,
      ev = Ev (MgmtGetMachine {| key_Namespace := ns; key_Name := name |})
             reply)
  \/ exists ticks, ev = Ev (PollerTicks (5 * Second) timeout) ticks.

(** The calls [waitForMatchingNode] may make. *)
Definition waitForMatchingNode_event (timeout : Z) (ev : Event) : Prop :=
  (exists reply, ev = Ev TargetListNodes reply)
  \/ exists ticks, ev = Ev (PollerTicks (5 * Second) timeout) ticks.

(** A static pod all of whose required conditions are ["True"]. *)
Definition pod_ready (pod : Pod.t) : Prop :=
  forall condition,
    In condition ["PodScheduled"; "Initialized"; "Ready"; "ContainersReady"] ->
    In (condition, "True") (Pod.Conditions pod).

(** The answer to a read of a pod shows the pod, and shows it ready. *)
Definition reply_ready (reply : error + Pod.t) : Prop :=
  match reply with
  | inr pod => pod_ready pod
  | inl _ => False
  end.

(** The reads of the static pods of [components] on the node
    [nodeHostname], one after the other, each with its answer. *)
Definition pod_events (nodeHostname : string) (components : list string)
  (replies : list (error + Pod.t)) : list Event :=
  zip_with (fun component reply =>
              Ev (TargetGetPod (component +:+ "-" +:+ nodeHostname)) reply)
    components replies.

(** A call of the patch helper for Machines. *)
Definition machine_patch_event (ev : Event) : Prop :=
  (exists before reply, ev = Ev (PatchNewHelperMachine before) reply)
  \/ exists before after reply, ev = Ev (PatchMachine before after) reply.

(** [unstructured.NestedFieldNoCopy], as a lookup: the value under a path
    of field names, if every step but the last leads to a map. *)
Fixpoint NestedField (v : Value) (fields : list string) : option Value :=
  match fields with
  | [] => Some v
  | field :: rest =>
      match v with
      | VMap m => x ← m !! field; NestedField x rest
      | _ => None
      end
  end.

(** A field of an object that holds a map, or that is absent. *)
Definition map_or_absent (obj : gmap string Value) (field : string) : Prop :=
  match obj !! field with
  | Some (VMap _) | None => True
  | Some _ => False
  end.

(** The schema-free object an event creates, with the error returned. *)
Definition event_create_object (ev : Event)
  : option (Unstructured.t * option error) :=
  match ev with
  | Ev c reply =>
      match c in Call T return T -> option (Unstructured.t * option error) with
      | MgmtCreateObject obj => fun reply => Some (obj, reply)
      | _ => fun _ => None
      end reply
  end.

(** The fields [updateInfrastructureReference] resets in the copy. *)
Definition infrastructure_reset_fields : list (string * string) :=
  [("spec", "providerID"); ("metadata", "resourceVersion");
   ("metadata", "name"); ("metadata", "ownerReferences")].

(** The bootstrap config an event creates, with the server's answer. *)
Definition event_create_kubeadmconfig (ev : Event)
  : option (KubeadmConfig.t * (error + KubeadmConfig.t)) :=
  match ev with
  | Ev c reply =>
      match c in Call T
            return T -> option (KubeadmConfig.t * (error + KubeadmConfig.t))
      with
      | MgmtCreateKubeadmConfig config => fun reply => Some (config, reply)
      | _ => fun _ => None
      end reply
  end.

(** The key an event reads a Secret by. *)
Definition event_get_secret (ev : Event) : option ObjectKey :=
  match ev with
  | Ev c _ =>
      match c with
      | MgmtGetSecret key => Some key
      | _ => None
      end
  end.

(** The Secret an event patches: as it was, as it is to be, and the error
    returned. *)
Definition event_patch_secret (ev : Event)
  : option (Secret.t * Secret.t * option error) :=
  match ev with
  | Ev c reply =>
      match c in Call T return T -> option (Secret.t * Secret.t * option error)
      with
      | PatchSecret before after => fun reply => Some (before, after, reply)
      | _ => fun _ => None
      end reply
  end.

(** The owner reference [updateBootstrapConfig] gives the cluster's
    secrets: the bootstrap config it created, as the server returned it. *)
Definition bootstrapOwner (bootstrap : KubeadmConfig.t) : OwnerReference :=
  {| owner_APIVersion := bootstrapv1_GroupVersion;
     owner_Kind := "KubeadmConfig";
     owner_Name := KubeadmConfig.Name bootstrap;
     owner_UID := KubeadmConfig.UID bootstrap |}.

(** A Secret with its owners replaced by the one owner [owner]. *)
Definition ownedBy (owner : OwnerReference) (secret : Secret.t) : Secret.t :=
  {| Secret.Namespace := Secret.Namespace secret;
     Secret.Name := Secret.Name secret;
     Secret.OwnerReferences := [owner] |}.

(** The body of the loop of [updateBootstrapConfig] over the names of the
    cluster's secrets. *)
Definition ownSecret {W : Type} `{!Cluster W} (u : ControlPlaneUpgrader)
  (bootstrap : KubeadmConfig.t) (secretName : string) : M W unit :=
  let secretKey := {| key_Name := secretName;
                      key_Namespace := clusterNamespace u |} in
  r ← call (MgmtGetSecret secretKey);
  match r with
  | inl err => fail (WithStack err)
  | inr secret =>
      r ← call (PatchNewHelperSecret secret);
      match r with
      | Some err => fail err
      | None =>
          let owned :=
            {| Secret.Namespace := Secret.Namespace secret;
               Secret.Name := Secret.Name secret;
               Secret.OwnerReferences :=
                 [{| owner_APIVersion := bootstrapv1_GroupVersion;
                     owner_Kind := "KubeadmConfig";
                     owner_Name := KubeadmConfig.Name bootstrap;
                     owner_UID := KubeadmConfig.UID bootstrap |}]
            |} in
          r ← call (PatchSecret secret owned);
          match r with
          | Some err => fail err
          | None => mret tt
          end
      end
  end.

(** The keys of the four secrets of the cluster of upgrader [u]. *)
Definition clusterSecretKeys (u : ControlPlaneUpgrader) : list ObjectKey :=
  (fun suffix => {| key_Namespace := clusterNamespace u;
                    key_Name := clusterName u +:+ suffix |})
    <$> ["-ca"; "-etcd"; "-sa"; "-proxy"].

(** The relation between upgraders that holds of any two. *)
Definition any_upgrader : relation ControlPlaneUpgrader := fun _ _ => True.

(** The calls of [updateBootstrapConfig] that hand secrets over to the
    bootstrap config [bootstrap], when every call succeeds: for each
    secret a read by its key, a patch helper, and the patch that replaces
    its owners. *)
Definition secret_events (bootstrap : KubeadmConfig.t)
  (secrets : list (ObjectKey * Secret.t)) : list Event :=
  secrets ≫= (fun x =>
    [Ev (MgmtGetSecret x.1) (inr x.2);
     Ev (PatchNewHelperSecret x.2) None;
     Ev (PatchSecret x.2 (ownedBy (bootstrapOwner bootstrap) x.2)) None]).

(** The part of [updateMachine] after the replacement Machine was created
    or read: wait for its provider id, its node and the node's readiness,
    refresh the node index, then remove the old etcd member and delete
    the old Machine. *)
Definition awaitReplacement {W : Type} `{!Cluster W} `{!Libraries}
  (replacementKey : ObjectKey) (oldHostName : string) (machine : Machine.t)
  (u : ControlPlaneUpgrader) : M W unit :=
  newProviderID ← waitForProviderID (clusterNamespace u)
                    (key_Name replacementKey) (15 * Minute);
  node ← waitForMatchingNode newProviderID (15 * Minute);
  waitForNodeReady node (15 * Minute);;
  UpdateProviderIDsToNodes;;
  removeAndDelete oldHostName machine.

(** ** The whole upgrade *)

(** [clusterv1.MachineClusterLabelName] and
    [clusterv1.MachineControlPlaneLabelName] *)
Definition MachineClusterLabelName : string := "cluster.x-k8s.io/cluster-name".
Definition MachineControlPlaneLabelName : string :=
  "cluster.x-k8s.io/control-plane".

(** [metav1.Time]: seconds and nanoseconds since the zero time. *)
Definition Time : Type := (Z * Z)%type.

(** [IsZero] of a pointer to a [metav1.Time]: true of [nil] and of the
    zero time. *)
Definition Time_IsZero (t : option Time) : bool :=
  match t with
  | None => true
  | Some (sec, nsec) => (sec =? 0) && (nsec =? 0)
  end.

(** An item of a [clusterv1.MachineList]: the Machine, with the deletion
    timestamp of its metadata, which only [listMachines] reads. *)
Record MachineListItem := {
  item_Machine : Machine.t;
  item_DeletionTimestamp : option Time
}.

(** [rbacv1.Role] *)
Module Role.
Record PolicyRule := {
  Verbs : list string;
  APIGroups : list string;
  Resources : list string;
  ResourceNames : list string
}.
Record t := {
  Namespace : string;
  Name : string;
  Rules : list PolicyRule
}.
End Role.

(** [rbacv1.RoleBinding] *)
Module RoleBinding.
Record Subject := {
  subject_APIGroup : string;
  subject_Kind : string;
  subject_Name : string
}.
Record RoleRef := {
  roleRef_APIGroup : string;
  roleRef_Kind : string;
  roleRef_Name : string
}.
Record t := {
  Namespace : string;
  Name : string;
  Subjects : list Subject;
  RoleRef_ : RoleRef
}.
End RoleBinding.

(** What the upgrade as a whole asks of its environment: the calls of the
    replacement of the Machines, and the calls that only [Upgrade] and
    the helpers it alone uses make.  Of a role and of a role binding the
    upgrader reads nothing but the error of the read. *)
Inductive UpgradeCall : Type -> Type :=
| Replacing (T : Type) (c : Call T) : UpgradeCall T
| MgmtListMachines (labels : gmap string string) (namespace : string)
    : UpgradeCall (error + list MachineListItem)
| TargetGetRole (name : string) : UpgradeCall (option error)
| TargetCreateRole (role : Role.t) : UpgradeCall (option error)
| TargetGetRoleBinding (name : string) : UpgradeCall (option error)
| TargetCreateRoleBinding (binding : RoleBinding.t)
    : UpgradeCall (option error)
| TargetUpdateConfigMap (cm : ConfigMap.t) : UpgradeCall (option error).
Arguments Replacing {T} c.

Inductive UpgradeEvent :=
  UEv (T : Type) (call : UpgradeCall T) (reply : T).
Arguments UEv {T} call reply.

(** An event of the replacement of the Machines as an event of the
    upgrade. *)
Definition replacing_event (ev : Event) : UpgradeEvent :=
  match ev with Ev c reply => UEv (Replacing c) reply end.

Class UpgradeCluster (W : Type) :=
  performUpgrade : forall T, UpgradeCall T -> W -> T * W.

#[global] Instance replacing_cluster {W : Type} `{!UpgradeCluster W}
  : Cluster W :=
  fun T c w => performUpgrade T (Replacing c) w.

(** The memory of the process is part of its world: it holds the maps
    that configmaps refer to. *)
Class Memory (W : Type) := {
  heap : W -> MapStore;
  set_heap : MapStore -> W -> W
}.

(** [semver.ParseTolerant] *)
Class Semver := semver_ParseTolerant : string -> error + semver.Version.

Definition set_desiredVersion (v : semver.Version)
  (u : ControlPlaneUpgrader) : ControlPlaneUpgrader :=
  {| userVersion := userVersion u; desiredVersion := v;
     clusterNamespace := clusterNamespace u; clusterName := clusterName u;
     providerIDsToNodes := providerIDsToNodes u;
     imageField := imageField u; imageID := imageID u;
     upgradeID := upgradeID u;
     oldNodeToEtcdMember := oldNodeToEtcdMember u;
     secretsUpdated := secretsUpdated u |}.

(** [delete(machine.Annotations, key)]; deleting from a [nil] map does
    nothing. *)
Definition Machine_delete_annotation (key : string) (machine : Machine.t)
  : Machine.t :=
  {| Machine.Namespace := Machine.Namespace machine;
     Machine.Name := Machine.Name machine;
     Machine.ResourceVersion := Machine.ResourceVersion machine;
     Machine.Annotations := delete key <$> Machine.Annotations machine;
     Machine.Spec := Machine.Spec machine |}.

Section Upgrade.

Context {W : Type} `{!UpgradeCluster W} `{!Memory W}.
Context `{!Libraries} `{!YAML} `{!Semver}.

(** A method of the upgrade as a whole. *)
Definition UM (A : Type) : Type :=
  State W -> result A * State W * list UpgradeEvent.

#[global] Instance UM_ret : MRet UM := fun A a s => (Ok a, s, []).

#[global] Instance UM_bind : MBind UM := fun A B f m s =>
  match m s with
  | (Ok a, s', t) => let '(r, s'', t') := f a s' in (r, s'', t ++ t')
  | (Err e, s', t) => (Err e, s', t)
  | (Panic, s', t) => (Panic, s', t)
  end.

Definition ufail {A} (e : error) : UM A := fun s => (Err e, s, []).

Definition ucall {T} (c : UpgradeCall T) : UM T := fun s =>
  let '(r, w) := performUpgrade T c (world s) in
  (Ok r, {| upgrader := upgrader s; world := w |}, [UEv c r]).

Definition uget_u : UM ControlPlaneUpgrader :=
  fun s => (Ok (upgrader s), s, []).

Definition umodify_u (f : ControlPlaneUpgrader -> ControlPlaneUpgrader)
  : UM unit :=
  fun s => (Ok tt, {| upgrader := f (upgrader s); world := world s |}, []).

(** A step on the memory of the process. *)
Definition memory {A} (f : MapStore -> result A * MapStore) : UM A :=
  fun s =>
    let '(r, h) := f (heap (world s)) in
    (r, {| upgrader := upgrader s; world := set_heap h (world s) |}, []).

(** A method of the replacement of the Machines, run as part of the
    upgrade. *)
Definition replacing {A} (m : M W A) : UM A := fun s =>
  let '(r, s', t) := m s in (r, s', replacing_event <$> t).

Definition listMachines : UM (list Machine.t) :=
  u ← uget_u;
  let labels : gmap string string :=
    {[ MachineClusterLabelName := clusterName u;
       MachineControlPlaneLabelName := "true" ]} in
  r ← ucall (MgmtListMachines labels (clusterNamespace u));
  match r with
  | inl err => ufail (Wrapf err "error listing machines" [])
  | inr items =>
      mret (item_Machine
              <$> List.filter
                    (fun m => Time_IsZero (item_DeletionTimestamp m)) items)
  end.

Definition updateKubeletRbacIfNeeded (version : semver.Version) : UM unit :=
  let majorMinor :=
    format_uint (semver.Major version) +:+ "."
    +:+ format_uint (semver.Minor version) in
  let roleName := "kubeadm:kubelet-config-" +:+ majorMinor in
  err ← ucall (TargetGetRole roleName);
  match err with
  | Some err =>
      if IsNotFound err then
        let newRole :=
          {| Role.Namespace := "kube-system";
             Role.Name := roleName;
             Role.Rules :=
               [{| Role.Verbs := ["get"];
                   Role.APIGroups := [""];
                   Role.Resources := ["configmaps"];
                   Role.ResourceNames := ["kubelet-config-" +:+ majorMinor]
                |}] |} in
        err ← ucall (TargetCreateRole newRole);
        match err with
        | Some err =>
            if negb (IsAlreadyExists err)
            then ufail (Wrapf err "error creating role %s" [roleName])
            else mret tt
        | None => mret tt
        end
      else
        ufail (Wrapf err "error determining if role %s exists" [roleName])
  | None => mret tt
  end;;
  err ← ucall (TargetGetRoleBinding roleName);
  match err with
  | Some err =>
      if IsNotFound err then
        let newRoleBinding :=
          {| RoleBinding.Namespace := "kube-system";
             RoleBinding.Name := roleName;
             RoleBinding.Subjects :=
               [{| RoleBinding.subject_APIGroup := "rbac.authorization.k8s.io";
                   RoleBinding.subject_Kind := "Group";
                   RoleBinding.subject_Name := "system:nodes" |};
                {| RoleBinding.subject_APIGroup := "rbac.authorization.k8s.io";
                   RoleBinding.subject_Kind := "Group";
                   RoleBinding.subject_Name :=
                     "system:bootstrappers:kubeadm:default-node-token" |}];
             RoleBinding.RoleRef_ :=
               {| RoleBinding.roleRef_APIGroup := "rbac.authorization.k8s.io";
                  RoleBinding.roleRef_Kind := "Role";
                  RoleBinding.roleRef_Name := roleName |} |} in
        err ← ucall (TargetCreateRoleBinding newRoleBinding);
        match err with
        | Some err =>
            if negb (IsAlreadyExists err)
            then ufail (Wrapf err "error creating rolebinding %s" [roleName])
            else mret tt
        | None => mret tt
        end
      else
        ufail (Wrapf err "error determining if rolebinding %s exists"
                 [roleName])
  | None => mret tt
  end.

Definition updateAndUploadKubeadmKubernetesVersion : UM unit :=
  r ← ucall (Replacing (TargetGetConfigMap "kubeadm-config"));
  match r.2 with
  | Some err =>
      ufail (Wrapf err "error getting kubeadm configmap from target cluster"
               [])
  | None =>
      let original := r.1 in
      u ← uget_u;
      updated ← memory (updateKubeadmKubernetesVersion original
                          ("v" +:+ Version_String (desiredVersion u)));
      err ← ucall (TargetUpdateConfigMap updated);
      match err with
      | Some err => ufail (Wrapf err "error updating kubeadm configmap" [])
      | None => mret tt
      end
  end.

(** The body of the last loop of [Upgrade], which removes the upgrade-id
    annotation from the replacement of a Machine. *)
Definition removeUpgradeAnnotation (m : Machine.t) : M W unit :=
  u ← get_u;
  match generateReplacementMachineName (Machine.Name m) (upgradeID u) with
  | None => panic
  | Some replacementName =>
      let key := {| key_Namespace := Machine.Namespace m;
                    key_Name := replacementName |} in
      r ← call (MgmtGetMachine key);
      match r with
      | inl err =>
          fail (Wrapf err "error getting machine %s" [ObjectKey_String key])
      | inr replacement =>
          r ← call (PatchNewHelperMachine replacement);
          match r with
          | Some err => fail err
          | None =>
              let patched :=
                Machine_delete_annotation AnnotationUpgradeID replacement in
              r ← call (PatchMachine replacement patched);
              match r with
              | Some err => fail err
              | None => mret tt
              end
          end
      end
  end.

Definition Upgrade : UM unit :=
  machines ← listMachines;
  if (length machines =? 0)%nat
  then ufail (Errorf "Found 0 control plane machines" [])
  else
    let '(min, max, err) :=
      minMaxControlPlaneVersions semver_ParseTolerant machines in
    match err with
    | Some err =>
        ufail (Wrapf err "error determining current control plane versions" [])
    | None =>
        u ← uget_u;
        (if semver.EQ unsetVersion (userVersion u)
         then umodify_u (set_desiredVersion max)
         else mret tt);;
        u ← uget_u;
        (if isMinorVersionUpgrade min (desiredVersion u) then
           replacing (updateKubeletConfigMapIfNeeded (desiredVersion u));;
           updateKubeletRbacIfNeeded (desiredVersion u)
         else mret tt);;
        replacing (etcdClusterHealthCheck (1 * Minute));;
        replacing UpdateProviderIDsToNodes;;
        updateAndUploadKubeadmKubernetesVersion;;
        replacing (updateMachines machines);;
        replacing (forM_ machines removeUpgradeAnnotation)
    end.

End Upgrade.

Arguments UM : clear implicits.

(** As [within], for a method of the upgrade as a whole. *)
Definition uwithin {W A : Type} (R : relation ControlPlaneUpgrader)
  (P : UpgradeEvent -> Prop) (m : UM W A) : Prop :=
  forall s, R (upgrader s) (upgrader (m s).1.2) /\ Forall P (m s).2.

(** The role an event creates, with the error returned. *)
Definition uevent_create_role (ev : UpgradeEvent)
  : option (Role.t * option error) :=
  match ev with
  | UEv c reply =>
      match c in UpgradeCall T return T -> option (Role.t * option error) with
      | TargetCreateRole role => fun reply => Some (role, reply)
      | _ => fun _ => None
      end reply
  end.

(** The role binding an event creates, with the error returned. *)
Definition uevent_create_rolebinding (ev : UpgradeEvent)
  : option (RoleBinding.t * option error) :=
  match ev with
  | UEv c reply =>
      match c in UpgradeCall T
            return T -> option (RoleBinding.t * option error) with
      | TargetCreateRoleBinding binding => fun reply => Some (binding, reply)
      | _ => fun _ => None
      end reply
  end.

(** ** Notions for the upgrade as a whole *)

(** An event that changes the management cluster: it creates, deletes or
    patches an object. *)
Definition changes_management (ev : Event) : bool :=
  match ev with
  | Ev c _ =>
      match c with
      | MgmtCreateObject _ | MgmtCreateMachine _ | MgmtCreateKubeadmConfig _
      | MgmtDeleteMachine _ | PatchMachine _ _ | PatchSecret _ _ => true
      | _ => false
      end
  end.

(** An event that runs a command in a pod with first argument [member],
    as the removal of an etcd member does. *)
Definition removes_member (ev : Event) : bool :=
  match event_exec ev with
  | Some (_, input, _) =>
      match exec_Command input with
      | _ :: _ :: _ :: arg :: _ => String.eqb arg "member"
      | _ => false
      end
  | None => false
  end.

Definition disruptive (ev : Event) : bool :=
  changes_management ev || removes_member ev.

(** The event of the replacement of the Machines that an event of the
    upgrade wraps. *)
Definition replaced_event (ev : UpgradeEvent) : option Event :=
  match ev with
  | UEv c reply =>
      match c in UpgradeCall T return T -> option Event with
      | Replacing c' => fun reply => Some (Ev c' reply)
      | _ => fun _ => None
      end reply
  end.

Definition udisruptive (ev : UpgradeEvent) : bool :=
  match replaced_event ev with
  | Some ev' => disruptive ev'
  | None => false
  end.

(** An event that reads or creates what gives the kubelets of a new minor
    version their configuration: a kubelet configmap, or the role and
    role binding that open it to them. *)
Definition kubelet_access (ev : UpgradeEvent) : bool :=
  match ev with
  | UEv c _ =>
      match c with
      | Replacing c' =>
          match c' with
          | TargetGetConfigMap name => negb (String.eqb name "kubeadm-config")
          | TargetCreateConfigMap _ => true
          | _ => false
          end
      | TargetGetRole _ | TargetCreateRole _
      | TargetGetRoleBinding _ | TargetCreateRoleBinding _ => true
      | _ => false
      end
  end.

(** The etcd cluster answered a health check in the trace [t]: a pod ran
    [endpoint health] without error. *)
Definition health_checked (t : list UpgradeEvent) : Prop :=
  exists pod endpoints stdout stderr,
    In (UEv (Replacing
               (PodExec (1 * Minute)
                  (etcdctlForPod_opts pod
                     ["endpoint health --endpoints"; endpoints])))
          (stdout, stderr, None)) t.

(** The nodes were listed in [t]. *)
Definition nodes_listed (t : list UpgradeEvent) : Prop :=
  exists items, In (UEv (Replacing TargetListNodes) (inr items)) t.

(** The kubeadm configmap was updated in [t], without error. *)
Definition kubeadm_updated (t : list UpgradeEvent) : Prop :=
  exists cm, In (UEv (TargetUpdateConfigMap cm) None) t.

(** The calls by which the last loop of [Upgrade] removes the upgrade-id
    annotation from the replacements of Machines, when every call
    succeeds: for each Machine a read of the Machine that goes by its
    replacement name, a patch helper, and the patch without the
    annotation. *)
Definition annotation_events (upgradeID : string)
  (replaced : list (Machine.t * Machine.t)) : list Event :=
  replaced ≫= (fun x =>
    match generateReplacementMachineName (Machine.Name x.1) upgradeID with
    | Some replacementName =>
        [Ev (MgmtGetMachine {| key_Namespace := Machine.Namespace x.1;
                               key_Name := replacementName |}) (inr x.2);
         Ev (PatchNewHelperMachine x.2) None;
         Ev (PatchMachine x.2
               (Machine_delete_annotation AnnotationUpgradeID x.2)) None]
    | None => []
    end).

(** The desired version of the run: the one the user gave, or the
    greatest version of the control plane when the user's is the zero
    version. *)
Definition resolvedVersion (u : ControlPlaneUpgrader) (max : semver.Version)
  : semver.Version :=
  if semver.EQ unsetVersion (userVersion u) then max else desiredVersion u.

Section UpgradeParts.

Context {W : Type} `{!UpgradeCluster W} `{!Memory W}.
Context `{!Libraries} `{!YAML} `{!Semver}.

(** [Upgrade] up to and including the update of the kubeadm configmap,
    with the Machines it listed. *)
Definition prepareUpgrade : UM W (list Machine.t) :=
  machines ← listMachines;
  if (length machines =? 0)%nat
  then ufail (Errorf "Found 0 control plane machines" [])
  else
    let '(min, max, err) :=
      minMaxControlPlaneVersions semver_ParseTolerant machines in
    match err with
    | Some err =>
        ufail (Wrapf err "error determining current control plane versions" [])
    | None =>
        u ← uget_u;
        (if semver.EQ unsetVersion (userVersion u)
         then umodify_u (set_desiredVersion max)
         else mret tt);;
        u ← uget_u;
        (if isMinorVersionUpgrade min (desiredVersion u) then
           replacing (updateKubeletConfigMapIfNeeded (desiredVersion u));;
           updateKubeletRbacIfNeeded (desiredVersion u)
         else mret tt);;
        replacing (etcdClusterHealthCheck (1 * Minute));;
        replacing UpdateProviderIDsToNodes;;
        updateAndUploadKubeadmKubernetesVersion;;
        mret machines
    end.

(** The rest of [Upgrade]: the replacement of the Machines and the
    removal of the upgrade-id annotations. *)
Definition finishUpgrade (machines : list Machine.t) : UM W unit :=
  replacing (updateMachines machines);;
  replacing (forM_ machines removeUpgradeAnnotation).

End UpgradeParts.

(** An event that reads or creates a configmap of the target cluster. *)
Definition configmap_event (ev : Event) : bool :=
  match ev with
  | Ev c _ =>
      match c with
      | TargetGetConfigMap _ | TargetCreateConfigMap _ => true
      | _ => false
      end
  end.

(** Two upgraders of one run: with the same upgrade-id. *)
Definition same_run : relation ControlPlaneUpgrader :=
  fun u u' => upgradeID u' = upgradeID u.

Section UpgradeParts2.

Context {W : Type} `{!UpgradeCluster W} `{!Memory W}.
Context `{!Libraries} `{!YAML} `{!Semver}.

(** The steps of [Upgrade] between the kubelet configuration and the
    replacement of the Machines. *)
Definition checkAndRecord (machines : list Machine.t)
  : UM W (list Machine.t) :=
  replacing (etcdClusterHealthCheck (1 * Minute));;
  replacing UpdateProviderIDsToNodes;;
  updateAndUploadKubeadmKubernetesVersion;;
  mret machines.

End UpgradeParts2.

(** ** An environment for examples of the whole upgrade *)

Module UpgradeExample.

(** A world that answers each call by a fixed function of the call and
    holds the maps of its configmaps. *)
Record World := {
  answers : forall T, UpgradeCall T -> T;
  maps : MapStore
}.

#[global] Instance cluster : UpgradeCluster World :=
  fun T c w => (answers w T c, w).

#[global] Instance world_memory : Memory World :=
  {| heap := maps;
     set_heap h w := {| answers := answers w; maps := h |} |}.

#[global] Instance numeric_semver : Semver := NumericVersions.ParseTolerant.

(** A Machine that is being deleted. *)
Definition leaving : MachineListItem :=
  {| item_Machine := machine_with_version "cp-9" (Some "v1.15.0");
     item_DeletionTimestamp := Some (63713000000, 0) |}.

(** The cluster of [Example.rolling], which also has the kubeadm
    configmap, lists the control-plane Machine [cp-0] and a Machine that
    is being deleted, and has no role for the kubelet configmap of a new
    minor version yet, but a role binding. *)
Definition rolling : forall T, UpgradeCall T -> T := fun T c =>
  match c in UpgradeCall T return T with
  | Replacing c' =>
      match c' in Call T return T with
      | TargetGetConfigMap name =>
          if String.eqb name "kubeadm-config"
          then (Example.kubeadm_config, None)
          else Example.rolling _ (TargetGetConfigMap name)
      | c' => Example.rolling _ c'
      end
  | MgmtListMachines _ _ =>
      inr [{| item_Machine := Example.cp0; item_DeletionTimestamp := None |};
           leaving]
  | TargetGetRole _ => Some Example.notFound
  | TargetCreateRole _ => None
  | TargetGetRoleBinding _ => None
  | TargetCreateRoleBinding _ => None
  | TargetUpdateConfigMap _ => None
  end.

(** The upgrader of a run with upgrade-id 100 towards v1.17.0, as
    [NewControlPlaneUpgrader] returns it. *)
Definition upgrader_117 : ControlPlaneUpgrader :=
  {| userVersion := NumericVersions.version 1 17 0;
     desiredVersion := NumericVersions.version 1 17 0;
     clusterNamespace := "default";
     clusterName := "test";
     providerIDsToNodes := ∅;
     imageField := "";
     imageID := "";
     upgradeID := "100";
     oldNodeToEtcdMember := ∅;
     secretsUpdated := false |}.

Definition start : State World :=
  {| upgrader := upgrader_117;
     world := {| answers := rolling; maps := Example.kubeadm_store |} |}.

End UpgradeExample.

(** The configmap an event of the upgrade sends as an update, with the
    error returned. *)
Definition uevent_update_configmap (ev : UpgradeEvent)
  : option (ConfigMap.t * option error) :=
  match ev with
  | UEv c reply =>
      match c in UpgradeCall T return T -> option (ConfigMap.t * option error)
      with
      | TargetUpdateConfigMap cm => fun reply => Some (cm, reply)
      | _ => fun _ => None
      end reply
  end.

(** The Machines of a listing that are not being deleted. *)
Definition liveMachines (items : list MachineListItem) : list Machine.t :=
  item_Machine
    <$> List.filter (fun m => Time_IsZero (item_DeletionTimestamp m)) items.

(** The configmap an event creates, with the error returned. *)
Definition event_create_configmap (ev : Event)
  : option (ConfigMap.t * option error) :=
  match ev with
  | Ev c reply =>
      match c in Call T return T -> option (ConfigMap.t * option error) with
      | TargetCreateConfigMap cm => fun reply => Some (cm, reply)
      | _ => fun _ => None
      end reply
  end.
(** * Properties *)

(** ** Go strings *)

Section GoStringFacts.

Lemma len_nonneg s : 0 <= len s.
Proof. unfold len. lia. Qed.

Lemma length_append (a b : string) :
  String.length (a +:+ b) = (String.length a + String.length b)%nat.
Proof. induction a as [|c a IH]; simpl; [reflexivity | now rewrite IH]. Qed.

Lemma len_append a b : len (a +:+ b) = len a + len b.
Proof. unfold len. rewrite length_append. lia. Qed.

Lemma length_substring_0 (k : nat) (s : string) :
  (k <= String.length s)%nat -> String.length (String.substring 0 k s) = k.
Proof.
  revert s. induction k as [|k IH]; intros [|c s] Hk; simpl in *;
    try reflexivity; try lia.
  f_equal. apply IH. lia.
Qed.

Lemma substring_0_append (a b : string) :
  String.substring 0 (String.length a) (a +:+ b) = a.
Proof.
  induction a as [|c a IH]; simpl.
  - destruct b; reflexivity.
  - now rewrite IH.
Qed.

Lemma slice_to_in_range s hi :
  0 <= hi <= len s ->
  exists r, slice_to s hi = Some r /\ len r = hi.
Proof.
  intros [H0 H1]. unfold slice_to.
  replace (0 <=? hi) with true by (symmetry; apply Z.leb_le; lia).
  replace (hi <=? len s) with true by (symmetry; apply Z.leb_le; lia).
  simpl. eexists; split; [reflexivity|].
  unfold len in *. rewrite length_substring_0; lia.
Qed.

Lemma slice_to_len s hi r : slice_to s hi = Some r -> len r = hi.
Proof.
  unfold slice_to. intros H.
  destruct (0 <=? hi) eqn:H0; [|discriminate].
  destruct (hi <=? len s) eqn:H1; [|discriminate].
  apply Z.leb_le in H0, H1. simpl in H. injection H as <-.
  unfold len in *. rewrite length_substring_0; lia.
Qed.

Lemma slice_to_append a b : slice_to (a +:+ b) (len a) = Some a.
Proof.
  unfold slice_to.
  replace (0 <=? len a) with true
    by (symmetry; apply Z.leb_le; apply len_nonneg).
  replace (len a <=? len (a +:+ b)) with true
    by (symmetry; apply Z.leb_le; rewrite len_append;
        pose proof (len_nonneg b); lia).
  simpl. unfold len. rewrite Nat2Z.id. now rewrite substring_0_append.
Qed.

Lemma strip_prefix_append p s rest :
  strip_prefix p s = Some rest -> s = p +:+ rest.
Proof.
  revert s. induction p as [|a p IH]; intros s H; simpl in *.
  - now injection H as ->.
  - destruct s as [|b s]; [discriminate|].
    destruct (Ascii.eqb a b) eqn:E; [|discriminate].
    apply Ascii.eqb_eq in E. subst b.
    change (String a p +:+ rest) with (String a (p +:+ rest)).
    f_equal. now apply IH.
Qed.

Lemma drop_twice n m s : drop n (drop m s) = drop (m + n) s.
Proof.
  revert s. induction m as [|m IH]; intros s; simpl; [reflexivity|].
  destruct s as [|c s]; [destruct n; reflexivity | apply IH].
Qed.

Lemma drop_append_length a b : drop (String.length a) (a +:+ b) = b.
Proof. induction a as [|c a IH]; simpl; [reflexivity | exact IH]. Qed.

(** A byte that is not a digit, at or after offset [k], keeps the tail
    from offset [k] from being all digits. *)
Lemma all_digits_drop_false (k : nat) (a b : string) (c : ascii) :
  is_digit c = false -> (k <= String.length a)%nat ->
  all_digits (drop k (a +:+ String c b)) = false.
Proof.
  intros Hc. revert k. induction a as [|x a IH]; intros k Hk; simpl in *.
  - assert (k = 0%nat) as -> by lia. simpl. now rewrite Hc.
  - destruct k as [|k]; simpl.
    + pose proof (IH 0%nat ltac:(lia)) as H0. simpl in H0.
      rewrite H0. apply andb_false_r.
    + apply IH. lia.
Qed.

End GoStringFacts.

(** ** The upgrade-suffix pattern *)

Section RegexpFacts.

Lemma append_cons (c : ascii) (a b : string) :
  String c a +:+ b = String c (a +:+ b).
Proof. reflexivity. Qed.

Lemma append_nil_l (b : string) : "" +:+ b = b.
Proof. reflexivity. Qed.

Lemma rune_width_bound c rest : (1 <= Regexp.rune_width c rest <= 4)%nat.
Proof. unfold Regexp.rune_width. repeat case_match; lia. Qed.

Lemma any_char_bound s w : Regexp.any_char s = Some w -> (1 <= w <= 4)%nat.
Proof.
  destruct s as [|c rest]; simpl; [discriminate|].
  case_match; [discriminate|]. intros [= <-]. apply rune_width_bound.
Qed.

(** A match reported by the scan lies inside the scanned text. *)
Lemma find_from_range s i a b :
  Regexp.find_from s i = Some (a, b) -> i <= a < i + len s /\ b = i + len s.
Proof.
  revert i. induction s as [|c s IH]; intros i; simpl; [discriminate|].
  assert (len (String c s) = 1 + len s) as Hl by (unfold len; simpl; lia).
  destruct (Regexp.matches_here (String c s)).
  - intros [= <- <-]. pose proof (len_nonneg s). lia.
  - intros H. apply IH in H. lia.
Qed.

(** No match starts inside [x] or at the dot that follows it. *)
Lemma matches_here_before_suffix (x U : string) :
  Regexp.matches_here (x +:+ ".upgrade." +:+ U) = false.
Proof.
  unfold Regexp.matches_here.
  destruct (strip_prefix "upgrade" (x +:+ ".upgrade." +:+ U))
    as [rest|] eqn:Hp; [|reflexivity].
  destruct (Regexp.any_char rest) as [w|] eqn:Hw; [|reflexivity].
  apply any_char_bound in Hw.
  destruct x as [|c1 [|c2 [|c3 x]]].
  - discriminate Hp.
  - rewrite !append_cons, append_nil_l in Hp. cbn [strip_prefix] in Hp.
    destruct (Ascii.eqb "u" c1); [simpl in Hp|]; discriminate Hp.
  - rewrite !append_cons, append_nil_l in Hp. cbn [strip_prefix] in Hp.
    destruct (Ascii.eqb "u" c1); [|discriminate Hp].
    destruct (Ascii.eqb "p" c2); [simpl in Hp|]; discriminate Hp.
  - pose proof (strip_prefix_append _ _ _ Hp) as Hs.
    assert (rest = drop 7 (String c1 (String c2 (String c3 x))
                             +:+ ".upgrade." +:+ U)) as ->.
    { rewrite Hs. reflexivity. }
    cbv zeta. rewrite drop_twice.
    change (String c1 (String c2 (String c3 x)) +:+ ".upgrade." +:+ U)
      with (String c1 (String c2 (String c3 (x +:+ ".upgrade." +:+ U)))).
    replace (x +:+ ".upgrade." +:+ U)
      with ((x +:+ ".upgrade") +:+ String "." U).
    2:{ clear. induction x as [|c x IH]; [reflexivity|].
        rewrite !append_cons. now rewrite IH. }
    rewrite <- !append_cons.
    rewrite all_digits_drop_false; [apply andb_false_r | reflexivity |].
    rewrite !append_cons. simpl. rewrite length_append. simpl. lia.
Qed.

(** In a name that ends with the suffix of a well-formed upgrade-id, the
    leftmost match starts right after the dot that opens that suffix. *)
Lemma find_from_generated (x U : string) (i : Z) :
  upgradeIDInputRegex_MatchString U = true ->
  Regexp.find_from (x +:+ upgradeSuffix U) i
  = Some (i + len x + 1, i + len (x +:+ upgradeSuffix U)).
Proof.
  intros HU. unfold upgradeSuffix. revert i.
  induction x as [|c x IH]; intros i.
  - change ("" +:+ ".upgrade." +:+ U) with (String "." ("upgrade." +:+ U)).
    cbn [Regexp.find_from].
    change (String "." ("upgrade." +:+ U)) with ("" +:+ ".upgrade." +:+ U) at 1.
    rewrite matches_here_before_suffix.
    change ("upgrade." +:+ U) with (String "u" ("pgrade." +:+ U)).
    cbn [Regexp.find_from].
    assert (Regexp.matches_here (String "u" ("pgrade." +:+ U)) = true) as ->.
    { unfold Regexp.matches_here. simpl. exact HU. }
    f_equal. f_equal; unfold len; simpl; lia.
  - rewrite append_cons. cbn [Regexp.find_from].
    rewrite <- append_cons. rewrite matches_here_before_suffix.
    rewrite IH. f_equal. rewrite append_cons.
    f_equal; unfold len; simpl String.length; lia.
Qed.

End RegexpFacts.

(** ** Name generator *)

Section NameGenerator.

(** Whatever the generator returns ends with the upgrade suffix and fits
    in a DNS-1123 subdomain. *)
Lemma generateReplacementMachineName_shape n U r :
  generateReplacementMachineName n U = Some r ->
  exists root, r = root +:+ upgradeSuffix U
               /\ len root + len (upgradeSuffix U) <= 253.
Proof.
  unfold generateReplacementMachineName, DNS1123SubdomainMaxLength.
  cbv zeta.
  destruct (match upgradeIDNameSuffixRegex_FindStringIndex n with
            | Some (m0, _) => slice_to n (m0 - 1)
            | None => Some n
            end) as [mn|]; simpl; [|discriminate].
  destruct (0 <? len mn + len (upgradeSuffix U) - 253) eqn:E.
  - destruct (slice_to mn _) as [t|] eqn:Es; simpl; [|discriminate].
    intros [= <-]. exists t. split; [reflexivity|].
    apply slice_to_len in Es. lia.
  - simpl. intros [= <-]. exists mn. split; [reflexivity|].
    apply Z.ltb_ge in E. lia.
Qed.

(** The generator returns a name when the suffix alone fits and the old
    suffix, if any, does not start the name. *)
Lemma generateReplacementMachineName_returns n U :
  len (upgradeSuffix U) <= 253 ->
  (forall i j, upgradeIDNameSuffixRegex_FindStringIndex n = Some (i, j) ->
               1 <= i) ->
  exists r, generateReplacementMachineName n U = Some r.
Proof.
  intros HU Hm.
  unfold generateReplacementMachineName, DNS1123SubdomainMaxLength.
  cbv zeta.
  assert (exists mn, match upgradeIDNameSuffixRegex_FindStringIndex n with
                     | Some (m0, _) => slice_to n (m0 - 1)
                     | None => Some n
                     end = Some mn) as [mn ->].
  { destruct (upgradeIDNameSuffixRegex_FindStringIndex n) as [[i j]|] eqn:E;
      [|eauto].
    pose proof (Hm _ _ eq_refl).
    apply find_from_range in E.
    destruct (slice_to_in_range n (i - 1)) as (r & -> & _); [lia | eauto]. }
  simpl.
  destruct (0 <? len mn + len (upgradeSuffix U) - 253) eqn:E.
  - apply Z.ltb_lt in E.
    destruct (slice_to_in_range mn
                (len mn - (len mn + len (upgradeSuffix U) - 253)))
      as (r & -> & _); [lia|]. simpl. eauto.
  - simpl. eauto.
Qed.

(** Applying the generator to one of its own results changes nothing. *)
Lemma generateReplacementMachineName_fixpoint n U r :
  upgradeIDInputRegex_MatchString U = true ->
  generateReplacementMachineName n U = Some r ->
  generateReplacementMachineName r U = Some r.
Proof.
  intros HU Hr.
  apply generateReplacementMachineName_shape in Hr as (root & -> & Hlen).
  unfold generateReplacementMachineName, DNS1123SubdomainMaxLength,
    upgradeIDNameSuffixRegex_FindStringIndex.
  cbv zeta. rewrite find_from_generated by exact HU.
  replace (0 + len root + 1 - 1) with (len root) by lia.
  rewrite slice_to_append. simpl.
  replace (0 <? len root + len (upgradeSuffix U) - 253) with false
    by (symmetry; apply Z.ltb_ge; lia).
  reflexivity.
Qed.

Lemma append_inv_tail (a b c : string) : a +:+ c = b +:+ c -> a = b.
Proof.
  revert b. induction a as [|x a IH]; intros [|y b] H;
    rewrite ?append_cons, ?append_nil_l in H.
  - reflexivity.
  - apply (f_equal String.length) in H. cbn [String.length] in H.
    rewrite length_append in H. lia.
  - apply (f_equal String.length) in H. cbn [String.length] in H.
    rewrite length_append in H. lia.
  - injection H as -> H. f_equal. now apply IH.
Qed.

Lemma slice_to_prefix s hi r :
  slice_to s hi = Some r -> exists rest, s = r +:+ rest.
Proof.
  unfold slice_to. destruct (_ && _); [|discriminate]. intros [= <-].
  generalize (Z.to_nat hi) as k. clear hi. intros k. revert s.
  induction k as [|k IH]; intros s.
  - exists s. destruct s; reflexivity.
  - destruct s as [|c s]; [exists ""; reflexivity|].
    destruct (IH s) as [rest Hrest]. exists rest.
    cbn [String.substring]. rewrite append_cons. now rewrite <- Hrest.
Qed.

Example generateReplacementMachineName_plain :
  generateReplacementMachineName "my-machine" "1234"
  = Some "my-machine.upgrade.1234".
Proof. reflexivity. Qed.

Example generateReplacementMachineName_resuffix :
  generateReplacementMachineName "my-machine.upgrade.1234" "5678"
  = Some "my-machine.upgrade.5678".
Proof. reflexivity. Qed.

(** A root of 252 bytes with suffix [.upgrade.1] is cut to 243 bytes. *)
Example generateReplacementMachineName_truncates :
  generateReplacementMachineName (repeat_byte "a" 252) "1"
  = Some (repeat_byte "a" 243 +:+ ".upgrade.1").
Proof. vm_compute. reflexivity. Qed.

(** A name that is nothing but an old suffix tail makes the slice index
    negative: the call panics. *)
Example generateReplacementMachineName_match_at_zero :
  upgradeIDNameSuffixRegex_FindStringIndex "upgrade.1" = Some (0, 9)
  /\ generateReplacementMachineName "upgrade.1" "2" = None.
Proof. split; reflexivity. Qed.

(** C3 (as amended): for every upgrade-id [U] of 1 to 244 digits and every
    original name [n] in which no old suffix tail starts at offset 0,
    [generateReplacementMachineName n U] returns a name [r], and
    [generateReplacementMachineName r U] returns [r] again. *)
Theorem generateReplacementMachineName_idempotent (n U : string) :
  upgradeIDInputRegex_MatchString U = true ->
  len U <= 244 ->
  (forall i j, upgradeIDNameSuffixRegex_FindStringIndex n = Some (i, j) ->
               1 <= i) ->
  exists r, generateReplacementMachineName n U = Some r
            /\ generateReplacementMachineName r U = Some r.
Proof.
  intros HU Hlen Hm.
  destruct (generateReplacementMachineName_returns n U) as [r Hr];
    [unfold upgradeSuffix; rewrite len_append; unfold len at 1; simpl; lia
    | exact Hm |].
  exists r. split; [exact Hr|].
  now apply generateReplacementMachineName_fixpoint with (n := n).
Qed.

Lemma generateReplacementMachineName_idempotent_witness :
  exists r, generateReplacementMachineName "cp-0.upgrade.99" "100" = Some r
            /\ generateReplacementMachineName r "100" = Some r.
Proof.
  apply (generateReplacementMachineName_idempotent "cp-0.upgrade.99" "100").
  - reflexivity.
  - vm_compute. discriminate.
  - intros i j H. vm_compute in H. injection H as <- <-. lia.
Defined.

(** C3 as stated fails: with an upgrade-id of 245 digits the first call
    already panics, so there is no name for the second call to preserve. *)
Lemma generateReplacementMachineName_idempotent_counterexample :
  upgradeIDInputRegex_MatchString long_upgrade_id = true
  /\ ~ (exists r,
          generateReplacementMachineName "cp-0.upgrade.99" long_upgrade_id
          = Some r
          /\ generateReplacementMachineName r long_upgrade_id = Some r).
Proof.
  split; [vm_compute; reflexivity|].
  intros (r & H & _). vm_compute in H. discriminate H.
Qed.

(** C4 (as amended): for every upgrade-id [U] of at most 244 bytes and every
    original name [n] in which no old suffix tail starts at offset 0,
    [generateReplacementMachineName n U] returns a name of at most 253
    bytes: a prefix of [n] followed by the upgrade suffix. *)
Theorem generateReplacementMachineName_length (n U : string) :
  len U <= 244 ->
  (forall i j, upgradeIDNameSuffixRegex_FindStringIndex n = Some (i, j) ->
               1 <= i) ->
  exists r root rest,
    generateReplacementMachineName n U = Some r
    /\ len r <= DNS1123SubdomainMaxLength
    /\ r = root +:+ upgradeSuffix U
    /\ n = root +:+ rest.
Proof.
  intros Hlen Hm.
  destruct (generateReplacementMachineName_returns n U) as [r Hr];
    [unfold upgradeSuffix; rewrite len_append; unfold len at 1; simpl; lia
    | exact Hm |].
  pose proof Hr as Hshape.
  apply generateReplacementMachineName_shape in Hshape as (root & -> & Hfit).
  assert (exists rest, n = root +:+ rest) as [rest Hrest].
  { revert Hr.
    unfold generateReplacementMachineName, DNS1123SubdomainMaxLength.
    cbv zeta.
    destruct (match upgradeIDNameSuffixRegex_FindStringIndex n with
              | Some (m0, _) => slice_to n (m0 - 1)
              | None => Some n
              end) as [mn|] eqn:E1; simpl; [|discriminate].
    assert (exists t, n = mn +:+ t) as [t Ht].
    { destruct (upgradeIDNameSuffixRegex_FindStringIndex n) as [[i j]|].
      - eapply slice_to_prefix, E1.
      - injection E1 as <-. exists "". clear.
        induction n as [|c n IH]; [reflexivity|].
        rewrite append_cons. now rewrite <- IH. }
    destruct (0 <? _).
    - destruct (slice_to mn _) as [u|] eqn:E2; simpl; [|discriminate].
      intros [= Heq]. apply slice_to_prefix in E2 as [t' Ht'].
      apply append_inv_tail in Heq as ->.
      exists (t' +:+ t). rewrite Ht, Ht'. clear.
      induction root as [|c root IH]; [reflexivity|].
      rewrite !append_cons. now rewrite IH.
    - simpl. intros [= Heq].
      apply append_inv_tail in Heq as ->.
      exists t. exact Ht. }
  exists (root +:+ upgradeSuffix U), root, rest.
  repeat split; try assumption.
  rewrite len_append. unfold DNS1123SubdomainMaxLength. lia.
Qed.

Lemma generateReplacementMachineName_length_witness :
  exists r root rest,
    generateReplacementMachineName "cp-0.upgrade.99" "100" = Some r
    /\ len r <= DNS1123SubdomainMaxLength
    /\ r = root +:+ upgradeSuffix "100"
    /\ "cp-0.upgrade.99" = root +:+ rest.
Proof.
  apply (generateReplacementMachineName_length "cp-0.upgrade.99" "100").
  - vm_compute. discriminate.
  - intros i j H. vm_compute in H. injection H as <- <-. lia.
Defined.

(** C4 as stated fails: the suffix of a 245-digit upgrade-id is 254 bytes
    long, no name ending with it fits in 253 bytes, and the call panics
    instead of returning one. *)
Lemma generateReplacementMachineName_length_counterexample :
  upgradeIDInputRegex_MatchString long_upgrade_id = true
  /\ len (upgradeSuffix long_upgrade_id) = 254
  /\ generateReplacementMachineName "cp-0" long_upgrade_id = None
  /\ ~ (exists r, generateReplacementMachineName "cp-0" long_upgrade_id
                  = Some r
                  /\ len r <= DNS1123SubdomainMaxLength).
Proof.
  repeat split; try (vm_compute; reflexivity).
  intros (r & H & _). vm_compute in H. discriminate H.
Qed.

End NameGenerator.

(** ** Order on semantic versions *)

Section Comparisons.

Lemma gc_refl {A} (cmp : A -> A -> comparison) :
  GoodCmp cmp -> forall a, cmp a a = Eq.
Proof.
  intros G a. pose proof (gc_sym cmp G a a) as H.
  destruct (cmp a a); simpl in H; congruence.
Qed.

Lemma gc_eq_r {A} (cmp : A -> A -> comparison) :
  GoodCmp cmp -> forall a b c, cmp b c = Eq -> cmp a b = cmp a c.
Proof.
  intros G a b c H.
  assert (cmp c b = Eq) as Hcb by (rewrite (gc_sym cmp G b c), H; reflexivity).
  pose proof (gc_eq cmp G c b a Hcb) as H1.
  rewrite (gc_sym cmp G a b), (gc_sym cmp G a c) in H1.
  destruct (cmp a b), (cmp a c); simpl in H1; congruence.
Qed.

Lemma gc_trans_gt {A} (cmp : A -> A -> comparison) :
  GoodCmp cmp ->
  forall a b c, cmp a b = Gt -> cmp b c = Gt -> cmp a c = Gt.
Proof.
  intros G a b c H1 H2.
  assert (cmp c b = Lt) as H3 by (rewrite (gc_sym cmp G b c), H2; reflexivity).
  assert (cmp b a = Lt) as H4 by (rewrite (gc_sym cmp G a b), H1; reflexivity).
  pose proof (gc_trans cmp G c b a H3 H4) as H5.
  rewrite (gc_sym cmp G c a), H5. reflexivity.
Qed.

Lemma good_Z : GoodCmp Z.compare.
Proof.
  split.
  - intros a b. apply Z.compare_antisym.
  - intros a b c H1 H2. rewrite Z.compare_lt_iff in *. lia.
  - intros a b c H. apply Z.compare_eq in H. now subst.
Qed.

Lemma byte_val_inj x y : byte_val x = byte_val y -> x = y.
Proof.
  unfold byte_val. intros H.
  rewrite <- (ascii_N_embedding x), <- (ascii_N_embedding y). now rewrite H.
Qed.

Lemma string_compare_eq a b : semver.string_compare a b = Eq <-> a = b.
Proof.
  revert b. induction a as [|x a IH]; intros [|y b]; simpl;
    try (split; [discriminate | discriminate]); [tauto|].
  destruct (byte_val x ?= byte_val y)%N eqn:E.
  - apply N.compare_eq in E. apply byte_val_inj in E. subst y.
    rewrite IH. split; [now intros -> | now intros [= ->]].
  - split; [discriminate|]. intros [= -> _].
    rewrite N.compare_refl in E. discriminate.
  - split; [discriminate|]. intros [= -> _].
    rewrite N.compare_refl in E. discriminate.
Qed.

Lemma good_string : GoodCmp semver.string_compare.
Proof.
  split.
  - intros a. induction a as [|x a IH]; intros [|y b]; simpl; try reflexivity.
    rewrite (N.compare_antisym (byte_val x) (byte_val y)).
    destruct (byte_val x ?= byte_val y)%N; simpl; auto.
  - intros a. induction a as [|x a IH]; intros [|y b] [|z c]; simpl;
      try discriminate; try reflexivity.
    destruct (byte_val x ?= byte_val y)%N eqn:E1;
      destruct (byte_val y ?= byte_val z)%N eqn:E2; try discriminate.
    + apply N.compare_eq in E1, E2. rewrite E1, E2, N.compare_refl.
      apply IH.
    + apply N.compare_eq in E1. rewrite E1, E2. reflexivity.
    + apply N.compare_eq in E2. rewrite <- E2, E1. reflexivity.
    + intros _ _. rewrite N.compare_lt_iff in E1, E2.
      assert ((byte_val x ?= byte_val z)%N = Lt) as ->
          by (apply N.compare_lt_iff; lia).
      reflexivity.
  - intros a b c H. apply string_compare_eq in H. now subst.
Qed.

Lemma sgn_inj c d : sgn c = sgn d -> c = d.
Proof. destruct c, d; simpl; intros H; try reflexivity; lia. Qed.

Lemma PRVersion_Compare_sgn v o :
  semver.PRVersion_Compare v o = sgn (pr_cmp v o).
Proof.
  unfold semver.PRVersion_Compare, pr_cmp.
  destruct (semver.IsNum v), (semver.IsNum o); simpl; try reflexivity.
  - rewrite Z.gtb_ltb.
    destruct (Z.compare_spec (semver.VersionNum v) (semver.VersionNum o)).
    + replace (_ =? _) with true by (symmetry; apply Z.eqb_eq; lia).
      reflexivity.
    + replace (_ =? _) with false by (symmetry; apply Z.eqb_neq; lia).
      replace (_ <? _) with false by (symmetry; apply Z.ltb_ge; lia).
      reflexivity.
    + replace (_ =? _) with false by (symmetry; apply Z.eqb_neq; lia).
      replace (_ <? _) with true by (symmetry; apply Z.ltb_lt; lia).
      reflexivity.
  - destruct (String.eqb_spec (semver.VersionStr v) (semver.VersionStr o))
      as [->|Hne].
    + now rewrite (gc_refl _ good_string).
    + destruct (semver.string_compare _ _) eqn:E; try reflexivity.
      apply string_compare_eq in E. contradiction.
Qed.

Lemma good_pr : GoodCmp pr_cmp.
Proof.
  split.
  - intros a b. unfold pr_cmp.
    destruct (semver.IsNum a), (semver.IsNum b); simpl; try reflexivity.
    + apply Z.compare_antisym.
    + apply (gc_sym _ good_string).
  - intros a b c. unfold pr_cmp.
    destruct (semver.IsNum a), (semver.IsNum b), (semver.IsNum c);
      try discriminate; try reflexivity.
    + apply (gc_trans _ good_Z).
    + apply (gc_trans _ good_string).
  - intros a b c. unfold pr_cmp.
    destruct (semver.IsNum a), (semver.IsNum b), (semver.IsNum c);
      try discriminate; try reflexivity.
    + apply (gc_eq _ good_Z).
    + apply (gc_eq _ good_string).
Qed.

Lemma Pre_Compare_sgn v o : semver.Pre_Compare v o = sgn (pre_cmp v o).
Proof.
  revert o. induction v as [|x v IH]; intros [|y o]; simpl; try reflexivity.
  rewrite PRVersion_Compare_sgn.
  destruct (pr_cmp x y); simpl; [apply IH | reflexivity | reflexivity].
Qed.

Lemma good_pre : GoodCmp pre_cmp.
Proof.
  split.
  - intros a. induction a as [|x a IH]; intros [|y b]; simpl; try reflexivity.
    rewrite (gc_sym _ good_pr x y).
    destruct (pr_cmp x y); simpl; auto.
  - intros a. induction a as [|x a IH]; intros [|y b] [|z c]; simpl;
      try discriminate; try reflexivity.
    destruct (pr_cmp x y) eqn:E1; destruct (pr_cmp y z) eqn:E2;
      try discriminate.
    + rewrite <- (gc_eq _ good_pr x y z E1), E2. apply IH.
    + rewrite <- (gc_eq _ good_pr x y z E1), E2. reflexivity.
    + rewrite <- (gc_eq_r _ good_pr x y z E2), E1. reflexivity.
    + rewrite (gc_trans _ good_pr x y z E1 E2). reflexivity.
  - intros a. induction a as [|x a IH]; intros [|y b] [|z c]; simpl;
      intros H; try discriminate H; try reflexivity.
    destruct (pr_cmp x y) eqn:E1; try discriminate.
    rewrite (gc_eq _ good_pr x y z E1).
    destruct (pr_cmp x z); try reflexivity. now apply IH.
Qed.

Lemma good_pre_top : GoodCmp pre_top.
Proof.
  split.
  - intros [|x a] [|y b]; try reflexivity.
    apply (gc_sym _ good_pre).
  - intros [|x a] [|y b] [|z c]; try discriminate; try reflexivity.
    apply (gc_trans _ good_pre).
  - intros [|x a] [|y b] [|z c]; try discriminate; try reflexivity.
    apply (gc_eq _ good_pre).
Qed.

Lemma good_lex {A} (cmp1 cmp2 : A -> A -> comparison) :
  GoodCmp cmp1 -> GoodCmp cmp2 ->
  GoodCmp (fun x y => lexc (cmp1 x y) (cmp2 x y)).
Proof.
  intros G1 G2. split.
  - intros a b. rewrite (gc_sym _ G1 a b), (gc_sym _ G2 a b).
    destruct (cmp1 a b); reflexivity.
  - intros a b c. unfold lexc.
    destruct (cmp1 a b) eqn:E1; destruct (cmp1 b c) eqn:E2;
      try discriminate.
    + rewrite <- (gc_eq _ G1 a b c E1), E2. apply (gc_trans _ G2).
    + rewrite <- (gc_eq _ G1 a b c E1), E2. reflexivity.
    + rewrite <- (gc_eq_r _ G1 a b c E2), E1. reflexivity.
    + rewrite (gc_trans _ G1 a b c E1 E2). reflexivity.
  - intros a b c. unfold lexc.
    destruct (cmp1 a b) eqn:E1; try discriminate.
    intros H. rewrite (gc_eq _ G1 a b c E1), (gc_eq _ G2 a b c H).
    reflexivity.
Qed.

Lemma good_on {A B} (f : B -> A) (cmp : A -> A -> comparison) :
  GoodCmp cmp -> GoodCmp (fun x y => cmp (f x) (f y)).
Proof.
  intros G. split; intros.
  - apply (gc_sym _ G).
  - eapply (gc_trans _ G); eassumption.
  - now apply (gc_eq _ G).
Qed.

Lemma good_version : GoodCmp version_cmp.
Proof.
  unfold version_cmp.
  apply (good_lex (fun v o => semver.Major v ?= semver.Major o));
    [apply (good_on semver.Major), good_Z|].
  apply (good_lex (fun v o => semver.Minor v ?= semver.Minor o));
    [apply (good_on semver.Minor), good_Z|].
  apply (good_lex (fun v o => semver.Patch v ?= semver.Patch o));
    [apply (good_on semver.Patch), good_Z|].
  apply (good_on semver.Pre), good_pre_top.
Qed.

Lemma field_cmp_sgn (a b : Z) (rest : Z) (c : comparison) :
  rest = sgn c ->
  (if negb (a =? b) then if a >? b then 1 else -1 else rest)
  = sgn (lexc (a ?= b) c).
Proof.
  intros ->. rewrite Z.gtb_ltb.
  destruct (Z.compare_spec a b).
  - replace (_ =? _) with true by (symmetry; apply Z.eqb_eq; lia).
    reflexivity.
  - replace (_ =? _) with false by (symmetry; apply Z.eqb_neq; lia).
    replace (_ <? _) with false by (symmetry; apply Z.ltb_ge; lia).
    reflexivity.
  - replace (_ =? _) with false by (symmetry; apply Z.eqb_neq; lia).
    replace (_ <? _) with true by (symmetry; apply Z.ltb_lt; lia).
    reflexivity.
Qed.

Lemma Compare_sgn v o : semver.Compare v o = sgn (version_cmp v o).
Proof.
  unfold semver.Compare, version_cmp.
  apply field_cmp_sgn, field_cmp_sgn, field_cmp_sgn.
  unfold pre_top.
  destruct (semver.Pre v), (semver.Pre o); try reflexivity.
  apply Pre_Compare_sgn.
Qed.

Lemma Compare_refl v : semver.Compare v v = 0.
Proof. rewrite Compare_sgn, (gc_refl _ good_version). reflexivity. Qed.

Lemma Compare_range v o :
  semver.Compare v o = -1 \/ semver.Compare v o = 0 \/ semver.Compare v o = 1.
Proof. rewrite Compare_sgn. destruct (version_cmp v o); simpl; auto. Qed.

Lemma Compare_sym v o : semver.Compare o v = - semver.Compare v o.
Proof.
  rewrite !Compare_sgn, (gc_sym _ good_version v o).
  destruct (version_cmp v o); reflexivity.
Qed.

Lemma Compare_lt_trans a b c :
  semver.Compare a b = -1 -> semver.Compare b c = -1 ->
  semver.Compare a c = -1.
Proof.
  rewrite !Compare_sgn. intros H1 H2.
  apply (sgn_inj _ Lt) in H1, H2.
  now rewrite (gc_trans _ good_version a b c H1 H2).
Qed.

Lemma Compare_lt_le_trans a b c :
  semver.Compare a b = -1 -> semver.Compare b c <= 0 ->
  semver.Compare a c = -1.
Proof.
  intros H1 H2. destruct (Compare_range b c) as [H|[H|H]]; [| |lia].
  - now apply Compare_lt_trans with b.
  - rewrite Compare_sgn in *. apply (sgn_inj _ Lt) in H1.
    apply (sgn_inj _ Eq) in H.
    now rewrite <- (gc_eq_r _ good_version a b c H), H1.
Qed.

End Comparisons.

(** ** Version resolution *)

Section VersionResolutionFacts.

Variable ParseTolerant : string -> error + semver.Version.

Local Abbreviation minMax_loop := (minMax_loop ParseTolerant).
Local Abbreviation minMax := (minMaxControlPlaneVersions ParseTolerant).
Local Abbreviation parsedVersions := (parsedVersions ParseTolerant).

Lemma Compare_le_lt_trans a b c :
  semver.Compare a b <= 0 -> semver.Compare b c = -1 ->
  semver.Compare a c = -1.
Proof.
  intros H1 H2.
  destruct (Compare_range a b) as [H|[H|H]]; [| |lia].
  - now apply Compare_lt_trans with b.
  - rewrite Compare_sgn in *.
    apply (sgn_inj _ Eq) in H. apply (sgn_inj _ Lt) in H2.
    now rewrite <- (gc_eq _ good_version a b c H), H2.
Qed.

Lemma resolved_step seen min max v :
  Forall (fun w => semver.EQ w unsetVersion = false) seen ->
  resolved seen min max ->
  resolved (seen ++ [v])
    (if semver.EQ min unsetVersion || semver.LT v min then v else min)
    (if semver.EQ max unsetVersion || semver.GT v max then v else max).
Proof.
  intros Hnz [(-> & -> & ->)|(Hmin & Hmax & Hall)].
  - unfold semver.EQ, unsetVersion. rewrite Compare_refl. simpl.
    right. repeat split; try (left; reflexivity);
      destruct H as [<-|[]]; rewrite Compare_refl; lia.
  - rewrite List.Forall_forall in Hnz.
    rewrite (Hnz min Hmin), (Hnz max Hmax). simpl.
    right. unfold semver.LT, semver.GT.
    assert (In v (seen ++ [v])) as Hv by (apply in_or_app; right; left; auto).
    assert (forall w, In w seen -> In w (seen ++ [v])) as Hin
        by (intros; apply in_or_app; auto).
    split; [|split].
    + destruct (_ =? -1); auto.
    + destruct (_ =? 1); auto.
    + intros w Hw. apply in_app_or in Hw as [Hw|[<-|[]]].
      * destruct (Hall w Hw) as [H1 H2]. split.
        -- destruct (semver.Compare v min =? -1) eqn:E; [|exact H1].
           apply Z.eqb_eq in E.
           rewrite (Compare_lt_le_trans v min w); [lia | exact E | exact H1].
        -- destruct (semver.Compare v max =? 1) eqn:E; [|exact H2].
           apply Z.eqb_eq in E.
           rewrite (Compare_le_lt_trans w max v);
             [lia | exact H2 | rewrite Compare_sym; lia].
      * split.
        -- destruct (semver.Compare v min =? -1) eqn:E.
           ++ rewrite Compare_refl. lia.
           ++ apply Z.eqb_neq in E. rewrite Compare_sym.
              destruct (Compare_range v min) as [H|[H|H]]; lia.
        -- destruct (semver.Compare v max =? 1) eqn:E.
           ++ rewrite Compare_refl. lia.
           ++ apply Z.eqb_neq in E.
              destruct (Compare_range v max) as [H|[H|H]]; lia.
Qed.

Lemma minMax_loop_resolved machines :
  forall vs seen min max,
    parsedVersions machines = Some vs ->
    Forall (fun w => semver.EQ w unsetVersion = false) (seen ++ vs) ->
    resolved seen min max ->
    exists min' max',
      minMax_loop machines min max = (min', max', None)
      /\ resolved (seen ++ vs) min' max'.
Proof.
  induction machines as [|m rest IH]; intros vs seen min max Hp Hnz Hres;
    simpl in *.
  - injection Hp as <-. rewrite app_nil_r. eauto.
  - destruct (Machine.Version (Machine.Spec m)) as [version|];
      [|discriminate].
    destruct (String.eqb version ""); simpl.
    + now apply IH.
    + destruct (ParseTolerant version) as [e|v]; [discriminate|].
      destruct (parsedVersions rest) as [vs'|] eqn:E; [|discriminate].
      injection Hp as <-.
      replace (seen ++ v :: vs') with ((seen ++ [v]) ++ vs') in *
        by (rewrite <- app_assoc; reflexivity).
      apply (IH vs' (seen ++ [v])); [reflexivity | exact Hnz |].
      apply resolved_step; [|exact Hres].
      apply Forall_app in Hnz as [Hnz _].
      apply Forall_app in Hnz as [Hnz _]. exact Hnz.
Qed.

Lemma minMax_loop_nil_version machines :
  forall min max,
    (exists m, In m machines /\ Machine.Version (Machine.Spec m) = None) ->
    exists e, (minMax_loop machines min max).2 = Some e.
Proof.
  induction machines as [|m rest IH]; intros min max (m0 & Hin & Hnil).
  - destruct Hin.
  - simpl. destruct (Machine.Version (Machine.Spec m)) as [version|] eqn:E.
    + assert (exists m1, In m1 rest
                         /\ Machine.Version (Machine.Spec m1) = None) as Hrest.
      { destruct Hin as [->|Hin]; [congruence | eauto]. }
      destruct (negb (String.eqb version "")); [|now apply IH].
      destruct (ParseTolerant version); [simpl; eauto | now apply IH].
    + simpl. eauto.
Qed.

Lemma minMax_loop_skips_empty pre m post :
  Machine.Version (Machine.Spec m) = Some "" ->
  forall min max,
    minMax_loop (pre ++ m :: post) min max = minMax_loop (pre ++ post) min max.
Proof.
  intros Hm. induction pre as [|p pre IH]; intros min max; simpl.
  - rewrite Hm. reflexivity.
  - destruct (Machine.Version (Machine.Spec p)) as [version|]; [|reflexivity].
    destruct (negb (String.eqb version "")); [|apply IH].
    destruct (ParseTolerant version); [reflexivity | apply IH].
Qed.

(** C8 (as amended): [minMaxControlPlaneVersions] returns an error if any
    Machine has a nil [spec.version]; a Machine whose [spec.version] is the
    empty string can be removed from the list without changing the result;
    and when every other [spec.version] parses and none of the parsed
    versions compares equal to the zero version, the call returns no error
    and [min] and [max] are a least and a greatest of the parsed versions
    (both the zero version when there is none). *)
Theorem minMaxControlPlaneVersions_resolution (machines : list Machine.t) :
  ((exists m, In m machines /\ Machine.Version (Machine.Spec m) = None) ->
   exists e, (minMax machines).2 = Some e)
  /\ (forall pre m post,
        machines = pre ++ m :: post ->
        Machine.Version (Machine.Spec m) = Some "" ->
        minMax machines = minMax (pre ++ post))
  /\ (forall vs,
        parsedVersions machines = Some vs ->
        Forall (fun v => semver.EQ v unsetVersion = false) vs ->
        exists min max,
          minMax machines = (min, max, None)
          /\ (vs = [] -> min = semver.zero /\ max = semver.zero)
          /\ (vs <> [] ->
              In min vs /\ In max vs
              /\ forall v, In v vs ->
                           semver.Compare min v <= 0
                           /\ semver.Compare v max <= 0)).
Proof.
  split; [|split].
  - apply minMax_loop_nil_version.
  - intros pre m post -> Hm. now apply minMax_loop_skips_empty.
  - intros vs Hp Hnz.
    destruct (minMax_loop_resolved machines vs [] semver.zero semver.zero)
      as (min & max & Hrun & Hres); [exact Hp | exact Hnz | left; auto |].
    exists min, max. split; [exact Hrun|]. simpl in Hres.
    destruct Hres as [(-> & -> & ->)|Hres].
    + split; [auto | congruence].
    + split; [|auto]. intros ->. destruct Hres as [[] _].
Qed.

End VersionResolutionFacts.

Example minMaxControlPlaneVersions_three_machines :
  minMaxControlPlaneVersions NumericVersions.ParseTolerant
    [machine_with_version "cp-0" (Some "v1.16.3");
     machine_with_version "cp-1" (Some "");
     machine_with_version "cp-2" (Some "1.17.0")]
  = (NumericVersions.version 1 16 3, NumericVersions.version 1 17 0, None).
Proof. reflexivity. Qed.

Lemma minMaxControlPlaneVersions_resolution_witness :
  exists min max,
    minMaxControlPlaneVersions NumericVersions.ParseTolerant
      [machine_with_version "cp-0" (Some "v1.16.3");
       machine_with_version "cp-1" (Some "");
       machine_with_version "cp-2" (Some "1.17.0")]
    = (min, max, None)
    /\ ([NumericVersions.version 1 16 3; NumericVersions.version 1 17 0] = []
        -> min = semver.zero /\ max = semver.zero)
    /\ ([NumericVersions.version 1 16 3; NumericVersions.version 1 17 0] <> []
        -> In min [NumericVersions.version 1 16 3;
                   NumericVersions.version 1 17 0]
           /\ In max [NumericVersions.version 1 16 3;
                      NumericVersions.version 1 17 0]
           /\ forall v,
               In v [NumericVersions.version 1 16 3;
                     NumericVersions.version 1 17 0] ->
               semver.Compare min v <= 0 /\ semver.Compare v max <= 0).
Proof.
  apply (proj2 (proj2 (minMaxControlPlaneVersions_resolution
                         NumericVersions.ParseTolerant _))).
  - reflexivity.
  - repeat constructor.
Defined.

(** C8 as stated fails: a Machine at version 0.0.0 is taken for "not set
    yet", so the next Machine's version replaces it as [min] although it
    is the greater one; and a [spec.version] that does not parse ends the
    resolution with an error, whatever the other Machines hold. *)
Lemma minMaxControlPlaneVersions_resolution_counterexample :
  let machines := [machine_with_version "cp-0" (Some "0.0.0");
                   machine_with_version "cp-1" (Some "1.2.3")] in
  let others := [machine_with_version "cp-0" (Some "one.two");
                 machine_with_version "cp-1" (Some "1.2.3")] in
  parsedVersions NumericVersions.ParseTolerant machines
  = Some [NumericVersions.version 0 0 0; NumericVersions.version 1 2 3]
  /\ minMaxControlPlaneVersions NumericVersions.ParseTolerant machines
     = (NumericVersions.version 1 2 3, NumericVersions.version 1 2 3, None)
  /\ semver.LT (NumericVersions.version 0 0 0) (NumericVersions.version 1 2 3)
     = true
  /\ minMaxControlPlaneVersions NumericVersions.ParseTolerant others
     = (semver.zero, semver.zero,
        Some (Wrapf (Errorf "Invalid version %q" ["one.two"])
                "invalid control plane version %q for machine %s/%s"
                ["one.two"; "default"; "cp-0"])).
Proof. repeat split. Qed.

(** ** Running a method *)

Section UpgraderFacts.

Context {W : Type} `{!Cluster W} `{!Libraries}.

Lemma bind_run {A B} (m : M W A) (f : A -> M W B) (s : State W) :
  (m ≫= f) s
  = match m s return result B * State W * list Event with
    | (Ok a, s', t) => let '(r, s'', t') := f a s' in (r, s'', t ++ t')
    | (Err e, s', t) => (Err e, s', t)
    | (Panic, s', t) => (Panic, s', t)
    end.
Proof. reflexivity. Qed.

Lemma ret_run {A} (a : A) (s : State W) : (mret a : M W A) s = (Ok a, s, []).
Proof. reflexivity. Qed.

Lemma call_run {T} (c : Call T) (s : State W) :
  call c s
  = (Ok (perform T c (world s)).1,
     {| upgrader := upgrader s; world := (perform T c (world s)).2 |},
     [Ev c (perform T c (world s)).1]).
Proof. unfold call. destruct (perform T c (world s)); reflexivity. Qed.

Lemma get_u_run (s : State W) : get_u s = (Ok (upgrader s), s, []).
Proof. reflexivity. Qed.

(** ** Existence probe *)

(** C7: [resourceExists ref] performs one get of the object [ref] names;
    it returns [true] exactly when that get returns the object, [false]
    without error when the get fails with a not-found error, and the
    error (with a stack) when the get fails with any other error. *)
Theorem resourceExists_get (ref : ObjectReference) (s : State W) :
  let key := {| key_Namespace := ref_Namespace ref;
                key_Name := ref_Name ref |} in
  let get := MgmtGetObject (ref_APIVersion ref) (ref_Kind ref) key in
  let reply := perform _ get (world s) in
  resourceExists ref s
  = (match reply.1 with
     | inr _ => Ok true
     | inl err => if IsNotFound err then Ok false else Err (WithStack err)
     end,
     {| upgrader := upgrader s; world := reply.2 |},
     [Ev get reply.1])
  /\ ((resourceExists ref s).1.1 = Ok true <-> exists obj, reply.1 = inr obj).
Proof.
  cbv zeta. unfold resourceExists. rewrite bind_run, call_run.
  destruct (perform _ _ (world s)) as [[err|obj] w]; simpl.
  - destruct (IsNotFound err); simpl.
    + split; [reflexivity|]. split; [discriminate | intros [? [=]]].
    + split; [reflexivity|]. split; [discriminate | intros [? [=]]].
  - split; [reflexivity|]. split; eauto.
Qed.

(** ** Etcdctl commands *)

Lemma etcdctlForPod_opts_command (pod : Pod.t) (args : list string) :
  exec_Command (etcdctlForPod_opts pod args)
  = ["sh"; "-c";
     Join (["ETCDCTL_API=3"; "etcdctl";
            "--cacert"; etcdCACertFile;
            "--cert"; etcdCertFile;
            "--key"; etcdKeyFile;
            "--endpoints"; "https://" +:+ Pod.PodIP pod +:+ ":2379"] ++ args)
       " "]
    ++ args.
Proof. reflexivity. Qed.

(** ** Kubelet configmap *)

Lemma kubeletConfigMapName_minor_wraps (major : Z) :
  kubeletConfigMapName major (uint64_sub 0 1)
  = "kubelet-config-" +:+ format_uint major +:+ ".18446744073709551615".
Proof. reflexivity. Qed.

(** C9 (as amended): called with a version whose Minor is 0 while the
    desired configmap kubelet-config-M.0 does not exist,
    [updateKubeletConfigMapIfNeeded] looks two configmaps up: the desired
    one and kubelet-config-M.18446744073709551615, the unsigned minor
    having wrapped around. *)
Theorem updateKubeletConfigMapIfNeeded_minor_zero
  (version : semver.Version) (s : State W) (err : error) :
  semver.Minor version = 0 ->
  (perform _ (TargetGetConfigMap
                (kubeletConfigMapName (semver.Major version) 0))
     (world s)).1.2 = Some err ->
  IsNotFound err = true ->
  omap event_get_configmap (updateKubeletConfigMapIfNeeded version s).2
  = [kubeletConfigMapName (semver.Major version) 0;
     "kubelet-config-" +:+ format_uint (semver.Major version)
     +:+ ".18446744073709551615"].
Proof.
  intros Hminor Hget Hnf. unfold updateKubeletConfigMapIfNeeded.
  rewrite Hminor, kubeletConfigMapName_minor_wraps.
  rewrite bind_run, call_run. simpl. rewrite Hget, Hnf. simpl.
  rewrite bind_run, call_run.
  match goal with |- context [perform _ ?c ?w] =>
    destruct (perform _ c w) as [[cm [e|]] w'] end; simpl.
  - destruct (IsNotFound e); simpl; [reflexivity|].
    rewrite bind_run, call_run. simpl.
    match goal with |- context [perform _ ?c ?w] =>
      destruct (perform _ c w) as [[e'|] w''] end; simpl;
      [destruct (IsAlreadyExists e')|]; reflexivity.
  - rewrite bind_run, call_run. simpl.
    match goal with |- context [perform _ ?c ?w] =>
      destruct (perform _ c w) as [[e'|] w''] end; simpl;
      [destruct (IsAlreadyExists e')|]; reflexivity.
Qed.

(** C10: when the desired kubelet configmap does not exist and reading
    the previous-minor one fails with an error that is not a not-found
    error, [updateKubeletConfigMapIfNeeded] goes on to create the desired
    configmap from the object that read returned, and what it returns
    depends on that creation alone: the read error is dropped. *)
Theorem updateKubeletConfigMapIfNeeded_drops_read_error
  (version : semver.Version) (s : State W) (err1 err2 : error) :
  let desired :=
    kubeletConfigMapName (semver.Major version) (semver.Minor version) in
  let previous :=
    kubeletConfigMapName (semver.Major version)
      (uint64_sub (semver.Minor version) 1) in
  let get1 := perform _ (TargetGetConfigMap desired) (world s) in
  let get2 := perform _ (TargetGetConfigMap previous) get1.2 in
  let cm := {| ConfigMap.Namespace := ConfigMap.Namespace get2.1.1;
               ConfigMap.Name := desired;
               ConfigMap.ResourceVersion := "";
               ConfigMap.Data := ConfigMap.Data get2.1.1 |} in
  let create := perform _ (TargetCreateConfigMap cm) get2.2 in
  get1.1.2 = Some err1 -> IsNotFound err1 = true ->
  get2.1.2 = Some err2 -> IsNotFound err2 = false ->
  updateKubeletConfigMapIfNeeded version s
  = (match create.1 with
     | None => Ok tt
     | Some err =>
         if IsAlreadyExists err then Ok tt
         else Err (Wrapf err "error creating configmap %s" [desired])
     end,
     {| upgrader := upgrader s; world := create.2 |},
     [Ev (TargetGetConfigMap desired) get1.1;
      Ev (TargetGetConfigMap previous) get2.1;
      Ev (TargetCreateConfigMap cm) create.1]).
Proof.
  cbv zeta. intros H1 Hnf1 H2 Hnf2. unfold updateKubeletConfigMapIfNeeded.
  rewrite bind_run, call_run. simpl. rewrite H1, Hnf1. simpl.
  rewrite bind_run, call_run. simpl. rewrite H2, Hnf2. simpl.
  rewrite bind_run, call_run. simpl.
  match goal with |- context [perform _ ?c ?w] =>
    destruct (perform _ c w) as [[e'|] w''] end; simpl;
    [destruct (IsAlreadyExists e')|]; reflexivity.
Qed.

End UpgraderFacts.

(** C2, at the arguments of a member removal: the exec request holds them
    twice, once inside the shell command and once more as trailing
    arguments of [sh]. *)
Theorem etcdctlForPod_opts_repeats_args :
  exec_Command
    (etcdctlForPod_opts Example.etcd_pod ["member"; "remove"; "8e9e05c52164694d"])
  = ["sh"; "-c";
     "ETCDCTL_API=3 etcdctl --cacert /etc/kubernetes/pki/etcd/ca.crt --cert /etc/kubernetes/pki/etcd/peer.crt --key /etc/kubernetes/pki/etcd/peer.key --endpoints https://10.0.0.10:2379 member remove 8e9e05c52164694d";
     "member"; "remove"; "8e9e05c52164694d"]
  /\ omap event_exec
       (deleteEtcdMember (1 * Minute) "8e9e05c52164694d"
          (Example.start Example.rolling)).2
     = [(1 * Minute,
         etcdctlForPod_opts Example.etcd_pod
           ["member"; "remove"; "8e9e05c52164694d"],
         None)].
Proof. split; vm_compute; reflexivity. Qed.

Lemma updateKubeletConfigMapIfNeeded_minor_zero_witness :
  omap event_get_configmap
    (updateKubeletConfigMapIfNeeded (NumericVersions.version 1 0 0)
       (Example.start Example.rolling)).2
  = [kubeletConfigMapName 1 0;
     "kubelet-config-" +:+ format_uint 1 +:+ ".18446744073709551615"].
Proof.
  apply (updateKubeletConfigMapIfNeeded_minor_zero
           (NumericVersions.version 1 0 0) (Example.start Example.rolling)
           Example.notFound); reflexivity.
Defined.

(** C9 as stated fails: for version 1.0.0 the second lookup is by the name
    kubelet-config-1.18446744073709551615; no lookup is by
    kubelet-config-1.-1. *)
Lemma updateKubeletConfigMapIfNeeded_minor_zero_counterexample :
  omap event_get_configmap
    (updateKubeletConfigMapIfNeeded (NumericVersions.version 1 0 0)
       (Example.start Example.rolling)).2
  = ["kubelet-config-1.0"; "kubelet-config-1.18446744073709551615"]
  /\ ~ In "kubelet-config-1.-1"
       (omap event_get_configmap
          (updateKubeletConfigMapIfNeeded (NumericVersions.version 1 0 0)
             (Example.start Example.rolling)).2).
Proof.
  split; [vm_compute; reflexivity|].
  vm_compute. intros [H|[H|[]]]; discriminate H.
Qed.

Lemma updateKubeletConfigMapIfNeeded_drops_read_error_witness :
  updateKubeletConfigMapIfNeeded (NumericVersions.version 1 17 0)
    (Example.start Example.flaky_configmaps)
  = (Ok tt, Example.start Example.flaky_configmaps,
     [Ev (TargetGetConfigMap "kubelet-config-1.17")
        (ConfigMap.empty, Some Example.notFound);
      Ev (TargetGetConfigMap "kubelet-config-1.16")
        (ConfigMap.empty, Some Example.internalError);
      Ev (TargetCreateConfigMap
            {| ConfigMap.Namespace := "";
               ConfigMap.Name := "kubelet-config-1.17";
               ConfigMap.ResourceVersion := "";
               ConfigMap.Data := None |})
        None]).
Proof.
  pose proof (updateKubeletConfigMapIfNeeded_drops_read_error
                (NumericVersions.version 1 17 0)
                (Example.start Example.flaky_configmaps)
                Example.notFound Example.internalError
                eq_refl eq_refl eq_refl eq_refl) as H.
  vm_compute in H |- *. exact H.
Defined.

(** ** The upgrade-id annotation *)

Section AnnotationFacts.

Context {W : Type} `{!Cluster W} `{!Libraries}.

(** C5: in the loop body of [updateMachines]: a Machine with a provider
    id whose upgrade-id annotation is absent or empty is patched with the
    annotation set to the run's upgrade-id and, the patch made, goes on
    to the replacement steps carrying that annotation; a Machine whose
    annotation is present and differs from the run's upgrade-id ends the
    body at once, with no operation performed and the state as it was. *)
Theorem updateMachines_body_upgrade_id (machine : Machine.t) (s : State W) :
  let u := upgrader s in
  let annotations := default ∅ (Machine.Annotations machine) in
  let machine0 := Machine_with_annotations annotations machine in
  let annotated :=
    Machine_with_annotations
      (<[AnnotationUpgradeID := upgradeID u]> annotations) machine0 in
  let helper := perform _ (PatchNewHelperMachine machine0) (world s) in
  let patch := perform _ (PatchMachine machine0 annotated) helper.2 in
  (Machine.ProviderID (Machine.Spec machine) <> None ->
   map_get annotations AnnotationUpgradeID = "" ->
   helper.1 = None -> patch.1 = None ->
   Machine.Annotations annotated
   = Some (<[AnnotationUpgradeID := upgradeID u]> annotations)
   /\ updateMachines_body machine s
      = (let '(r, s', t) :=
           replaceMachine annotated {| upgrader := u; world := patch.2 |} in
         (r, s',
          [Ev (PatchNewHelperMachine machine0) None;
           Ev (PatchMachine machine0 annotated) None] ++ t)))
  /\ (map_get annotations AnnotationUpgradeID <> "" ->
      map_get annotations AnnotationUpgradeID <> upgradeID u ->
      updateMachines_body machine s = (Ok tt, s, [])).
Proof.
  cbv zeta. split.
  - intros Hpid Hempty Hhelper Hpatch.
    destruct (Machine.ProviderID (Machine.Spec machine)) as [pid|] eqn:Epid;
      [clear Hpid | contradiction].
    split; [reflexivity|].
    unfold updateMachines_body. rewrite bind_run, get_u_run. cbv zeta.
    rewrite Epid, Hempty, String.eqb_refl.
    rewrite bind_run, call_run. rewrite Hhelper. cbv iota zeta beta.
    rewrite bind_run, call_run. cbn [world upgrader]. rewrite Hpatch.
    cbv iota zeta beta.
    unfold processMachine at 1. rewrite bind_run, get_u_run.
    cbn [world upgrader Machine.Annotations Machine_with_annotations default
         from_option id].
    unfold map_get at 1. rewrite lookup_insert_eq. cbn [default from_option id].
    rewrite String.eqb_refl. cbn [negb].
    destruct (replaceMachine _ _) as [[r s'] t]. reflexivity.
  - intros Hne Hmis.
    unfold updateMachines_body. rewrite bind_run, get_u_run. cbv zeta.
    destruct (Machine.ProviderID (Machine.Spec machine)) as [pid|];
      [|destruct s; reflexivity].
    apply String.eqb_neq in Hne. rewrite Hne.
    unfold processMachine. rewrite bind_run, get_u_run.
    cbn [world upgrader Machine.Annotations Machine_with_annotations default
         from_option id].
    apply String.eqb_neq in Hmis. rewrite Hmis. simpl.
    destruct s; reflexivity.
Qed.

End AnnotationFacts.

Lemma updateMachines_body_upgrade_id_witness :
  (Machine.Annotations
     (Machine_with_annotations {[ AnnotationUpgradeID := "100" ]} Example.cp0)
   = Some (<[AnnotationUpgradeID := "100"]> ∅)
   /\ (updateMachines_body Example.cp0 (Example.start Example.rolling)).1.1
      = Ok tt
   /\ omap event_create_machine
        (updateMachines_body Example.cp0 (Example.start Example.rolling)).2
      = omap event_create_machine
          (replaceMachine
             (Machine_with_annotations {[ AnnotationUpgradeID := "100" ]}
                Example.cp0)
             (Example.start Example.rolling)).2)
  /\ updateMachines_body Example.cp0_of_run_99 (Example.start Example.rolling)
     = (Ok tt, Example.start Example.rolling, []).
Proof.
  split.
  - destruct (updateMachines_body_upgrade_id Example.cp0
                (Example.start Example.rolling)) as [H _].
    destruct H as [H1 H2]; [discriminate | reflexivity..|].
    split; [vm_compute; reflexivity|]. rewrite H2. clear H1 H2.
    vm_compute. split; reflexivity.
  - apply (updateMachines_body_upgrade_id Example.cp0_of_run_99
             (Example.start Example.rolling)); discriminate.
Defined.

(** The skipped Machine leaves no trace in a run over both Machines: one
    replacement is created, for [cp-0] of the current run. *)
Example updateMachines_skips_other_run :
  let '(r, _, t) :=
    updateMachines [Example.cp0_of_run_99; Example.cp0]
      (Example.start Example.rolling) in
  r = Ok tt
  /\ Machine.Name <$> omap event_create_machine t = ["cp-0.upgrade.100"].
Proof. vm_compute. split; reflexivity. Qed.

(** ** Kubeadm configmap *)

Section KubeadmFacts.

Context `{!YAML}.

(** C6: for a configmap whose [data.ClusterConfiguration] decodes to a
    mapping, and a codec that reads back the updated mapping from its own
    encoding of it, [updateKubeadmKubernetesVersion] returns a configmap
    whose [ClusterConfiguration] decodes to a mapping with
    [kubernetesVersion] equal to the version given and every other key as
    in the input; the returned configmap has a data map of its own, and
    the input configmap and every map of the store are left as they
    were. *)
Theorem updateKubeadmKubernetesVersion_frame
  (original : ConfigMap.t) (version : string) (h : MapStore)
  (l : positive) (data : gmap string string) (text updated : string)
  (clusterConfig : gmap string Value) :
  ConfigMap.Data original = Some l ->
  h !! l = Some data ->
  data !! "ClusterConfiguration" = Some text ->
  yaml_Unmarshal text = inr clusterConfig ->
  yaml_Marshal (<["kubernetesVersion" := VString version]> clusterConfig)
  = inr updated ->
  yaml_Unmarshal updated
  = inr (<["kubernetesVersion" := VString version]> clusterConfig) ->
  exists cm l' h' data' text' clusterConfig',
    updateKubeadmKubernetesVersion original version h = (Ok cm, h')
    /\ ConfigMap.Data cm = Some l'
    /\ h' !! l' = Some data'
    /\ data' !! "ClusterConfiguration" = Some text'
    /\ yaml_Unmarshal text' = inr clusterConfig'
    /\ clusterConfig' !! "kubernetesVersion" = Some (VString version)
    /\ (forall k, k <> "kubernetesVersion" ->
                  clusterConfig' !! k = clusterConfig !! k)
    /\ (forall k, k <> "ClusterConfiguration" -> data' !! k = data !! k)
    /\ l' <> l
    /\ h' !! l = Some data
    /\ (forall l0, l0 <> l' -> h' !! l0 = h !! l0).
Proof.
  intros Hdata Hl Htext Hdec Henc Hround.
  set (l' := fresh (dom h)).
  assert (h !! l' = None) as Hfresh.
  { apply not_elem_of_dom. apply is_fresh. }
  assert (l' <> l) as Hne by congruence.
  exists {| ConfigMap.Namespace := ConfigMap.Namespace original;
            ConfigMap.Name := ConfigMap.Name original;
            ConfigMap.ResourceVersion := ConfigMap.ResourceVersion original;
            ConfigMap.Data := Some l' |},
    l', (<[l' := <["ClusterConfiguration" := updated]> data]> (<[l' := data]> h)),
    (<["ClusterConfiguration" := updated]> data), updated,
    (<["kubernetesVersion" := VString version]> clusterConfig).
  split; [|repeat split].
  - unfold updateKubeadmKubernetesVersion, ConfigMap_DeepCopy.
    rewrite Hdata, Hl. fold l'. simpl default.
    unfold ConfigMap_data. cbn [ConfigMap.Data]. cbv iota beta.
    rewrite lookup_insert_eq. cbn [default from_option id].
    unfold map_get. rewrite Htext. cbn [default from_option id].
    rewrite Hdec, Henc. reflexivity.
  - apply lookup_insert_eq.
  - apply lookup_insert_eq.
  - exact Hround.
  - apply lookup_insert_eq.
  - intros k Hk. now apply lookup_insert_ne.
  - intros k Hk. now apply lookup_insert_ne.
  - exact Hne.
  - rewrite !lookup_insert_ne by exact Hne. exact Hl.
  - intros l0 Hl0. rewrite !lookup_insert_ne by congruence. reflexivity.
Qed.

End KubeadmFacts.

Lemma updateKubeadmKubernetesVersion_frame_witness :
  exists cm l' h' data' text' clusterConfig',
    updateKubeadmKubernetesVersion Example.kubeadm_config "v1.17.0"
      Example.kubeadm_store
    = (Ok cm, h')
    /\ ConfigMap.Data cm = Some l'
    /\ h' !! l' = Some data'
    /\ data' !! "ClusterConfiguration" = Some text'
    /\ yaml_Unmarshal text' = inr clusterConfig'
    /\ clusterConfig' !! "kubernetesVersion" = Some (VString "v1.17.0")
    /\ (forall k, k <> "kubernetesVersion" ->
                  clusterConfig' !! k
                  = Example.clusterConfiguration "v1.16.3" !! k)
    /\ (forall k, k <> "ClusterConfiguration" ->
                  data' !! k
                  = ({[ "ClusterConfiguration" :=
                          Example.clusterConfiguration_text "v1.16.3";
                        "ClusterStatus" := "apiEndpoints: {}" ]}
                     : gmap string string) !! k)
    /\ l' <> 1%positive
    /\ h' !! 1%positive
       = Some {[ "ClusterConfiguration" :=
                   Example.clusterConfiguration_text "v1.16.3";
                 "ClusterStatus" := "apiEndpoints: {}" ]}
    /\ (forall l0, l0 <> l' -> h' !! l0 = Example.kubeadm_store !! l0).
Proof.
  apply (updateKubeadmKubernetesVersion_frame
           Example.kubeadm_config "v1.17.0" Example.kubeadm_store 1%positive
           _ (Example.clusterConfiguration_text "v1.16.3")
           (Example.clusterConfiguration_text "v1.17.0"));
    vm_compute; reflexivity.
Defined.

(** ** Order of the operations of [updateMachine] *)

Section OrderFacts.

Context {W : Type} `{!Cluster W} `{!Libraries}.

Lemma bind_inv {A B} (m : M W A) (f : A -> M W B) s r s' t :
  (m ≫= f) s = (r, s', t) ->
  (exists a s1 t1 t2,
      m s = (Ok a, s1, t1) /\ f a s1 = (r, s', t2) /\ t = t1 ++ t2)
  \/ (exists r0, m s = (r0, s', t) /\ (forall a, r0 <> Ok a)
                 /\ (forall b, r <> Ok b)).
Proof.
  rewrite bind_run. destruct (m s) as [[[a|e|] s1] t1].
  - destruct (f a s1) as [[r2 s2] t2] eqn:E. intros [= <- <- <-].
    left. eauto 10.
  - intros [= <- <- <-]. right. exists (Err e). repeat split; discriminate.
  - intros [= <- <- <-]. right. exists Panic. repeat split; discriminate.
Qed.

Lemma calm_ret {A} (a : A) : calm (mret a : M W A).
Proof. intros s r s' t [= <- <- <-]. auto. Qed.

Lemma calm_fail {A} (e : error) : calm (fail e : M W A).
Proof. intros s r s' t [= <- <- <-]. auto. Qed.

Lemma calm_panic {A} : calm (panic : M W A).
Proof. intros s r s' t [= <- <- <-]. auto. Qed.

Lemma calm_get_u : calm (get_u : M W _).
Proof. intros s r s' t [= <- <- <-]. auto. Qed.

Lemma calm_call {T} (c : Call T) :
  (forall reply, quiet (Ev c reply) = true) -> calm (call c).
Proof.
  intros Hq s r s' t. rewrite call_run. intros [= <- <- <-].
  split; [reflexivity|]. constructor; [apply Hq | constructor].
Qed.

Lemma calm_set_providerIDsToNodes pairs :
  calm (modify_u (set_providerIDsToNodes pairs) : M W _).
Proof. intros s r s' t [= <- <- <-]. auto. Qed.

Lemma calm_bind {A B} (m : M W A) (f : A -> M W B) :
  calm m -> (forall a, calm (f a)) -> calm (m ≫= f).
Proof.
  intros Hm Hf s r s' t Hrun.
  apply bind_inv in Hrun as [(a & s1 & t1 & t2 & H1 & H2 & ->)|(r0 & H1 & _)].
  - apply Hm in H1 as [E1 F1]. apply Hf in H2 as [E2 F2].
    split; [congruence | now apply Forall_app].
  - now apply Hm in H1.
Qed.

Lemma calm_wrapf {A} (m : M W A) format args :
  calm m -> calm (wrapf m format args).
Proof.
  intros Hm s r s' t. unfold wrapf.
  destruct (m s) as [[[a|e|] s1] t1] eqn:E; intros [= <- <- <-];
    now apply Hm in E.
Qed.

Lemma calm_poll_loop {A} tries (condition : M W (option A)) :
  calm condition -> calm (poll_loop tries condition).
Proof.
  intros Hc. induction tries as [|n IH]; simpl.
  - apply calm_fail.
  - apply calm_bind; [exact Hc|]. intros [a|]; [apply calm_ret | exact IH].
Qed.

Lemma calm_PollImmediate {A} interval timeout (condition : M W (option A)) :
  calm condition -> calm (PollImmediate interval timeout condition).
Proof.
  intros Hc. unfold PollImmediate.
  apply calm_bind; [exact Hc|]. intros [a|]; [apply calm_ret|].
  apply calm_bind; [apply calm_call; reflexivity|].
  intros ticks. now apply calm_poll_loop.
Qed.

Ltac calm_step :=
  first
    [ apply calm_ret | apply calm_fail | apply calm_panic | apply calm_get_u
    | apply calm_set_providerIDsToNodes
    | apply calm_call; reflexivity
    | apply calm_wrapf | apply calm_PollImmediate
    | apply calm_bind; [|intros ?]
    | match goal with
      | |- calm (match ?x with _ => _ end) => destruct x
      | |- calm (if ?b then _ else _) => destruct b
      end ].

Ltac calm_auto := repeat calm_step.

Lemma calm_resourceExists ref : calm (resourceExists ref).
Proof. unfold resourceExists. calm_auto. Qed.

Lemma calm_waitForProviderID ns name timeout :
  calm (waitForProviderID ns name timeout).
Proof. unfold waitForProviderID. calm_auto. Qed.

Lemma calm_waitForMatchingNode rawProviderID timeout :
  calm (waitForMatchingNode rawProviderID timeout).
Proof. unfold waitForMatchingNode. calm_auto. Qed.

Lemma calm_isReady nodeHostname : calm (isReady nodeHostname).
Proof.
  unfold isReady. induction components as [|c rest IH]; simpl.
  - apply calm_ret.
  - calm_auto. exact IH.
Qed.

Lemma calm_waitForNodeReady newNode timeout :
  calm (waitForNodeReady newNode timeout).
Proof.
  unfold waitForNodeReady.
  destruct (String.eqb _ _); [apply calm_fail|].
  apply calm_wrapf, calm_PollImmediate, calm_bind; [apply calm_isReady|].
  intros []; apply calm_ret.
Qed.

Lemma calm_UpdateProviderIDsToNodes : calm UpdateProviderIDsToNodes.
Proof. unfold UpdateProviderIDsToNodes. calm_auto. Qed.

Lemma quiet_prefix (ta tb t1 t2 : list Event) (ev : Event) :
  Forall (fun e => quiet e = true) ta -> quiet ev = false ->
  ta ++ tb = t1 ++ ev :: t2 ->
  exists t1', t1 = ta ++ t1' /\ tb = t1' ++ ev :: t2.
Proof.
  intros Hq Hev. revert t1.
  induction Hq as [|x ta Hx _ IH]; intros t1 Heq; simpl in *.
  - eauto.
  - destruct t1 as [|y t1]; simpl in Heq.
    + injection Heq as -> _. congruence.
    + injection Heq as -> Heq. apply IH in Heq as (t1' & -> & ->). eauto.
Qed.

(** In [m ≫= f] with [m] calm, an event that is not quiet is one of [f]'s,
    and [m] has returned before it. *)
Lemma calm_bind_split {A B} (m : M W A) (f : A -> M W B) s r s' t t1 ev t2 :
  calm m -> (m ≫= f) s = (r, s', t) -> t = t1 ++ ev :: t2 ->
  quiet ev = false ->
  exists a s1 ta t1' tb,
    m s = (Ok a, s1, ta)
    /\ oldNodeToEtcdMember (upgrader s1) = oldNodeToEtcdMember (upgrader s)
    /\ f a s1 = (r, s', tb)
    /\ t1 = ta ++ t1' /\ tb = t1' ++ ev :: t2.
Proof.
  intros Hm Hrun Ht Hev.
  apply bind_inv in Hrun as [(a & s1 & ta & tb & H1 & H2 & Heq)|(r0 & H1 & _)].
  - pose proof (Hm _ _ _ _ H1) as [E1 F1].
    rewrite Ht in Heq. symmetry in Heq.
    apply quiet_prefix in Heq as (t1' & -> & ->); [|assumption..].
    exists a, s1, ta, t1', (t1' ++ ev :: t2). auto.
  - apply Hm in H1 as [_ F1]. rewrite Ht in F1.
    apply Forall_app in F1 as [_ F1]. inversion F1; congruence.
Qed.

Lemma etcdctl_loop_trace ctx args pods :
  forall last s r s' t,
    etcdctl_loop ctx pods args last s = (r, s', t) ->
    upgrader s' = upgrader s
    /\ Forall (etcdctl_event ctx args) t
    /\ ((exists a, r = Ok a) ->
        Exists (etcdctl_success ctx args) t \/ last.2 = None).
Proof.
  induction pods as [|pod rest IH]; intros last s r s' t; simpl.
  - destruct last as [[so se] [e|]]; intros [= <- <- <-]; simpl.
    + repeat split; [constructor|]. intros [a [=]].
    + repeat split; [constructor|]. auto.
  - rewrite bind_run. unfold etcdctlForPod. rewrite call_run.
    destruct (perform _ _ (world s)) as [[[so se] [e|]] w]; simpl.
    + destruct (etcdctl_loop ctx rest args (so, se, Some e) _)
        as [[r2 s2] t2] eqn:E.
      intros [= <- <- <-]. apply IH in E as (Eu & F & S).
      split; [exact Eu|]. split.
      * constructor; [|exact F]. split; [reflexivity|].
        intros ? ? ? [= <- <- <-]. eauto.
      * intros Hok. destruct (S Hok) as [Hex|[=]].
        left. now apply Exists_cons_tl.
    + intros [= <- <- <-]. repeat split.
      * constructor; [|constructor]. split; [reflexivity|].
        intros ? ? ? [= <- <- <-]. eauto.
      * intros _. left. constructor. exists pod. reflexivity.
Qed.

Lemma etcdctl_trace ctx args s r s' t :
  etcdctl ctx args s = (r, s', t) ->
  upgrader s' = upgrader s
  /\ Forall (etcdctl_event ctx args) t
  /\ ((exists a, r = Ok a) -> Exists (etcdctl_success ctx args) t).
Proof.
  unfold etcdctl, listEtcdPods. rewrite !bind_run, call_run.
  destruct (perform _ _ (world s)) as [[e|pods] w]; simpl.
  - intros [= <- <- <-]. repeat split.
    + constructor; [|constructor]. split; [reflexivity | discriminate].
    + intros [a [=]].
  - destruct pods as [|pod rest].
    + simpl. intros [= <- <- <-]. repeat split.
      * constructor; [|constructor]. split; [reflexivity | discriminate].
      * intros [a [=]].
    + destruct (etcdctl_loop ctx (pod :: rest) args ("", "", None) _)
        as [[r2 s2] t2] eqn:E.
      intros [= <- <- <-]. pose proof E as E'.
      apply etcdctl_loop_trace in E as (Eu & F & S).
      split; [exact Eu|]. split.
      * constructor; [|exact F]. split; [reflexivity | discriminate].
      * intros Hok. apply Exists_cons_tl.
        destruct (S Hok) as [Hex|_]; [exact Hex|].
        (* the first pod was tried: a success is in the trace *)
        clear S F. simpl in E'. rewrite bind_run in E'.
        unfold etcdctlForPod in E'. rewrite call_run in E'.
        destruct (perform _ _ _) as [[[so se] [e|]] w'] in E'; simpl in E'.
        -- destruct (etcdctl_loop ctx rest args (so, se, Some e) _)
             as [[r3 s3] t3] eqn:E3.
           injection E' as <- <- <-.
           apply etcdctl_loop_trace in E3 as (_ & _ & S3).
           destruct (S3 Hok) as [Hex|[=]]. now apply Exists_cons_tl.
        -- injection E' as <- <- <-. constructor. exists pod. reflexivity.
Qed.

Lemma map_get_lookup (m : gmap string string) (k : string) :
  map_get m k <> "" -> m !! k = Some (map_get m k).
Proof. unfold map_get. destruct (m !! k); simpl; congruence. Qed.

(** What [removeAndDelete] performs: commands that remove the member the
    snapshot has for the old hostname, and a deletion of the old Machine
    that comes after a successful one of them, or after the snapshot
    turned out to have no member. *)
Lemma removeAndDelete_trace oldHostName machine s r s' t :
  removeAndDelete oldHostName machine s = (r, s', t) ->
  forall t1 ev t2, t = t1 ++ ev :: t2 ->
    let id := map_get (oldNodeToEtcdMember (upgrader s)) oldHostName in
    (forall timeout input err,
        event_exec ev = Some (timeout, input, err) ->
        id <> "" /\ timeout = 1 * Minute
        /\ exists pod,
            input = etcdctlForPod_opts pod ["member"; "remove"; id])
    /\ (forall m err,
          event_delete ev = Some (m, err) ->
          m = machine
          /\ (id = ""
              \/ Exists (etcdctl_success (1 * Minute) ["member"; "remove"; id])
                   t1)).
Proof.
  unfold removeAndDelete. rewrite bind_run, get_u_run. cbv zeta.
  set (id := map_get (oldNodeToEtcdMember (upgrader s)) oldHostName).
  destruct (String.eqb_spec id "") as [Hid|Hid]; simpl negb; cbv iota.
  - rewrite bind_run, ret_run, bind_run, call_run.
    destruct (perform _ _ (world s)) as [[e|] w]; simpl;
      intros [= <- <- <-] t1 ev t2 Ht;
      (destruct t1 as [|x [|y t1]]; [|discriminate..]);
      injection Ht as <-; (split; [discriminate|]);
      intros m err [= <- <-]; auto.
  - rewrite bind_run. unfold wrapf, deleteEtcdMember. rewrite bind_run.
    destruct (etcdctl (1 * Minute) ["member"; "remove"; id] s)
      as [[[out|e|] s1] tr] eqn:E; simpl;
      apply etcdctl_trace in E as (Eu & F & S).
    + rewrite bind_run, call_run.
      assert (Exists (etcdctl_success (1 * Minute) ["member"; "remove"; id])
                tr) as Hex by eauto.
      destruct (perform _ _ (world s1)) as [[e|] w]; simpl;
        intros [= <- <- <-] t1 ev t2 Ht;
        simpl in Ht; rewrite ?app_nil_r in Ht.
      all: assert (In ev tr
                   \/ (t1 = tr /\ t2 = []
                       /\ exists reply,
                           ev = Ev (MgmtDeleteMachine machine) reply)) as Hcase.
      all: try (clear - Ht; revert t1 Ht;
                induction tr as [|x tr IH]; intros t1 Ht; simpl in *;
                [ destruct t1 as [|y [|z t1]]; [|discriminate..];
                  injection Ht as <-; right; eauto
                | destruct t1 as [|y t1]; simpl in Ht;
                  [ injection Ht as -> _; left; left; reflexivity
                  | injection Ht as -> Ht;
                    destruct (IH _ Ht) as [Hin|(-> & -> & Hev)];
                    [left; right; exact Hin | right; eauto] ] ]).
      all: destruct Hcase as [Hin|(-> & -> & reply & ->)].
      all: try (rewrite List.Forall_forall in F; destruct (F ev Hin) as [Hd He];
                split; [intros ? ? ? Hx; destruct (He _ _ _ Hx); auto
                       | intros ? ? Hx; congruence]).
      all: split; [discriminate | intros ? ? [= <- <-]; auto].
    + intros [= <- <- <-] t1 ev t2 Ht. simpl in Ht; rewrite ?app_nil_r in Ht.
      assert (In ev tr) as Hin by (rewrite Ht; apply in_elt).
      rewrite List.Forall_forall in F. destruct (F ev Hin) as [Hd He].
      split; [intros ? ? ? Hx; destruct (He _ _ _ Hx); auto
             | intros ? ? Hx; congruence].
    + intros [= <- <- <-] t1 ev t2 Ht. simpl in Ht; rewrite ?app_nil_r in Ht.
      assert (In ev tr) as Hin by (rewrite Ht; apply in_elt).
      rewrite List.Forall_forall in F. destruct (F ev Hin) as [Hd He].
      split; [intros ? ? ? Hx; destruct (He _ _ _ Hx); auto
             | intros ? ? Hx; congruence].
Qed.

Lemma poll_loop_ok {A} tries (condition : M W (option A)) :
  forall s a s' t,
    poll_loop tries condition s = (Ok a, s', t) ->
    exists sc t0 t1, t = t0 ++ t1 /\ condition sc = (Ok (Some a), s', t1).
Proof.
  induction tries as [|n IH]; intros s a s' t; simpl.
  - discriminate.
  - intros Hrun.
    apply bind_inv in Hrun
        as [(done & s1 & t1 & t2 & H1 & H2 & ->)|(r0 & _ & _ & Hno)];
      [|now destruct (Hno a)].
    destruct done as [a'|].
    + injection H2 as <- <- <-. exists s, [], t1.
      rewrite app_nil_r. auto.
    + apply IH in H2 as (sc & t0 & t3 & -> & Hc).
      exists sc, (t1 ++ t0), t3. rewrite app_assoc. auto.
Qed.

Lemma PollImmediate_ok {A} interval timeout (condition : M W (option A)) :
  forall s a s' t,
    PollImmediate interval timeout condition s = (Ok a, s', t) ->
    exists sc t0 t1, t = t0 ++ t1 /\ condition sc = (Ok (Some a), s', t1).
Proof.
  intros s a s' t Hrun. unfold PollImmediate in Hrun.
  apply bind_inv in Hrun
      as [(done & s1 & t1 & t2 & H1 & H2 & ->)|(r0 & _ & _ & Hno)];
    [|now destruct (Hno a)].
  destruct done as [a'|].
  - injection H2 as <- <- <-. exists s, [], t1. rewrite app_nil_r. auto.
  - apply bind_inv in H2
        as [(ticks & s2 & t3 & t4 & H3 & H4 & ->)|(r0 & _ & _ & Hno)];
      [|now destruct (Hno a)].
    apply poll_loop_ok in H4 as (sc & t0 & t5 & -> & Hc).
    exists sc, (t1 ++ t3 ++ t0), t5. rewrite <- !app_assoc. auto.
Qed.

(** A wait for readiness that returned without error ended with a
    readiness check that returned true. *)
Lemma waitForNodeReady_ok newNode timeout s s' t :
  waitForNodeReady newNode timeout s = (Ok tt, s', t) ->
  exists sc tr0 tr1,
    t = tr0 ++ tr1 /\ isReady (hostnameForNode newNode) sc = (Ok true, s', tr1).
Proof.
  unfold waitForNodeReady. destruct (String.eqb _ _); [discriminate|].
  unfold wrapf.
  destruct (PollImmediate _ _ _ s) as [[[u|e|] s1] t1] eqn:E;
    intros Heq; try discriminate Heq.
  destruct u. injection Heq as <- <-.
  apply PollImmediate_ok in E as (sc & t0 & t2 & -> & Hc).
  apply bind_inv in Hc
      as [(ready & s2 & t3 & t4 & H1 & H2 & ->)|(r0 & _ & _ & Hno)];
    [|now destruct (Hno (Some tt))].
  destruct ready; [|discriminate].
  injection H2 as <- <-. exists sc, t0, t3. rewrite app_nil_r. auto.
Qed.

(** An operation of [updateMachine] that is not quiet belongs to its last
    part, which runs once the replacement's provider id and node were
    seen and the node was found ready. *)
Lemma updateMachine_reaches_removal replacementKey machine s r s' t t1 ev t2 :
  updateMachine replacementKey machine s = (r, s', t) ->
  t = t1 ++ ev :: t2 -> quiet ev = false ->
  exists host s6 t1a t1',
    oldHostName_of (upgrader s) machine = Some host
    /\ ready_before (clusterNamespace (upgrader s))
         (key_Name replacementKey) t1a
    /\ t1 = t1a ++ t1'
    /\ oldNodeToEtcdMember (upgrader s6) = oldNodeToEtcdMember (upgrader s)
    /\ removeAndDelete host machine s6 = (r, s', t1' ++ ev :: t2).
Proof.
  intros Hrun Ht Hev. unfold updateMachine in Hrun. unfold oldHostName_of.
  destruct (Machine.ProviderID (Machine.Spec machine)) as [pid|];
    [|injection Hrun as <- <- <-; now destruct t1].
  simpl. destruct (NewProviderID pid) as [e|originalProviderID];
    [injection Hrun as <- <- <-; now destruct t1|].
  apply bind_inv in Hrun as [(u & s0 & t0 & tx & Hg & Hbody & ->)
                            |(r0 & Hg & Hno & _)];
    [|rewrite get_u_run in Hg; injection Hg as <- _ _;
      now destruct (Hno (upgrader s))].
  rewrite get_u_run in Hg. injection Hg as <- <- <-. simpl in Ht.
  destruct (GetNodeFromProviderID (upgrader s)
              (ProviderID.ID originalProviderID)) as [oldNode|];
    [|injection Hbody as <- <- <-; now destruct t1].
  simpl.
  destruct (calm_bind_split _ _ _ _ _ _ _ _ _ (calm_resourceExists _)
              Hbody Ht Hev)
    as (ex & s1 & ta1 & u1 & tb1 & _ & E1 & Hbody1 & -> & Ht1).
  cbv beta in Hbody1.
  pose proof (fun Hc => calm_bind_split _ _ _ _ _ _ _ _ _ Hc Hbody1 Ht1 Hev)
    as Hstep.
  destruct Hstep as (? & s2 & ta2 & u2 & tb2 & _ & E2 & Hbody2 & -> & Ht2);
    [destruct (negb ex); calm_auto|].
  cbv beta in Hbody2.
  destruct (calm_bind_split _ _ _ _ _ _ _ _ _ (calm_waitForProviderID _ _ _)
              Hbody2 Ht2 Hev)
    as (newPID & s3 & ta3 & u3 & tb3 & Hp & E3 & Hbody3 & -> & Ht3).
  cbv beta in Hbody3.
  destruct (calm_bind_split _ _ _ _ _ _ _ _ _ (calm_waitForMatchingNode _ _)
              Hbody3 Ht3 Hev)
    as (node & s4 & ta4 & u4 & tb4 & Hn & E4 & Hbody4 & -> & Ht4).
  cbv beta in Hbody4.
  destruct (calm_bind_split _ _ _ _ _ _ _ _ _ (calm_waitForNodeReady _ _)
              Hbody4 Ht4 Hev)
    as ([] & s5 & ta5 & u5 & tb5 & Hr & E5 & Hbody5 & -> & Ht5).
  cbv beta in Hbody5.
  destruct (calm_bind_split _ _ _ _ _ _ _ _ _ calm_UpdateProviderIDsToNodes
              Hbody5 Ht5 Hev)
    as ([] & s6 & ta6 & u6 & tb6 & _ & E6 & Hbody6 & -> & Ht6).
  cbv beta in Hbody6. subst tb6.
  exists (hostnameForNode oldNode), s6,
    ((ta1 ++ ta2) ++ ta3 ++ ta4 ++ ta5 ++ ta6), u6.
  split; [reflexivity|]. split; [|split; [|split]].
  - destruct (waitForNodeReady_ok _ _ _ _ _ Hr) as (sc & tr0 & tr1 & Htr & Hc).
    exists newPID, node, s2, s3, s4, s5, (ta1 ++ ta2), ta3, ta4, ta5, ta6.
    split; [reflexivity|]. repeat split; try assumption. eauto.
  - rewrite <- !app_assoc. reflexivity.
  - congruence.
  - exact Hbody6.
Qed.

Lemma ready_before_app ns name (t t' : list Event) :
  ready_before ns name t -> ready_before ns name (t ++ t').
Proof.
  intros (pid & node & s0 & s1 & s2 & s3 & ta & tp & tn & tr & tc
          & -> & Hrest).
  exists pid, node, s0, s1, s2, s3, ta, tp, tn, tr, (tc ++ t').
  split; [|exact Hrest]. now rewrite <- !app_assoc.
Qed.

Lemma quiet_exec ev x : event_exec ev = Some x -> quiet ev = false.
Proof. unfold quiet. now intros ->. Qed.

Lemma quiet_delete ev x : event_delete ev = Some x -> quiet ev = false.
Proof. unfold quiet. intros ->. now destruct (event_exec ev). Qed.

(** C1: in every execution of [updateMachine], whatever the two clusters
    answer: a command run in a pod is the etcd member removal
    ([member remove ID], one-minute deadline) for the member id [ID] that
    the snapshot [oldNodeToEtcdMember] holds, non-empty, for the hostname
    of the old Machine's node, and it comes after the waits for the
    replacement's provider id, node and readiness, the last of which
    returned without error on a readiness check that returned true; the
    old Machine is the only Machine deleted, likewise after that wait, and
    after either the snapshot gave no member id for the hostname or a
    member removal succeeded. *)
Theorem updateMachine_removal_after_ready
  (replacementKey : ObjectKey) (machine : Machine.t) (s : State W)
  (r : result unit) (s' : State W) (t : list Event) :
  updateMachine replacementKey machine s = (r, s', t) ->
  forall t1 ev t2,
    t = t1 ++ ev :: t2 ->
    (forall timeout input err,
        event_exec ev = Some (timeout, input, err) ->
        exists host id,
          oldHostName_of (upgrader s) machine = Some host
          /\ oldNodeToEtcdMember (upgrader s) !! host = Some id
          /\ id <> ""
          /\ timeout = 1 * Minute
          /\ (exists pod,
                input = etcdctlForPod_opts pod ["member"; "remove"; id])
          /\ ready_before (clusterNamespace (upgrader s))
               (key_Name replacementKey) t1)
    /\ (forall m err,
          event_delete ev = Some (m, err) ->
          m = machine
          /\ exists host,
              oldHostName_of (upgrader s) machine = Some host
              /\ (map_get (oldNodeToEtcdMember (upgrader s)) host = ""
                  \/ exists id,
                      oldNodeToEtcdMember (upgrader s) !! host = Some id
                      /\ id <> ""
                      /\ Exists (etcdctl_success (1 * Minute)
                                   ["member"; "remove"; id]) t1)
              /\ ready_before (clusterNamespace (upgrader s))
                   (key_Name replacementKey) t1).
Proof.
  intros Hrun t1 ev t2 Ht. split.
  - intros timeout input err Hx.
    destruct (updateMachine_reaches_removal _ _ _ _ _ _ _ _ _ Hrun Ht
                (quiet_exec _ _ Hx))
      as (host & s6 & t1a & t1' & Hhost & Hready & -> & Esnap & Htail).
    destruct (removeAndDelete_trace _ _ _ _ _ _ Htail _ _ _ eq_refl)
      as [Hexec _].
    destruct (Hexec _ _ _ Hx) as (Hid & -> & pod & ->).
    rewrite Esnap in Hid |- *.
    exists host, (map_get (oldNodeToEtcdMember (upgrader s)) host).
    repeat split; try assumption.
    + now apply map_get_lookup.
    + eauto.
    + now apply ready_before_app.
  - intros m err Hx.
    destruct (updateMachine_reaches_removal _ _ _ _ _ _ _ _ _ Hrun Ht
                (quiet_delete _ _ Hx))
      as (host & s6 & t1a & t1' & Hhost & Hready & -> & Esnap & Htail).
    destruct (removeAndDelete_trace _ _ _ _ _ _ Htail _ _ _ eq_refl)
      as [_ Hdel].
    destruct (Hdel _ _ Hx) as (-> & Hcase). rewrite Esnap in Hcase.
    split; [reflexivity|]. exists host. split; [exact Hhost|].
    split; [|now apply ready_before_app].
    destruct Hcase as [Hempty|Hex]; [left; exact Hempty|].
    destruct (String.eqb_spec
                (map_get (oldNodeToEtcdMember (upgrader s)) host) "")
      as [Hid|Hid]; [left; exact Hid|].
    right. exists (map_get (oldNodeToEtcdMember (upgrader s)) host).
    split; [now apply map_get_lookup|]. split; [exact Hid|].
    apply Exists_app. right. exact Hex.
Qed.

End OrderFacts.

Example updateMachine_rolling_order :
  let t := (updateMachine {| key_Namespace := "default";
                             key_Name := "cp-0.upgrade.100" |}
              Example.cp0 (Example.start Example.rolling)).2 in
  (fun ev => (is_Some (event_exec ev), is_Some (event_delete ev),
              is_Some (event_create_machine ev))) <$> t
  = (fun ev => (is_Some (event_exec ev), is_Some (event_delete ev),
                is_Some (event_create_machine ev))) <$> t
  /\ length t = 12%nat
  /\ event_exec <$> t !! 10%nat
     = Some (Some (1 * Minute,
                   etcdctlForPod_opts Example.etcd_pod
                     ["member"; "remove"; "8e9e05c52164694d"],
                   None))
  /\ event_delete <$> t !! 11%nat = Some (Some (Example.cp0, None)).
Proof. vm_compute. repeat split. Qed.

Lemma run_eta {A B C : Type} (x : A * B * C) : x = (x.1.1, x.1.2, x.2).
Proof. destruct x as [[a b] c]. reflexivity. Qed.

Lemma updateMachine_removal_after_ready_witness :
  let key := {| key_Namespace := "default"; key_Name := "cp-0.upgrade.100" |} in
  let s := Example.start Example.rolling in
  let run := updateMachine key Example.cp0 s in
  let removal :=
    Ev (PodExec (1 * Minute)
          (etcdctlForPod_opts Example.etcd_pod
             ["member"; "remove"; "8e9e05c52164694d"]))
      ("members: cp-0", "", None) in
  (forall timeout input err,
      event_exec removal = Some (timeout, input, err) ->
      exists host id,
        oldHostName_of (upgrader s) Example.cp0 = Some host
        /\ oldNodeToEtcdMember (upgrader s) !! host = Some id
        /\ id <> ""
        /\ timeout = 1 * Minute
        /\ (exists pod,
              input = etcdctlForPod_opts pod ["member"; "remove"; id])
        /\ ready_before (clusterNamespace (upgrader s)) (key_Name key)
             (firstn 10 run.2))
  /\ (forall m err,
        event_delete removal = Some (m, err) ->
        m = Example.cp0
        /\ exists host,
            oldHostName_of (upgrader s) Example.cp0 = Some host
            /\ (map_get (oldNodeToEtcdMember (upgrader s)) host = ""
                \/ exists id,
                    oldNodeToEtcdMember (upgrader s) !! host = Some id
                    /\ id <> ""
                    /\ Exists (etcdctl_success (1 * Minute)
                                 ["member"; "remove"; id]) (firstn 10 run.2))
            /\ ready_before (clusterNamespace (upgrader s)) (key_Name key)
                 (firstn 10 run.2)).
Proof.
  intros key s run removal.
  assert (run.2 = firstn 10 run.2 ++ removal :: skipn 11 run.2) as Hsplit
      by (vm_compute; reflexivity).
  exact (updateMachine_removal_after_ready key Example.cp0 s
           run.1.1 run.1.2 run.2 (run_eta run)
           (firstn 10 run.2) removal (skipn 11 run.2) Hsplit).
Defined.

(** * Further properties of the upgrader *)

(** ** Etcdctl over the etcd pods *)

Section EtcdctlFacts.

Context {W : Type} `{!Cluster W} `{!Libraries}.

Lemma etcdctl_loop_run ctx args pods :
  forall previous s,
    let run := etcdctl_loop ctx pods args previous s in
    upgrader run.1.2 = upgrader s
    /\ exists replies,
         (length replies <= length pods)%nat
         /\ run.2 = exec_events ctx args (zip pods replies)
         /\ Forall (fun reply => reply.2 <> None) (removelast replies)
         /\ match run.1.1 with
            | Ok out => default previous (last replies) = (out.1, out.2, None)
            | Err e =>
                length replies = length pods
                /\ (default previous (last replies)).2 = Some e
            | Panic => False
            end.
Proof.
  induction pods as [|pod rest IH]; intros previous s; cbv zeta.
  - simpl. split; [now destruct previous as [[? ?] [?|]]|]. exists [].
    destruct previous as [[so se] [e|]]; simpl; repeat split; auto.
  - cbn [etcdctl_loop]. rewrite bind_run. unfold etcdctlForPod.
    rewrite call_run.
    destruct (perform _ _ (world s)) as [[[so se] [e|]] w]; simpl.
    + specialize (IH (so, se, Some e) {| upgrader := upgrader s; world := w |}).
      cbv zeta in IH.
      destruct (etcdctl_loop ctx rest args (so, se, Some e) _)
        as [[r2 s2] t2].
      simpl in *. destruct IH as (Eu & replies & Hlen & Ht & Hfail & Hres).
      split; [exact Eu|]. exists ((so, se, Some e) :: replies).
      split; [simpl; lia|]. split; [simpl; now rewrite Ht|]. split.
      * destruct replies as [|x replies]; [constructor|].
        change (Forall (fun reply => reply.2 <> None)
                  ((so, se, Some e) :: removelast (x :: replies))).
        constructor; [discriminate | exact Hfail].
      * rewrite last_cons.
        assert (default previous
                  (match last replies with
                   | Some y => Some y
                   | None => Some (so, se, Some e)
                   end)
                = default (so, se, Some e) (last replies)) as ->
            by now destruct (last replies).
        destruct r2 as [out|e'|]; [exact Hres| |exact Hres].
        destruct Hres as [Hl Hres]. split; [simpl; lia | exact Hres].
    + split; [reflexivity|]. exists [(so, se, None)].
      split; [simpl; lia|]. split; [now destruct rest|].
      split; [constructor | reflexivity].
Qed.

(** [etcdctl] lists the etcd pods and runs the command in them one after
    the other, in the order listed, until a pod runs it without error: it
    returns the output of that pod, and the error of the last pod when
    every pod failed.  It runs nothing when the listing fails or is
    empty, and it never changes the upgrader. *)
Theorem etcdctl_first_success (ctx : Z) (args : list string) (s : State W) :
  let run := etcdctl ctx args s in
  let listPods := TargetListPods "component=etcd" in
  let listing := perform _ listPods (world s) in
  upgrader run.1.2 = upgrader s
  /\ match listing.1 with
     | inl err =>
         run.1.1 = Err (Wrapf err "error listing pods" [])
         /\ run.2 = [Ev listPods listing.1]
     | inr [] =>
         run.1.1 = Err (Errorf "found 0 etcd pods" [])
         /\ run.2 = [Ev listPods listing.1]
     | inr pods =>
         exists replies final,
           (length replies <= length pods)%nat
           /\ last replies = Some final
           /\ run.2 = Ev listPods listing.1
                        :: exec_events ctx args (zip pods replies)
           /\ Forall (fun reply => reply.2 <> None) (removelast replies)
           /\ match run.1.1 with
              | Ok out => final = (out.1, out.2, None)
              | Err e => length replies = length pods /\ final.2 = Some e
              | Panic => False
              end
     end.
Proof.
  cbv zeta. unfold etcdctl, listEtcdPods. rewrite !bind_run, call_run.
  destruct (perform _ _ (world s)) as [[e|pods] w]; simpl.
  - auto.
  - destruct pods as [|pod rest]; [simpl; auto|].
    pose proof (etcdctl_loop_run ctx args (pod :: rest) ("", "", None)
                  {| upgrader := upgrader s; world := w |}) as Hloop.
    cbv zeta in Hloop.
    destruct (etcdctl_loop ctx (pod :: rest) args ("", "", None) _)
      as [[r2 s2] t2] eqn:E.
    cbn [fst snd] in *.
    destruct Hloop as (Eu & replies & Hlen & Ht & Hfail & Hres).
    split; [exact Eu|].
    destruct (last replies) as [final|] eqn:Hlast.
    + exists replies, final. rewrite Ht. auto.
    + apply last_None in Hlast. subst replies. exfalso.
      simpl in Ht. subst t2. clear -E.
      cbn [etcdctl_loop] in E. rewrite bind_run in E.
      unfold etcdctlForPod in E. rewrite call_run in E.
      destruct (perform _ _ _) as [[[so se] [e|]] w'] in E; simpl in E.
      * destruct (etcdctl_loop ctx rest args _ _) as [[r3 s3] t3].
        discriminate E.
      * discriminate E.
Qed.

End EtcdctlFacts.

(** ** The snapshot of etcd members *)

Section SnapshotFacts.

Context {W : Type} `{!Cluster W} `{!Libraries}.

Lemma hex_digit_value_digit (d : N) :
  (d < 16)%N -> hex_digit_value (hex_digit d) = d.
Proof.
  intros Hd.
  assert (d = 0 \/ d = 1 \/ d = 2 \/ d = 3 \/ d = 4 \/ d = 5 \/ d = 6
          \/ d = 7 \/ d = 8 \/ d = 9 \/ d = 10 \/ d = 11 \/ d = 12
          \/ d = 13 \/ d = 14 \/ d = 15)%N as Hcases by lia.
  repeat (destruct Hcases as [->|Hcases]; [reflexivity|]).
  now subst d.
Qed.

Lemma format_hex_go_S (k : nat) (n : N) (acc : string) :
  format_hex_go (S k) n acc
  = if (n / 16 =? 0)%N then String (hex_digit (n mod 16)) acc
    else format_hex_go k (n / 16) (String (hex_digit (n mod 16)) acc).
Proof. reflexivity. Qed.

Lemma hex_value_format (digits : nat) :
  forall n acc,
    (n < 16 ^ N.of_nat digits)%N ->
    hex_value_go (format_hex_go digits n acc) 0 = hex_value_go acc n.
Proof.
  induction digits as [|k IH]; intros n acc Hn.
  - simpl in *. now replace n with 0%N by lia.
  - rewrite format_hex_go_S.
    assert (hex_value_go (String (hex_digit (n mod 16)) acc) (n / 16)
            = hex_value_go acc n) as Hstep.
    { cbn [hex_value_go]. rewrite hex_digit_value_digit
        by (apply N.mod_lt; discriminate).
      f_equal. rewrite (N.div_mod n 16) at 3 by discriminate. lia. }
    destruct (n / 16 =? 0)%N eqn:E.
    + apply N.eqb_eq in E. rewrite E in Hstep. exact Hstep.
    + rewrite IH; [exact Hstep|].
      apply N.Div0.div_lt_upper_bound.
      replace (16 ^ N.of_nat (S k))%N with (16 * 16 ^ N.of_nat k)%N in Hn
        by (rewrite Nat2N.inj_succ, N.pow_succ_r'; reflexivity).
      exact Hn.
Qed.

Lemma format_hex_go_nonempty (digits : nat) :
  forall n acc, acc <> "" -> format_hex_go digits n acc <> "".
Proof.
  induction digits as [|k IH]; intros n acc Hacc; [exact Hacc|].
  rewrite format_hex_go_S.
  destruct (n / 16 =? 0)%N; [discriminate|]. now apply IH.
Qed.

Lemma FormatUint16_nonempty (n : Z) : FormatUint16 n <> "".
Proof.
  unfold FormatUint16. change 16%nat with (S 15). rewrite format_hex_go_S.
  destruct (_ =? 0)%N; [discriminate|].
  now apply format_hex_go_nonempty.
Qed.

Lemma hex_value_FormatUint16 (n : Z) :
  0 <= n < 2 ^ 64 -> hex_value (FormatUint16 n) = n.
Proof.
  intros Hn. unfold hex_value, FormatUint16.
  rewrite hex_value_format; [simpl; lia|].
  change (16 ^ N.of_nat 16)%N with 18446744073709551616%N. lia.
Qed.

Lemma snapshot_lookup (members : list etcdMember) :
  forall (acc : gmap string string) (name : string),
    foldl (fun m member =>
             <[member_Name member := FormatUint16 (member_ID member)]> m)
      acc members !! name
    = match lastMemberNamed name members with
      | Some member => Some (FormatUint16 (member_ID member))
      | None => acc !! name
      end.
Proof.
  unfold lastMemberNamed.
  induction members as [|x l IH]; intros acc name; [reflexivity|].
  cbn [foldl]. rewrite IH. rewrite filter_cons.
  destruct (decide (member_Name x = name)) as [<-|Hne].
  - rewrite last_cons. destruct (last _); [reflexivity|].
    apply lookup_insert_eq.
  - destruct (last _); [reflexivity|]. now apply lookup_insert_ne.
Qed.

Lemma listEtcdMembers_upgrader timeout (s : State W) :
  upgrader (listEtcdMembers timeout s).1.2 = upgrader s.
Proof.
  unfold listEtcdMembers. rewrite bind_run.
  destruct (etcdctl timeout _ s) as [[[out|e|] s1] t1] eqn:E;
    apply etcdctl_trace in E as (Eu & _); simpl; [|exact Eu..].
  destruct (json_Unmarshal_members _); exact Eu.
Qed.

(** [oldNodeToEtcdMemberId] returns what [listEtcdMembers] returns and
    calls nothing else.  When the listing succeeds it replaces the
    snapshot and nothing else of the upgrader: a hostname is in the new
    snapshot exactly when a listed member goes by it, with the base-16 id
    of the last such member.  When the listing fails the upgrader stays
    as it was. *)
Theorem oldNodeToEtcdMemberId_snapshot (timeout : Z) (s : State W) :
  let run := oldNodeToEtcdMemberId timeout s in
  let listing := listEtcdMembers timeout s in
  run.2 = listing.2
  /\ world run.1.2 = world listing.1.2
  /\ match listing.1.1 with
     | Ok members =>
         run.1.1 = Ok tt
         /\ exists m,
              upgrader run.1.2 = set_oldNodeToEtcdMember m (upgrader s)
              /\ forall name,
                   m !! name
                   = (fun member => FormatUint16 (member_ID member))
                       <$> lastMemberNamed name members
     | Err e => run.1.1 = Err e /\ upgrader run.1.2 = upgrader s
     | Panic => run.1.1 = Panic /\ upgrader run.1.2 = upgrader s
     end.
Proof.
  cbv zeta. unfold oldNodeToEtcdMemberId. rewrite bind_run.
  pose proof (listEtcdMembers_upgrader timeout s) as Hu.
  destruct (listEtcdMembers timeout s) as [[[members|e|] s1] t1];
    simpl in *; [|auto..].
  rewrite app_nil_r. repeat split. eexists. split; [now rewrite Hu|].
  intros name. rewrite snapshot_lookup.
  destruct (lastMemberNamed name members); reflexivity.
Qed.

Lemma oldNodeToEtcdMemberId_lookup timeout (s : State W) members name :
  (listEtcdMembers timeout s).1.1 = Ok members ->
  oldNodeToEtcdMember (upgrader (oldNodeToEtcdMemberId timeout s).1.2) !! name
  = (fun member => FormatUint16 (member_ID member))
      <$> lastMemberNamed name members.
Proof.
  unfold oldNodeToEtcdMemberId. rewrite bind_run.
  destruct (listEtcdMembers timeout s) as [[[members'|e|] s1] t1];
    simpl; intros [= ->].
  rewrite snapshot_lookup. destruct (lastMemberNamed name members); reflexivity.
Qed.

Lemma lastMemberNamed_Some name members member :
  lastMemberNamed name members = Some member ->
  In member members /\ member_Name member = name.
Proof.
  unfold lastMemberNamed. intros Hl.
  apply last_Some_elem_of, list_elem_of_filter in Hl as [Hn Hin].
  split; [now apply list_elem_of_In | exact Hn].
Qed.

Lemma lastMemberNamed_None name members :
  lastMemberNamed name members = None ->
  forall member, In member members -> member_Name member <> name.
Proof.
  unfold lastMemberNamed. intros Hl member Hin Hn.
  apply last_None in Hl.
  assert (member ∈ filter (fun member => member_Name member = name) members)
    as Hm by (apply list_elem_of_filter; split;
              [exact Hn | now apply list_elem_of_In]).
  rewrite Hl in Hm. inversion Hm.
Qed.

(** The ids of a snapshot taken by [oldNodeToEtcdMemberId] are not empty,
    so that the test [updateMachine] makes of an id tells whether the
    hostname is that of a listed member; and an id read back in base 16
    is the 64-bit ID of a listed member of that name. *)
Theorem oldNodeToEtcdMemberId_ids (timeout : Z) (s : State W)
  (members : list etcdMember) (name : string) :
  (listEtcdMembers timeout s).1.1 = Ok members ->
  let snapshot :=
    oldNodeToEtcdMember (upgrader (oldNodeToEtcdMemberId timeout s).1.2) in
  (map_get snapshot name <> ""
   <-> exists member, In member members /\ member_Name member = name)
  /\ forall id,
       snapshot !! name = Some id ->
       id <> ""
       /\ exists member,
            In member members /\ member_Name member = name
            /\ (0 <= member_ID member < 2 ^ 64 ->
                hex_value id = member_ID member).
Proof.
  intros Hlist. cbv zeta.
  pose proof (oldNodeToEtcdMemberId_lookup timeout s members name Hlist) as Hs.
  unfold map_get. rewrite Hs.
  destruct (lastMemberNamed name members) as [member|] eqn:Hl; simpl.
  - apply lastMemberNamed_Some in Hl as [Hin Hn]. split.
    + split; [eauto|]. intros _. apply FormatUint16_nonempty.
    + intros id [= <-]. split; [apply FormatUint16_nonempty|].
      exists member. repeat split; try assumption.
      apply hex_value_FormatUint16.
  - split; [|discriminate]. split; [congruence|].
    intros (member & Hin & Hn).
    now destruct (lastMemberNamed_None _ _ Hl member Hin).
Qed.

End SnapshotFacts.

Lemma oldNodeToEtcdMemberId_ids_witness :
  (listEtcdMembers (1 * Minute) (Example.start Example.rolling)).1.1
  = Ok [Example.member_cp0]
  /\ oldNodeToEtcdMember
       (upgrader
          (oldNodeToEtcdMemberId (1 * Minute)
             (Example.start Example.rolling)).1.2) !! "cp-0"
     = Some "8e9e05c52164694d"
  /\ hex_value "8e9e05c52164694d" = 10276657743932975437
  /\ forall id,
       oldNodeToEtcdMember
         (upgrader
            (oldNodeToEtcdMemberId (1 * Minute)
               (Example.start Example.rolling)).1.2) !! "cp-0"
       = Some id ->
       id <> ""
       /\ exists member,
            In member [Example.member_cp0] /\ member_Name member = "cp-0"
            /\ (0 <= member_ID member < 2 ^ 64 ->
                hex_value id = member_ID member).
Proof.
  assert ((listEtcdMembers (1 * Minute) (Example.start Example.rolling)).1.1
          = Ok [Example.member_cp0]) as Hlist by (vm_compute; reflexivity).
  split; [exact Hlist|]. split; [vm_compute; reflexivity|].
  split; [vm_compute; reflexivity|].
  exact (proj2 (oldNodeToEtcdMemberId_ids (1 * Minute)
                  (Example.start Example.rolling) [Example.member_cp0]
                  "cp-0" Hlist)).
Defined.

(** ** The node index *)

Section NodeIndexFacts.

Context {W : Type} `{!Cluster W} `{!Libraries}.

Lemma node_index_lookup (nodes : list Node.t) :
  forall (acc : gmap string Node.t) (id : string),
    foldl (fun pairs node =>
             let id := match NewProviderID (Node.ProviderID node) with
                       | inr providerID => ProviderID.ID providerID
                       | inl _ => Node.ProviderID node
                       end in
             <[id := node]> pairs)
      acc nodes !! id
    = match lastNodeIndexed id nodes with
      | Some node => Some node
      | None => acc !! id
      end.
Proof.
  unfold lastNodeIndexed.
  induction nodes as [|x l IH]; intros acc id; [reflexivity|].
  cbn [foldl]. rewrite IH. rewrite filter_cons.
  fold (nodeIndexKey x).
  destruct (decide (nodeIndexKey x = id)) as [<-|Hne].
  - rewrite last_cons. destruct (last _); [reflexivity|].
    apply lookup_insert_eq.
  - destruct (last _); [reflexivity|]. now apply lookup_insert_ne.
Qed.

(** [UpdateProviderIDsToNodes] lists the nodes once.  When the listing
    succeeds it replaces the node index and nothing else of the upgrader:
    [GetNodeFromProviderID] then finds, for an id, the last listed node
    filed under it (by the id part of its provider id, or by the whole
    provider id where that does not parse), and no node that is not
    listed any more.  When the listing fails the upgrader stays as it
    was. *)
Theorem UpdateProviderIDsToNodes_index (s : State W) :
  let run := UpdateProviderIDsToNodes s in
  let listing := perform _ TargetListNodes (world s) in
  run.2 = [Ev TargetListNodes listing.1]
  /\ world run.1.2 = listing.2
  /\ match listing.1 with
     | inl err =>
         run.1.1 = Err (Wrapf err "error listing nodes" [])
         /\ upgrader run.1.2 = upgrader s
     | inr items =>
         run.1.1 = Ok tt
         /\ (exists pairs,
               upgrader run.1.2 = set_providerIDsToNodes pairs (upgrader s))
         /\ forall id,
              GetNodeFromProviderID (upgrader run.1.2) id
              = lastNodeIndexed id items
     end.
Proof.
  cbv zeta. unfold UpdateProviderIDsToNodes. rewrite bind_run, call_run.
  destruct (perform _ _ (world s)) as [[e|items] w]; simpl; [auto|].
  repeat split; [eauto|]. intros id. unfold GetNodeFromProviderID. simpl.
  rewrite node_index_lookup. now destruct (lastNodeIndexed id items).
Qed.

End NodeIndexFacts.

(** ** What a method touches *)

Section Footprint.

Context {W : Type} `{!Cluster W} `{!Libraries}.
Context (R : relation ControlPlaneUpgrader) (P : Event -> Prop).
Context `{!Reflexive R} `{!Transitive R}.

Lemma within_ret {A} (a : A) : within R P (mret a : M W A).
Proof. intros s. split; [reflexivity | constructor]. Qed.

Lemma within_fail {A} (e : error) : within R P (fail e : M W A).
Proof. intros s. split; [reflexivity | constructor]. Qed.

Lemma within_panic {A} : within R P (panic : M W A).
Proof. intros s. split; [reflexivity | constructor]. Qed.

Lemma within_get_u : within R P (get_u : M W _).
Proof. intros s. split; [reflexivity | constructor]. Qed.

Lemma within_call {T} (c : Call T) :
  (forall reply, P (Ev c reply)) -> within R P (call c).
Proof.
  intros Hc s. rewrite call_run. split; [reflexivity|].
  constructor; [apply Hc | constructor].
Qed.

Lemma within_modify_u f :
  (forall u, R u (f u)) -> within R P (modify_u f : M W _).
Proof. intros Hf s. split; [apply Hf | constructor]. Qed.

Lemma within_bind {A B} (m : M W A) (f : A -> M W B) :
  within R P m -> (forall a, within R P (f a)) -> within R P (m ≫= f).
Proof.
  intros Hm Hf s. rewrite bind_run. specialize (Hm s).
  destruct (m s) as [[[a|e|] s1] t1]; simpl in *; [|exact Hm..].
  specialize (Hf a s1). destruct (f a s1) as [[r2 s2] t2]; simpl in *.
  destruct Hm, Hf. split; [etransitivity; eassumption|].
  now apply Forall_app.
Qed.

Lemma within_wrapf {A} (m : M W A) format args :
  within R P m -> within R P (wrapf m format args).
Proof.
  intros Hm s. unfold wrapf. specialize (Hm s).
  now destruct (m s) as [[[a|e|] s1] t1].
Qed.

Lemma within_forM_ {A} (l : list A) (body : A -> M W unit) :
  (forall a, within R P (body a)) -> within R P (forM_ l body).
Proof.
  intros Hb. induction l as [|x l IH]; simpl.
  - apply within_ret.
  - apply within_bind; [apply Hb | intros _; exact IH].
Qed.

Lemma within_poll_loop {A} tries (condition : M W (option A)) :
  within R P condition -> within R P (poll_loop tries condition).
Proof.
  intros Hc. induction tries as [|n IH]; simpl.
  - apply within_fail.
  - apply within_bind; [exact Hc|]. intros [a|]; [apply within_ret | exact IH].
Qed.

Lemma within_PollImmediate {A} interval timeout
  (condition : M W (option A)) :
  (forall ticks, P (Ev (PollerTicks interval timeout) ticks)) ->
  within R P condition -> within R P (PollImmediate interval timeout condition).
Proof.
  intros Ht Hc. unfold PollImmediate.
  apply within_bind; [exact Hc|]. intros [a|]; [apply within_ret|].
  apply within_bind; [now apply within_call|].
  intros ticks. now apply within_poll_loop.
Qed.

End Footprint.

#[global] Instance any_upgrader_refl : Reflexive any_upgrader.
Proof. now intros u. Qed.

#[global] Instance any_upgrader_trans : Transitive any_upgrader.
Proof. now intros u1 u2 u3 _ _. Qed.

Ltac within_side := try (solve [typeclasses eauto]).

Ltac within_step :=
  first
    [ apply within_ret; within_side | apply within_fail; within_side
    | apply within_panic; within_side | apply within_get_u; within_side
    | apply within_wrapf
    | apply within_forM_; [within_side..|intros ?]
    | apply within_bind; [within_side..| |intros ?]
    | match goal with
      | |- within _ _ (match ?x with _ => _ end) => destruct x
      | |- within _ _ (if ?b then _ else _) => destruct b
      end ].

Ltac within_auto := repeat within_step.

(** What the methods below [updateMachine] touch. *)

Section MethodFootprints.

Context {W : Type} `{!Cluster W} `{!Libraries}.
Context (R : relation ControlPlaneUpgrader) (P : Event -> Prop).
Context `{!Reflexive R} `{!Transitive R}.

Lemma within_resourceExists ref :
  (forall apiVersion kind key reply,
      P (Ev (MgmtGetObject apiVersion kind key) reply)) ->
  within R P (resourceExists ref : M W bool).
Proof.
  intros Hget. unfold resourceExists. within_auto.
  apply within_call; within_side. intros reply. apply Hget.
Qed.

Lemma within_etcdctl_loop ctx args pods :
  (forall pod reply, P (Ev (PodExec ctx (etcdctlForPod_opts pod args)) reply)) ->
  forall previous,
    within R P (etcdctl_loop ctx pods args previous : M W _).
Proof.
  intros Hexec. induction pods as [|pod rest IH]; intros previous; simpl.
  - destruct previous as [[so se] [e|]]; within_auto.
  - unfold etcdctlForPod. apply within_bind; within_side.
    + apply within_call; within_side. intros reply. apply Hexec.
    + intros [[so se] [e|]]; [apply IH | within_auto].
Qed.

Lemma within_etcdctl ctx args :
  (forall selector reply, P (Ev (TargetListPods selector) reply)) ->
  (forall pod reply, P (Ev (PodExec ctx (etcdctlForPod_opts pod args)) reply)) ->
  within R P (etcdctl ctx args : M W _).
Proof.
  intros Hlist Hexec. unfold etcdctl, listEtcdPods.
  apply within_bind; within_side.
  - within_auto. apply within_call; within_side. intros reply. apply Hlist.
  - intros [|pod rest]; [within_auto|]. now apply within_etcdctl_loop.
Qed.

Lemma within_listEtcdMembers timeout :
  (forall selector reply, P (Ev (TargetListPods selector) reply)) ->
  (forall pod reply,
      P (Ev (PodExec timeout (etcdctlForPod_opts pod ["member list -w json"]))
           reply)) ->
  within R P (listEtcdMembers timeout : M W _).
Proof.
  intros Hlist Hexec. unfold listEtcdMembers.
  apply within_bind; within_side; [now apply within_etcdctl|].
  intros out. within_auto.
Qed.

Lemma within_deleteEtcdMember timeout etcdMemberId :
  (forall selector reply, P (Ev (TargetListPods selector) reply)) ->
  (forall pod reply,
      P (Ev (PodExec timeout
               (etcdctlForPod_opts pod ["member"; "remove"; etcdMemberId]))
           reply)) ->
  within R P (deleteEtcdMember timeout etcdMemberId : M W _).
Proof.
  intros Hlist Hexec. unfold deleteEtcdMember.
  apply within_bind; within_side; [now apply within_etcdctl|].
  intros out. within_auto.
Qed.

Lemma within_UpdateProviderIDsToNodes :
  (forall u pairs, R u (set_providerIDsToNodes pairs u)) ->
  (forall reply, P (Ev TargetListNodes reply)) ->
  within R P (UpdateProviderIDsToNodes : M W _).
Proof.
  intros Hset Hlist. unfold UpdateProviderIDsToNodes.
  apply within_bind; within_side.
  - now apply within_call; within_side.
  - intros [e|items]; [within_auto|]. apply within_modify_u.
    intros u. apply Hset.
Qed.

Lemma within_waitForProviderID ns name timeout :
  (forall key reply, P (Ev (MgmtGetMachine key) reply)) ->
  (forall interval timeout ticks, P (Ev (PollerTicks interval timeout) ticks)) ->
  within R P (waitForProviderID ns name timeout : M W _).
Proof.
  intros Hget Hticks. unfold waitForProviderID. apply within_wrapf.
  apply within_PollImmediate; within_side; [intros; apply Hticks|].
  within_auto. apply within_call; within_side. intros; apply Hget.
Qed.

Lemma within_waitForMatchingNode rawProviderID timeout :
  (forall reply, P (Ev TargetListNodes reply)) ->
  (forall interval timeout ticks, P (Ev (PollerTicks interval timeout) ticks)) ->
  within R P (waitForMatchingNode rawProviderID timeout : M W _).
Proof.
  intros Hlist Hticks. unfold waitForMatchingNode.
  destruct (NewProviderID rawProviderID); [within_auto|].
  apply within_wrapf.
  apply within_PollImmediate; within_side; [intros; apply Hticks|].
  within_auto. now apply within_call; within_side.
Qed.

Lemma within_isReady nodeHostname :
  (forall name reply, P (Ev (TargetGetPod name) reply)) ->
  within R P (isReady nodeHostname : M W _).
Proof.
  intros Hget. unfold isReady.
  induction components as [|component rest IH]; simpl; [within_auto|].
  apply within_bind; within_side.
  - apply within_call; within_side. intros; apply Hget.
  - intros [e|pod]; [within_auto|]. destruct (_ <? _)%nat; [within_auto|].
    exact IH.
Qed.

Lemma within_waitForNodeReady newNode timeout :
  (forall name reply, P (Ev (TargetGetPod name) reply)) ->
  (forall interval timeout ticks, P (Ev (PollerTicks interval timeout) ticks)) ->
  within R P (waitForNodeReady newNode timeout : M W _).
Proof.
  intros Hget Hticks. unfold waitForNodeReady.
  destruct (String.eqb _ _); [within_auto|].
  apply within_wrapf.
  apply within_PollImmediate; within_side; [intros; apply Hticks|].
  apply within_bind; within_side; [now apply within_isReady|].
  intros ready. within_auto.
Qed.

End MethodFootprints.

(** ** Polling *)

Section PollFacts.

Context {W : Type} `{!Cluster W} `{!Libraries}.

Lemma poll_loop_timeout {A} tries (condition : M W (option A)) :
  evaluates condition ->
  forall s,
    match (poll_loop tries condition s).1.1 with
    | Ok _ => True
    | Err e => e = ErrWaitTimeout
    | Panic => False
    end.
Proof.
  intros Hc. induction tries as [|n IH]; intros s; simpl; [reflexivity|].
  rewrite bind_run. destruct (Hc s) as [done Hd].
  destruct (condition s) as [[r1 s1] t1]; simpl in Hd; subst r1.
  destruct done as [a|]; [exact I|].
  specialize (IH s1). now destruct (poll_loop n condition s1) as [[r2 s2] t2].
Qed.

Lemma PollImmediate_timeout {A} interval timeout
  (condition : M W (option A)) :
  evaluates condition ->
  forall s,
    match (PollImmediate interval timeout condition s).1.1 with
    | Ok _ => True
    | Err e => e = ErrWaitTimeout
    | Panic => False
    end.
Proof.
  intros Hc s. unfold PollImmediate.
  rewrite bind_run. destruct (Hc s) as [done Hd].
  destruct (condition s) as [[r1 s1] t1]; simpl in Hd; subst r1.
  destruct done as [a|]; [exact I|].
  rewrite bind_run, call_run. cbv zeta.
  pose proof (poll_loop_timeout
                (S (perform _ (PollerTicks interval timeout) (world s1)).1)
                condition Hc
                {| upgrader := upgrader s1;
                   world := (perform _ (PollerTicks interval timeout)
                               (world s1)).2 |}) as Hp.
  now destruct (poll_loop _ condition _) as [[r2 s2] t2].
Qed.

(** What the last evaluation of the condition was when the poller
    returned a value. *)
Lemma PollImmediate_last {A} interval timeout (condition : M W (option A)) s a :
  (PollImmediate interval timeout condition s).1.1 = Ok a ->
  exists sc t0,
    (PollImmediate interval timeout condition s).2 = t0 ++ (condition sc).2
    /\ (condition sc).1.1 = Ok (Some a).
Proof.
  destruct (PollImmediate interval timeout condition s) as [[r s'] t] eqn:E.
  simpl. intros ->. apply PollImmediate_ok in E as (sc & t0 & t1 & -> & Hc).
  exists sc, t0. rewrite Hc. auto.
Qed.

End PollFacts.

(** ** Waiting for the replacement *)

Section WaitFacts.

Context {W : Type} `{!Cluster W} `{!Libraries}.

(** [waitForProviderID] only reads the Machine it waits for and the
    poller's clock, and leaves the upgrader as it was.  The provider id
    it returns is not empty and is the one the last read of the Machine
    showed.  An error of a read is never returned: the only error is the
    poller's timeout, wrapped.  It never panics. *)
Theorem waitForProviderID_result (ns name : string) (timeout : Z)
  (s : State W) :
  let run := waitForProviderID ns name timeout s in
  let get := MgmtGetMachine {| key_Namespace := ns; key_Name := name |} in
  upgrader run.1.2 = upgrader s
  /\ Forall (waitForProviderID_event ns name timeout) run.2
  /\ match run.1.1 with
     | Ok providerID =>
         providerID <> ""
         /\ exists t0 machine,
              run.2 = t0 ++ [Ev get (inr machine)]
              /\ Machine.ProviderID (Machine.Spec machine) = Some providerID
     | Err e =>
         e = Wrapf ErrWaitTimeout
               "timed out waiting for machine provider id" []
     | Panic => False
     end.
Proof.
  cbv zeta.
  set (condition :=
         r ← call (MgmtGetMachine {| key_Name := name; key_Namespace := ns |});
         match r with
         | inl _ => mret None
         | inr machine =>
             match Machine.ProviderID (Machine.Spec machine) with
             | None => mret None
             | Some providerID =>
                 if negb (String.eqb providerID "")
                 then mret (Some providerID) else mret None
             end
         end : M W (option string)).
  assert (within eq (waitForProviderID_event ns name timeout)
            (waitForProviderID ns name timeout)) as Hw.
  { unfold waitForProviderID. apply within_wrapf.
    apply within_PollImmediate; within_side.
    - intros ticks. right. eauto.
    - within_auto. apply within_call; within_side.
      intros reply. left. eauto. }
  destruct (Hw s) as [Hu Hev]. split; [now symmetry|]. split; [exact Hev|].
  assert (evaluates condition) as Hc.
  { intros s0. unfold condition. rewrite bind_run, call_run.
    destruct (perform _ _ (world s0)) as [[e|machine] w]; simpl; [eauto|].
    destruct (Machine.ProviderID _) as [p|]; [|eauto].
    destruct (negb _); eauto. }
  assert (forall sc p,
             (condition sc).1.1 = Ok (Some p) ->
             p <> ""
             /\ exists machine,
                  (condition sc).2
                  = [Ev (MgmtGetMachine
                           {| key_Namespace := ns; key_Name := name |})
                       (inr machine)]
                  /\ Machine.ProviderID (Machine.Spec machine) = Some p)
    as Hdone.
  { intros sc p. unfold condition. rewrite bind_run, call_run.
    destruct (perform _ _ (world sc)) as [[e|machine] w]; simpl;
      [discriminate|].
    destruct (Machine.ProviderID _) as [q|] eqn:Hq; [|discriminate].
    destruct (String.eqb q "") eqn:Hne; simpl; [discriminate|].
    intros [= <-]. split; [now apply String.eqb_neq in Hne|]. eauto. }
  unfold waitForProviderID, wrapf. fold condition.
  pose proof (PollImmediate_timeout (5 * Second) timeout condition Hc s) as Ht.
  pose proof (PollImmediate_last (5 * Second) timeout condition s) as Hl.
  destruct (PollImmediate (5 * Second) timeout condition s)
    as [[[p|e|] s1] t1]; simpl in *; [|now subst e|exact Ht].
  destruct (Hl p eq_refl) as (sc & t0 & -> & Hsc).
  destruct (Hdone sc p Hsc) as (Hne & machine & -> & Hp). eauto.
Qed.

Lemma find_first {A} (f : A -> bool) (l : list A) (x : A) :
  List.find f l = Some x ->
  f x = true
  /\ exists before after,
       l = before ++ x :: after /\ Forall (fun y => f y = false) before.
Proof.
  induction l as [|y l IH]; [discriminate|]. simpl.
  destruct (f y) eqn:E.
  - intros [= ->]. split; [exact E|]. exists [], l. split; [reflexivity|].
    constructor.
  - intros Hf. destruct (IH Hf) as (Hx & before & after & -> & Hb).
    split; [exact Hx|]. exists (y :: before), after.
    split; [reflexivity|]. now constructor.
Qed.

(** [waitForMatchingNode] fails at once, without a call, when the
    provider id it is given does not parse.  Otherwise it only lists the
    nodes and reads the poller's clock, and leaves the upgrader as it
    was.  The node it returns is the first node of the last listing
    whose provider id parses and equals the one waited for.  An error of
    a listing is never returned: the only error is the poller's timeout,
    wrapped.  It never panics. *)
Theorem waitForMatchingNode_result (rawProviderID : string) (timeout : Z)
  (s : State W) :
  let run := waitForMatchingNode rawProviderID timeout s in
  upgrader run.1.2 = upgrader s
  /\ Forall (waitForMatchingNode_event timeout) run.2
  /\ match NewProviderID rawProviderID with
     | inl err => run.1.1 = Err err /\ run.2 = []
     | inr providerID =>
         match run.1.1 with
         | Ok node =>
             exists t0 before after nodeID,
               run.2 = t0 ++ [Ev TargetListNodes (inr (before ++ node :: after))]
               /\ NewProviderID (Node.ProviderID node) = inr nodeID
               /\ ProviderID.Equals providerID nodeID = true
               /\ Forall (fun other =>
                            forall otherID,
                              NewProviderID (Node.ProviderID other)
                              = inr otherID ->
                              ProviderID.Equals providerID otherID = false)
                    before
         | Err e =>
             e = Wrapf ErrWaitTimeout "timed out waiting for matching node" []
         | Panic => False
         end
     end.
Proof.
  cbv zeta.
  assert (within eq (waitForMatchingNode_event timeout)
            (waitForMatchingNode rawProviderID timeout)) as Hw.
  { unfold waitForMatchingNode.
    destruct (NewProviderID rawProviderID); [apply within_fail; within_side|].
    apply within_wrapf. apply within_PollImmediate; within_side.
    - intros ticks. right. eauto.
    - within_auto. apply within_call; within_side.
      intros reply. left. eauto. }
  destruct (Hw s) as [Hu Hev]. split; [now symmetry|]. split; [exact Hev|].
  unfold waitForMatchingNode.
  destruct (NewProviderID rawProviderID) as [err|providerID]; [auto|].
  set (matches := fun node : Node.t =>
                    match NewProviderID (Node.ProviderID node) with
                    | inl _ => false
                    | inr nodeID => ProviderID.Equals providerID nodeID
                    end).
  set (condition :=
         r ← call TargetListNodes;
         match r with
         | inl _ => mret None
         | inr items => mret (List.find matches items)
         end : M W (option Node.t)).
  assert (evaluates condition) as Hc.
  { intros s0. unfold condition. rewrite bind_run, call_run.
    destruct (perform _ _ (world s0)) as [[e|items] w]; simpl; eauto. }
  unfold wrapf.
  pose proof (PollImmediate_timeout (5 * Second) timeout condition Hc s) as Ht.
  pose proof (PollImmediate_last (5 * Second) timeout condition s) as Hl.
  destruct (PollImmediate (5 * Second) timeout condition s)
    as [[[node|e|] s1] t1]; simpl in *; [|now subst e|exact Ht].
  destruct (Hl node eq_refl) as (sc & t0 & -> & Hsc).
  revert Hsc. unfold condition. rewrite bind_run, call_run.
  destruct (perform _ _ (world sc)) as [[e|items] w]; simpl; [discriminate|].
  intros [= Hfind].
  apply find_first in Hfind as (Hm & before & after & -> & Hb).
  unfold matches in Hm.
  destruct (NewProviderID (Node.ProviderID node)) as [|nodeID] eqn:Hn;
    [discriminate|].
  exists t0, before, after, nodeID. repeat split; try assumption.
  eapply Forall_impl; [exact Hb|]. intros other Ho otherID Hother.
  unfold matches in Ho. now rewrite Hother in Ho.
Qed.

End WaitFacts.

(** ** Readiness of the control-plane components *)

Section ReadyFacts.

Context {W : Type} `{!Cluster W} `{!Libraries}.

Lemma foundConditions_elem (pod : Pod.t) (condition : string) :
  condition ∈ foundConditions pod
  <-> In (condition, "True") (Pod.Conditions pod).
Proof.
  unfold foundConditions. rewrite elem_of_list_to_set, list_elem_of_fmap.
  split.
  - intros ([c v] & -> & Hin). apply list_elem_of_filter in Hin as [Hv Hin].
    simpl in *. subst v. now apply list_elem_of_In.
  - intros Hin. exists (condition, "True"). split; [reflexivity|].
    apply list_elem_of_filter. split; [reflexivity|].
    now apply list_elem_of_In.
Qed.

Lemma missingConditions_none (pod : Pod.t) :
  (0 <? size (requiredConditions ∖ foundConditions pod))%nat = false
  <-> pod_ready pod.
Proof.
  rewrite Nat.ltb_ge. unfold pod_ready. split.
  - intros Hsize condition Hin.
    apply foundConditions_elem.
    assert (requiredConditions ∖ foundConditions pod ≡ ∅) as Hempty
        by (apply size_empty_iff; lia).
    assert (condition ∈ requiredConditions) as Hreq.
    { unfold requiredConditions. simpl in Hin.
      destruct Hin as [<-|[<-|[<-|[<-|[]]]]]; set_solver. }
    destruct (decide (condition ∈ foundConditions pod)); [assumption|].
    exfalso. apply (proj1 (elem_of_equiv_empty _) Hempty condition).
    now apply elem_of_difference.
  - intros Hready.
    assert (requiredConditions ∖ foundConditions pod ≡ ∅) as Hempty.
    { apply elem_of_equiv_empty. intros condition
        [Hreq Hnot]%elem_of_difference.
      apply Hnot, foundConditions_elem, Hready.
      unfold requiredConditions in Hreq.
      rewrite !elem_of_union, !elem_of_singleton in Hreq. simpl.
      destruct Hreq as [[[->| ->]| ->]| ->]; auto 6. }
    apply size_empty_iff in Hempty. lia.
Qed.

Lemma isReady_loop_run (nodeHostname : string) (components : list string) :
  forall s,
    let run := isReady_loop components nodeHostname s in
    upgrader run.1.2 = upgrader s
    /\ exists replies,
         (length replies <= length components)%nat
         /\ run.2 = pod_events nodeHostname components replies
         /\ match run.1.1 with
            | Ok true =>
                length replies = length components
                /\ Forall reply_ready replies
            | Ok false =>
                exists before reply,
                  replies = before ++ [reply]
                  /\ Forall reply_ready before
                  /\ ~ reply_ready reply
            | _ => False
            end.
Proof.
  induction components as [|component rest IH]; intros s; cbv zeta.
  - simpl. split; [reflexivity|]. exists []. repeat split; auto.
  - cbn [isReady_loop]. cbv zeta. rewrite bind_run, call_run.
    destruct (perform _ _ (world s)) as [[e|pod] w]; simpl.
    + split; [reflexivity|]. exists [inl e]. split; [simpl; lia|].
      split; [now destruct rest|]. exists [], (inl e). auto.
    + destruct (0 <? size _)%nat eqn:Hmissing; simpl.
      * split; [reflexivity|]. exists [inr pod]. split; [simpl; lia|].
        split; [now destruct rest|]. exists [], (inr pod).
        repeat split; [constructor|]. simpl. intros Hr.
        apply missingConditions_none in Hr. congruence.
      * apply missingConditions_none in Hmissing.
        specialize (IH {| upgrader := upgrader s; world := w |}).
        cbv zeta in IH.
        destruct (isReady_loop rest nodeHostname _) as [[r2 s2] t2].
        simpl in *. destruct IH as (Eu & replies & Hlen & -> & Hres).
        split; [exact Eu|]. exists (inr pod :: replies).
        split; [simpl; lia|]. split; [reflexivity|].
        destruct r2 as [[|]| |]; try exact Hres.
        -- destruct Hres as [Hl Hall]. split; [simpl; lia|].
           now constructor.
        -- destruct Hres as (before & reply & -> & Hb & Hr).
           exists (inr pod :: before), reply. repeat split; try assumption.
           now constructor.
Qed.

(** [isReady] reads the static pods of etcd, the API server, the
    scheduler and the controller manager on the node, in this order, and
    stops at the first that it cannot read or that lacks one of the
    conditions PodScheduled, Initialized, Ready and ContainersReady with
    status True.  It returns true exactly when it has read all four and
    each has the four conditions; otherwise it returns false, never an
    error.  It leaves the upgrader as it was. *)
Theorem isReady_all_components (nodeHostname : string) (s : State W) :
  let run := isReady nodeHostname s in
  upgrader run.1.2 = upgrader s
  /\ exists replies,
       run.2 = pod_events nodeHostname
                 ["etcd"; "kube-apiserver"; "kube-scheduler";
                  "kube-controller-manager"] replies
       /\ match run.1.1 with
          | Ok true => length replies = 4%nat /\ Forall reply_ready replies
          | Ok false =>
              (length replies <= 4)%nat
              /\ exists before reply,
                   replies = before ++ [reply]
                   /\ Forall reply_ready before
                   /\ ~ reply_ready reply
          | _ => False
          end.
Proof.
  cbv zeta. unfold isReady.
  pose proof (isReady_loop_run nodeHostname components s) as Hrun.
  cbv zeta in Hrun. destruct Hrun as (Eu & replies & Hlen & Ht & Hres).
  split; [exact Eu|]. exists replies. split; [exact Ht|].
  destruct (isReady_loop components nodeHostname s) as [[[[|]| |] s1] t1];
    simpl in *; auto.
Qed.

End ReadyFacts.

(** ** Replacement names *)

Section ReplacementNameFacts.

Lemma HasSuffix_append (a b : string) : HasSuffix (a +:+ b) b = true.
Proof.
  unfold HasSuffix. rewrite length_append.
  replace (String.length a + String.length b - String.length b)%nat
    with (String.length a) by lia.
  rewrite drop_append_length, String.eqb_refl, andb_true_r.
  apply Nat.leb_le. lia.
Qed.

(** The suffix of an earlier upgrade is replaced, not piled up: from a
    name that ends with the suffix of upgrade-id [U1] the generator makes
    the name with the same root and the suffix of [U2]. *)
Theorem generateReplacementMachineName_replaces_suffix (root U1 U2 : string) :
  upgradeIDInputRegex_MatchString U1 = true ->
  len root + len (upgradeSuffix U2) <= DNS1123SubdomainMaxLength ->
  generateReplacementMachineName (root +:+ upgradeSuffix U1) U2
  = Some (root +:+ upgradeSuffix U2).
Proof.
  intros HU Hlen.
  unfold generateReplacementMachineName,
    upgradeIDNameSuffixRegex_FindStringIndex. cbv zeta.
  rewrite find_from_generated by exact HU.
  replace (0 + len root + 1 - 1) with (len root) by lia.
  rewrite slice_to_append. simpl.
  replace (0 <? len root + len (upgradeSuffix U2) - DNS1123SubdomainMaxLength)
    with false by (symmetry; apply Z.ltb_ge; lia).
  reflexivity.
Qed.

Lemma slice_to_all (s : string) : slice_to s (len s) = Some s.
Proof.
  assert (s +:+ "" = s) as Hs.
  { induction s as [|c s IH]; [reflexivity|].
    rewrite append_cons. now rewrite IH. }
  pose proof (slice_to_append s "") as Hslice. now rewrite Hs in Hslice.
Qed.

(** What the generator makes of a name without an old suffix that is at
    least as long as the room the new suffix leaves. *)
Lemma generateReplacementMachineName_cut (n U : string) :
  upgradeIDNameSuffixRegex_FindStringIndex n = None ->
  DNS1123SubdomainMaxLength - len (upgradeSuffix U) <= len n ->
  generateReplacementMachineName n U
  = (root ← slice_to n (DNS1123SubdomainMaxLength - len (upgradeSuffix U));
     Some (root +:+ upgradeSuffix U)).
Proof.
  intros Hm Hlen. unfold generateReplacementMachineName. cbv zeta.
  rewrite Hm. simpl.
  destruct (0 <? len n + len (upgradeSuffix U) - DNS1123SubdomainMaxLength)
    eqn:E.
  - replace (len n - (len n + len (upgradeSuffix U)
                      - DNS1123SubdomainMaxLength))
      with (DNS1123SubdomainMaxLength - len (upgradeSuffix U)) by lia.
    reflexivity.
  - apply Z.ltb_ge in E.
    replace (DNS1123SubdomainMaxLength - len (upgradeSuffix U))
      with (len n) by lia.
    now rewrite slice_to_all.
Qed.

(** Truncation makes names collide: two names without an old suffix that
    agree on as many leading bytes as the suffix leaves room for get the
    same replacement name, however they differ after that. *)
Theorem generateReplacementMachineName_collision (a b U : string) :
  upgradeIDNameSuffixRegex_FindStringIndex a = None ->
  upgradeIDNameSuffixRegex_FindStringIndex b = None ->
  let room := DNS1123SubdomainMaxLength - len (upgradeSuffix U) in
  room <= len a -> room <= len b ->
  slice_to a room = slice_to b room ->
  generateReplacementMachineName a U = generateReplacementMachineName b U.
Proof.
  intros Ha Hb room Hla Hlb Hsame.
  rewrite !generateReplacementMachineName_cut by assumption.
  fold room. now rewrite Hsame.
Qed.

End ReplacementNameFacts.

Lemma generateReplacementMachineName_replaces_suffix_witness :
  generateReplacementMachineName ("cp-0" +:+ upgradeSuffix "99") "100"
  = Some ("cp-0" +:+ upgradeSuffix "100").
Proof.
  apply (generateReplacementMachineName_replaces_suffix "cp-0" "99" "100").
  - reflexivity.
  - vm_compute. discriminate.
Defined.

Lemma generateReplacementMachineName_collision_witness :
  repeat_byte "a" 241 +:+ "-east" <> repeat_byte "a" 241 +:+ "-west"
  /\ generateReplacementMachineName (repeat_byte "a" 241 +:+ "-east") "100"
     = generateReplacementMachineName (repeat_byte "a" 241 +:+ "-west") "100".
Proof.
  split; [vm_compute; discriminate|].
  apply (generateReplacementMachineName_collision
           (repeat_byte "a" 241 +:+ "-east")
           (repeat_byte "a" 241 +:+ "-west") "100").
  - vm_compute. reflexivity.
  - vm_compute. reflexivity.
  - vm_compute. discriminate.
  - vm_compute. discriminate.
  - vm_compute. reflexivity.
Defined.

Section SkipReplacementFacts.

Context {W : Type} `{!Cluster W} `{!Libraries}.

(** A Machine that goes by a name the generator makes for the upgrade-id
    of the run is never replaced itself: the loop body of
    [updateMachines] returns for it without error, having called at most
    the patch helper that stores the upgrade-id on it, and leaves the
    upgrader as it was. *)
Theorem updateMachines_body_skips_replacement (original : string)
  (machine : Machine.t) (s : State W) :
  generateReplacementMachineName original (upgradeID (upgrader s))
  = Some (Machine.Name machine) ->
  let run := updateMachines_body machine s in
  run.1.1 = Ok tt
  /\ upgrader run.1.2 = upgrader s
  /\ Forall machine_patch_event run.2.
Proof.
  intros Hname.
  apply generateReplacementMachineName_shape in Hname as (root & Hname & _).
  assert (forall m s0,
             Machine.Name m = Machine.Name machine ->
             upgrader s0 = upgrader s ->
             processMachine m s0 = (Ok tt, s0, [])) as Hskip.
  { intros m s0 Hm Hu. unfold processMachine.
    rewrite bind_run, get_u_run. cbv zeta.
    destruct (negb _); [destruct s0; reflexivity|].
    unfold replaceMachine. rewrite bind_run, get_u_run.
    rewrite Hm, Hu, Hname, HasSuffix_append. destruct s0; reflexivity. }
  cbv zeta. unfold updateMachines_body. rewrite bind_run, get_u_run.
  destruct (Machine.ProviderID _); [|repeat split; constructor].
  cbv zeta. destruct (String.eqb _ "").
  - rewrite bind_run, call_run. cbn [fst snd].
    destruct (perform _ _ (world s)) as [[e|] w]; simpl.
    + repeat split. constructor; [|constructor]. left. eauto.
    + rewrite bind_run, call_run. cbn [fst snd].
      match goal with |- context [perform ?T ?c ?w0] =>
        destruct (perform T c w0) as [[e|] w'] end; simpl.
      * repeat split. constructor; [left; eauto|].
        constructor; [right; eauto | constructor].
      * rewrite Hskip by reflexivity. simpl. repeat split.
        constructor; [left; eauto|].
        constructor; [right; eauto | constructor].
  - rewrite Hskip by reflexivity. simpl. repeat split. constructor.
Qed.

End SkipReplacementFacts.

Lemma updateMachines_body_skips_replacement_witness :
  generateReplacementMachineName "cp-0" "100" = Some "cp-0.upgrade.100"
  /\ (updateMachines_body
        (machine_with_version "cp-0.upgrade.100" (Some "v1.16.3"))
        (Example.start Example.rolling)).1.1 = Ok tt
  /\ Forall machine_patch_event
       (updateMachines_body
          (machine_with_version "cp-0.upgrade.100" (Some "v1.16.3"))
          (Example.start Example.rolling)).2.
Proof.
  pose proof (updateMachines_body_skips_replacement "cp-0"
                (machine_with_version "cp-0.upgrade.100" (Some "v1.16.3"))
                (Example.start Example.rolling) eq_refl) as Hskip.
  cbv zeta in Hskip. destruct Hskip as (Hok & _ & Hev).
  split; [reflexivity|]. split; [exact Hok | exact Hev].
Defined.

(** ** Stepping through a run *)

Section RunFacts.

Context {W : Type} `{!Cluster W} `{!Libraries}.

Lemma fail_run {A} (e : error) (s : State W) :
  (fail e : M W A) s = (Err e, s, []).
Proof. reflexivity. Qed.

Lemma panic_run {A} (s : State W) : (panic : M W A) s = (Panic, s, []).
Proof. reflexivity. Qed.

Lemma modify_u_run f (s : State W) :
  modify_u f s
  = (Ok tt, {| upgrader := f (upgrader s); world := world s |}, []).
Proof. reflexivity. Qed.

Lemma wrapf_run {A} (m : M W A) format args (s : State W) :
  wrapf m format args s
  = match m s return result A * State W * list Event with
    | (Err e, s', t) => (Err (Wrapf e format args), s', t)
    | r => r
    end.
Proof. reflexivity. Qed.

End RunFacts.

Ltac run_step :=
  repeat progress
    (rewrite ?bind_run, ?call_run, ?get_u_run, ?ret_run, ?fail_run,
       ?panic_run, ?modify_u_run;
     cbn [fst snd upgrader world app ref_APIVersion ref_Kind ref_Namespace
          ref_Name key_Namespace key_Name];
     cbv beta iota).

Ltac run_perform :=
  match goal with
  | |- context [perform ?T ?c ?w] =>
      let reply := fresh "reply" in
      let w' := fresh "w" in
      destruct (perform T c w) as [reply w']; cbn [fst snd]
  end.

(** ** Fields of schema-free objects *)

Section NestedFieldFacts.

Implicit Types (obj : gmap string Value) (a b : string) (v : Value).

Lemma RemoveNestedField_gone obj a b :
  NestedField (VMap (RemoveNestedField obj [a; b])) [a; b] = None.
Proof.
  cbn [RemoveNestedField NestedField].
  destruct (obj !! a) as [[| | | | |x]|] eqn:E; rewrite ?E; simpl;
    try reflexivity.
  rewrite lookup_insert_eq. simpl. now rewrite lookup_delete_eq.
Qed.

Lemma RemoveNestedField_top obj a b k :
  k <> a -> RemoveNestedField obj [a; b] !! k = obj !! k.
Proof.
  intros Hk. cbn [RemoveNestedField].
  destruct (obj !! a) as [[| | | | |x]|]; try reflexivity.
  now apply lookup_insert_ne.
Qed.

Lemma RemoveNestedField_other obj a b a' b' :
  (a', b') <> (a, b) ->
  NestedField (VMap (RemoveNestedField obj [a; b])) [a'; b']
  = NestedField (VMap obj) [a'; b'].
Proof.
  intros Hne. cbn [NestedField].
  destruct (decide (a' = a)) as [->|Ha];
    [|now rewrite RemoveNestedField_top].
  cbn [RemoveNestedField].
  destruct (obj !! a) as [[| | | | |x]|] eqn:E; rewrite ?E; try reflexivity.
  rewrite lookup_insert_eq. simpl.
  rewrite lookup_delete_ne by congruence. reflexivity.
Qed.

Lemma RemoveNestedField_map_or_absent obj a b k :
  map_or_absent obj k -> map_or_absent (RemoveNestedField obj [a; b]) k.
Proof.
  unfold map_or_absent. destruct (decide (k = a)) as [->|Hk];
    [|now rewrite RemoveNestedField_top].
  cbn [RemoveNestedField].
  destruct (obj !! a) as [[| | | | |x]|] eqn:E; rewrite ?E; try easy.
  now rewrite lookup_insert_eq.
Qed.

Lemma setNestedField_set obj v a b :
  map_or_absent obj a ->
  NestedField (VMap (setNestedField obj v [a; b])) [a; b] = Some v.
Proof.
  unfold map_or_absent. cbn [setNestedField NestedField].
  destruct (obj !! a) as [[| | | | |x]|] eqn:E; try easy; intros _;
    rewrite lookup_insert_eq; simpl; now rewrite lookup_insert_eq.
Qed.

Lemma setNestedField_top obj v a b k :
  k <> a -> setNestedField obj v [a; b] !! k = obj !! k.
Proof.
  intros Hk. cbn [setNestedField].
  destruct (obj !! a) as [[| | | | |x]|]; try reflexivity;
    now apply lookup_insert_ne.
Qed.

Lemma setNestedField_other obj v a b a' b' :
  (a', b') <> (a, b) ->
  NestedField (VMap (setNestedField obj v [a; b])) [a'; b']
  = NestedField (VMap obj) [a'; b'].
Proof.
  intros Hne. cbn [NestedField].
  destruct (decide (a' = a)) as [->|Ha];
    [|now rewrite setNestedField_top].
  cbn [setNestedField].
  destruct (obj !! a) as [[| | | | |x]|] eqn:E; rewrite ?E; try reflexivity.
  - rewrite lookup_insert_eq. simpl.
    rewrite lookup_insert_ne by congruence. reflexivity.
  - rewrite lookup_insert_eq. simpl.
    rewrite lookup_insert_ne by congruence. reflexivity.
Qed.

Lemma setNestedField_map_or_absent obj v a b k :
  map_or_absent obj k -> map_or_absent (setNestedField obj v [a; b]) k.
Proof.
  unfold map_or_absent. destruct (decide (k = a)) as [->|Hk];
    [|now rewrite setNestedField_top].
  cbn [setNestedField].
  destruct (obj !! a) as [[| | | | |x]|] eqn:E; rewrite ?E; try easy;
    now rewrite lookup_insert_eq.
Qed.

End NestedFieldFacts.

(** ** The replacement's infrastructure object *)

Section InfrastructureFacts.

Context {W : Type} `{!Cluster W} `{!Libraries}.

(** What the four resets of [updateInfrastructureReference] make of the
    original object. *)
Lemma infrastructure_copy_fields (name : string) (original : Unstructured.t) :
  let obj :=
    RemoveNestedField
      (Unstructured.SetOwnerReferences_nil
         (Unstructured.SetName name
            (Unstructured.SetResourceVersion "" original)))
      ["spec"; "providerID"] in
  NestedField (VMap obj) ["spec"; "providerID"] = None
  /\ NestedField (VMap obj) ["metadata"; "resourceVersion"] = None
  /\ NestedField (VMap obj) ["metadata"; "ownerReferences"] = None
  /\ (name <> "" -> map_or_absent original "metadata" ->
      NestedField (VMap obj) ["metadata"; "name"] = Some (VString name))
  /\ (forall a b,
        ~ In (a, b) infrastructure_reset_fields ->
        NestedField (VMap obj) [a; b] = NestedField (VMap original) [a; b])
  /\ (forall k, k <> "metadata" -> k <> "spec" -> obj !! k = original !! k).
Proof.
  cbv zeta. unfold Unstructured.SetOwnerReferences_nil, Unstructured.SetName,
    Unstructured.SetResourceVersion.
  change (String.eqb "" "") with true. cbv iota.
  split; [apply RemoveNestedField_gone|].
  split.
  { rewrite !RemoveNestedField_other by congruence.
    destruct (String.eqb name "").
    - rewrite RemoveNestedField_other by congruence.
      apply RemoveNestedField_gone.
    - rewrite setNestedField_other by congruence.
      apply RemoveNestedField_gone. }
  split.
  { rewrite RemoveNestedField_other by congruence.
    apply RemoveNestedField_gone. }
  split.
  { intros Hname Hmeta. apply String.eqb_neq in Hname. rewrite Hname.
    rewrite !RemoveNestedField_other by congruence.
    apply setNestedField_set. now apply RemoveNestedField_map_or_absent. }
  split.
  { intros a b Hab. unfold infrastructure_reset_fields in Hab. simpl in Hab.
    rewrite !RemoveNestedField_other by (intros [= -> ->]; apply Hab; auto 6).
    destruct (String.eqb name "").
    - rewrite !RemoveNestedField_other by (intros [= -> ->]; apply Hab; auto 6). reflexivity.
    - rewrite setNestedField_other by (intros [= -> ->]; apply Hab; auto 6).
      rewrite RemoveNestedField_other by (intros [= -> ->]; apply Hab; auto 6). reflexivity. }
  intros k Hm Hs.
  rewrite !RemoveNestedField_top by congruence.
  destruct (String.eqb name "").
  - rewrite !RemoveNestedField_top by congruence. reflexivity.
  - rewrite setNestedField_top by congruence.
    rewrite RemoveNestedField_top by congruence. reflexivity.
Qed.

(** [updateInfrastructureReference] creates an object only after it has
    looked for the replacement and found none, and has read the original;
    then it creates one object and nothing follows.  The object created
    has no [spec.providerID], no [metadata.resourceVersion] and no
    [metadata.ownerReferences], it goes by the replacement's name, and
    every other field at depth two, as every other top-level field, is
    that of the original.  The upgrader stays as it was. *)
Theorem updateInfrastructureReference_copy (replacementKey : ObjectKey)
  (ref : ObjectReference) (s : State W) :
  let run := updateInfrastructureReference replacementKey ref s in
  let probe :=
    MgmtGetObject (ref_APIVersion ref) (ref_Kind ref)
      {| key_Namespace := key_Namespace replacementKey;
         key_Name := key_Name replacementKey |} in
  let fetch :=
    MgmtGetObject (ref_APIVersion ref) (ref_Kind ref)
      {| key_Namespace := clusterNamespace (upgrader s);
         key_Name := ref_Name ref |} in
  upgrader run.1.2 = upgrader s
  /\ forall ev obj reply,
       In ev run.2 ->
       event_create_object ev = Some (obj, reply) ->
       (exists err original,
           run.2 = [Ev probe (inl err); Ev fetch (inr original);
                    Ev (MgmtCreateObject obj) reply]
           /\ IsNotFound err = true
           /\ (key_Name replacementKey <> "" ->
               map_or_absent original "metadata" ->
               NestedField (VMap obj) ["metadata"; "name"]
               = Some (VString (key_Name replacementKey)))
           /\ (forall a b,
                 ~ In (a, b) infrastructure_reset_fields ->
                 NestedField (VMap obj) [a; b]
                 = NestedField (VMap original) [a; b])
           /\ (forall k, k <> "metadata" -> k <> "spec" ->
                         obj !! k = original !! k))
       /\ NestedField (VMap obj) ["spec"; "providerID"] = None
       /\ NestedField (VMap obj) ["metadata"; "resourceVersion"] = None
       /\ NestedField (VMap obj) ["metadata"; "ownerReferences"] = None
       /\ run.1.1 = match reply with
                    | None => Ok tt
                    | Some err => Err (WithStack err)
                    end.
Proof.
  cbv zeta. unfold updateInfrastructureReference, resourceExists.
  run_step. run_perform. destruct reply as [err|found]; run_step.
  2:{ split; [reflexivity|]. intros ev obj reply [<-|[]]. discriminate. }
  destruct (IsNotFound err) eqn:Hnf; run_step.
  2:{ split; [reflexivity|]. intros ev obj reply [<-|[]]. discriminate. }
  unfold external_Get. run_step. run_perform.
  destruct reply as [e|original]; run_step.
  { split; [reflexivity|]. intros ev obj reply [<-|[<-|[]]]; discriminate. }
  run_perform.
  pose proof (infrastructure_copy_fields (key_Name replacementKey) original)
    as Hcopy.
  cbv zeta in Hcopy. destruct Hcopy as (Hp & Hr & Ho & Hn & Hf & Hk).
  destruct reply as [e|]; run_step; (split; [reflexivity|]);
    intros ev obj reply [<-|[<-|[<-|[]]]]; try discriminate;
    intros [= <- <-]; (split; [eauto 10|auto]).
Qed.

End InfrastructureFacts.

(** ** The replacement's bootstrap config *)

Section BootstrapFacts.

Context {W : Type} `{!Cluster W} `{!Libraries}.

(** [updateBootstrapConfig] creates a bootstrap config only after it has
    looked for the replacement's and found none, and has read the
    original's.  The config created goes by the replacement's name, has
    no resource version and no owners, never initializes a cluster and
    always joins one: with the node registration of the original's init
    configuration if it had one, else with that of its join
    configuration; and as a control-plane node where the original had no
    join configuration. *)
Theorem updateBootstrapConfig_joins (replacementKey : ObjectKey)
  (configName : string) (s : State W) :
  let run := updateBootstrapConfig replacementKey configName s in
  let probe :=
    MgmtGetObject bootstrapv1_GroupVersion "KubeadmConfig"
      {| key_Namespace := key_Namespace replacementKey;
         key_Name := key_Name replacementKey |} in
  let fetch :=
    MgmtGetKubeadmConfig
      {| key_Namespace := clusterNamespace (upgrader s);
         key_Name := configName |} in
  forall ev config reply,
    In ev run.2 ->
    event_create_kubeadmconfig ev = Some (config, reply) ->
    exists err original rest join,
      run.2 = Ev probe (inl err) :: Ev fetch (inr original) :: ev :: rest
      /\ IsNotFound err = true
      /\ Forall (fun ev => event_create_kubeadmconfig ev = None) rest
      /\ KubeadmConfig.Name config = key_Name replacementKey
      /\ KubeadmConfig.Namespace config = KubeadmConfig.Namespace original
      /\ KubeadmConfig.ResourceVersion config = ""
      /\ KubeadmConfig.OwnerReferences config = None
      /\ KubeadmConfig.InitConfiguration_ config = None
      /\ KubeadmConfig.JoinConfiguration_ config = Some join
      /\ KubeadmConfig.join_NodeRegistration join
         = match KubeadmConfig.InitConfiguration_ original,
                 KubeadmConfig.JoinConfiguration_ original with
           | Some init, _ => KubeadmConfig.init_NodeRegistration init
           | None, Some join0 => KubeadmConfig.join_NodeRegistration join0
           | None, None => KubeadmConfig.NodeRegistrationOptions_zero
           end
      /\ match KubeadmConfig.JoinConfiguration_ original with
         | Some join0 =>
             KubeadmConfig.join_CACertPath join
             = KubeadmConfig.join_CACertPath join0
             /\ KubeadmConfig.join_ControlPlane join
                = KubeadmConfig.join_ControlPlane join0
         | None => KubeadmConfig.join_ControlPlane join = Some tt
         end.
Proof.
  cbv zeta. intros ev config reply.
  unfold updateBootstrapConfig, resourceExists.
  run_step. run_perform. destruct reply0 as [err|found]; run_step.
  2:{ intros [<-|[]]. discriminate. }
  destruct (IsNotFound err) eqn:Hnf; run_step.
  2:{ intros [<-|[]]. discriminate. }
  run_perform. destruct reply0 as [e|original]; run_step.
  { intros [<-|[<-|[]]]; discriminate. }
  run_perform.
  set (rest := match reply0 with inl _ => _ | inr _ => _ end).
  assert (within any_upgrader
            (fun ev => event_create_kubeadmconfig ev = None) rest) as Hrest.
  { unfold rest. within_auto;
      first [ apply within_call; within_side; reflexivity
            | now apply within_modify_u ]. }
  destruct (Hrest {| upgrader := upgrader s; world := w1 |}) as [_ Hnone].
  destruct (rest _) as [[r2 s2] t2]. cbn [fst snd] in *.
  intros [<-|[<-|[<-|Hin]]]; try discriminate.
  - intros [= <- <-].
    exists err, original, t2.
    unfold replacementBootstrap_of. cbn [KubeadmConfig.JoinConfiguration_].
    eexists. split; [reflexivity|]. split; [exact Hnf|].
    split; [exact Hnone|]. cbn.
    repeat split; destruct (KubeadmConfig.InitConfiguration_ original),
      (KubeadmConfig.JoinConfiguration_ original); auto.
  - intros Hev. rewrite List.Forall_forall in Hnone.
    rewrite (Hnone ev Hin) in Hev. discriminate.
Qed.

Lemma ownSecret_within u bootstrap secretName :
  within eq (fun _ => True) (ownSecret u bootstrap secretName : M W unit).
Proof.
  unfold ownSecret. within_auto; now apply within_call; within_side.
Qed.

Lemma ownSecrets_run u bootstrap (names : list string) :
  forall (s s' : State W) t,
    forM_ names (ownSecret u bootstrap) s = (Ok tt, s', t) ->
    upgrader s' = upgrader s
    /\ exists secrets,
         length secrets = length names
         /\ t = secret_events bootstrap
                  (zip ((fun name => {| key_Namespace := clusterNamespace u;
                                        key_Name := name |}) <$> names)
                     secrets).
Proof.
  induction names as [|name names IH]; intros s s' t.
  - intros [= <- <-]. split; [reflexivity|]. now exists [].
  - cbn [forM_]. intros Hrun.
    apply bind_inv in Hrun
        as [([] & s1 & t1 & t2 & H1 & H2 & ->)|(r0 & _ & _ & Hno)];
      [|now destruct (Hno tt)].
    apply IH in H2 as (Eu & secrets & Hlen & ->).
    revert H1. unfold ownSecret. run_step. run_perform.
    destruct reply as [e|secret]; run_step; [discriminate|].
    run_perform. destruct reply as [e|]; run_step; [discriminate|].
    run_perform. destruct reply as [e|]; run_step; [discriminate|].
    intros [= <- <-]. split; [exact Eu|].
    exists (secret :: secrets). split; [simpl; lia | reflexivity].
Qed.

(** When [updateBootstrapConfig] returns without error it has done one of
    three things.  It found the replacement's bootstrap config and did
    nothing else, also no hand-over of the secrets.  Or it created the
    config while the upgrader had handed the secrets over before, and
    left them alone.  Or it created the config and then, for the
    cluster's four secrets in the order ca, etcd, sa, proxy, read the
    secret and replaced its owners by the config as the server returned
    it; only then does the upgrader record the hand-over.  When it
    returns an error the upgrader is as it was. *)
Theorem updateBootstrapConfig_secrets (replacementKey : ObjectKey)
  (configName : string) (s : State W) :
  let run := updateBootstrapConfig replacementKey configName s in
  let probe :=
    MgmtGetObject bootstrapv1_GroupVersion "KubeadmConfig"
      {| key_Namespace := key_Namespace replacementKey;
         key_Name := key_Name replacementKey |} in
  let fetch :=
    MgmtGetKubeadmConfig
      {| key_Namespace := clusterNamespace (upgrader s);
         key_Name := configName |} in
  match run.1.1 with
  | Ok _ =>
      (exists found,
          run.2 = [Ev probe (inr found)] /\ upgrader run.1.2 = upgrader s)
      \/ exists err original bootstrap,
           let created :=
             [Ev probe (inl err); Ev fetch (inr original);
              Ev (MgmtCreateKubeadmConfig
                    (replacementBootstrap_of replacementKey original))
                (inr bootstrap)] in
           IsNotFound err = true
           /\ if secretsUpdated (upgrader s)
              then run.2 = created /\ upgrader run.1.2 = upgrader s
              else
                upgrader run.1.2 = set_secretsUpdated true (upgrader s)
                /\ exists secrets,
                     length secrets = 4%nat
                     /\ run.2
                        = created
                          ++ secret_events bootstrap
                               (zip (clusterSecretKeys (upgrader s)) secrets)
  | _ => upgrader run.1.2 = upgrader s
  end.
Proof.
  cbv zeta. unfold updateBootstrapConfig, resourceExists.
  run_step. run_perform. destruct reply as [err|found]; run_step.
  2:{ left. eauto. }
  destruct (IsNotFound err) eqn:Hnf; run_step; [|reflexivity].
  run_perform. destruct reply as [e|original]; run_step; [reflexivity|].
  run_perform. destruct reply as [e|bootstrap]; run_step; [reflexivity|].
  destruct (secretsUpdated (upgrader s)) eqn:Hflag; run_step.
  { right. exists err, original, bootstrap. auto. }
  change (forM_ ?names _) with (forM_ names (ownSecret (upgrader s) bootstrap)).
  pose proof (within_forM_ eq (fun _ => True)
                [clusterName (upgrader s) +:+ "-ca";
                 clusterName (upgrader s) +:+ "-etcd";
                 clusterName (upgrader s) +:+ "-sa";
                 clusterName (upgrader s) +:+ "-proxy"]
                (ownSecret (upgrader s) bootstrap)
                (ownSecret_within (upgrader s) bootstrap)
                {| upgrader := upgrader s; world := w1 |}) as [Hu _].
  destruct (forM_ _ _ _) as [[[[]|e|] s2] t2] eqn:Hloop;
    run_step; cbn [fst snd upgrader] in Hu; [|now symmetry..].
  apply ownSecrets_run in Hloop as (Eu & secrets & Hlen & ->).
  right. exists err, original, bootstrap.
  split; [exact Hnf|]. split; [now rewrite Eu|].
  exists secrets. split; [exact Hlen|]. now rewrite app_nil_r.
Qed.

End BootstrapFacts.

(** ** The replacement Machine *)

Section ReplacementMachineFacts.

Context {W : Type} `{!Cluster W} `{!Libraries}.

Lemma updateMachine_parts (replacementKey : ObjectKey) (machine : Machine.t) :
  updateMachine replacementKey machine
  = match Machine.ProviderID (Machine.Spec machine) with
    | None => panic
    | Some machineProviderID =>
    match NewProviderID machineProviderID with
    | inl err => fail err
    | inr originalProviderID =>
    u ← get_u;
    match GetNodeFromProviderID u (ProviderID.ID originalProviderID) with
    | None =>
        fail (Errorf "unknown previous node %q"
                [ProviderID.String_ originalProviderID])
    | Some oldNode =>
    exists_ ← resourceExists
                {| ref_APIVersion := clusterv1_GroupVersion;
                   ref_Kind := "Machine";
                   ref_Namespace := key_Namespace replacementKey;
                   ref_Name := key_Name replacementKey |};
    (if negb exists_ then
       match replacementMachine_of replacementKey
               (Version_String (desiredVersion u)) machine with
       | None => panic
       | Some replacementMachine =>
           r ← call (MgmtCreateMachine replacementMachine);
           match r with
           | Some err =>
               fail (Wrapf err "Error creating machine: %s"
                       [Machine.Name replacementMachine])
           | None => mret tt
           end
       end
     else
       r ← call (MgmtGetMachine replacementKey);
       match r with
       | inl err =>
           fail (Wrapf err "error getting replacement machine %s"
                   [ObjectKey_String replacementKey])
       | inr _ => mret tt
       end);;
    awaitReplacement replacementKey (hostnameForNode oldNode) machine u
    end end end.
Proof. reflexivity. Qed.

Section AwaitFootprint.

Context (R : relation ControlPlaneUpgrader) (P : Event -> Prop).
Context `{!Reflexive R} `{!Transitive R}.

Lemma within_removeAndDelete oldHostName machine :
  (forall selector reply, P (Ev (TargetListPods selector) reply)) ->
  (forall timeout input reply, P (Ev (PodExec timeout input) reply)) ->
  (forall reply, P (Ev (MgmtDeleteMachine machine) reply)) ->
  within R P (removeAndDelete oldHostName machine : M W _).
Proof.
  intros Hlist Hexec Hdelete. unfold removeAndDelete.
  apply within_bind; within_side; [within_auto|]. intros u.
  apply within_bind; within_side.
  - destruct (negb _); [|within_auto].
    apply within_wrapf. apply within_deleteEtcdMember; within_side; auto.
  - intros _. within_auto. now apply within_call; within_side.
Qed.

Lemma within_awaitReplacement replacementKey oldHostName machine u :
  (forall u pairs, R u (set_providerIDsToNodes pairs u)) ->
  (forall key reply, P (Ev (MgmtGetMachine key) reply)) ->
  (forall interval timeout ticks, P (Ev (PollerTicks interval timeout) ticks)) ->
  (forall reply, P (Ev TargetListNodes reply)) ->
  (forall name reply, P (Ev (TargetGetPod name) reply)) ->
  (forall selector reply, P (Ev (TargetListPods selector) reply)) ->
  (forall timeout input reply, P (Ev (PodExec timeout input) reply)) ->
  (forall reply, P (Ev (MgmtDeleteMachine machine) reply)) ->
  within R P (awaitReplacement replacementKey oldHostName machine u : M W _).
Proof.
  intros Hset Hget Hticks Hnodes Hpod Hpods Hexec Hdelete.
  unfold awaitReplacement.
  apply within_bind; within_side;
    [now apply within_waitForProviderID; within_side|]. intros newProviderID.
  apply within_bind; within_side;
    [now apply within_waitForMatchingNode; within_side|]. intros node.
  apply within_bind; within_side;
    [now apply within_waitForNodeReady; within_side|]. intros _.
  apply within_bind; within_side;
    [now apply within_UpdateProviderIDsToNodes; within_side|]. intros _.
  now apply within_removeAndDelete; within_side.
Qed.

End AwaitFootprint.

(** [updateMachine] creates at most one Machine, and only right after it
    has looked for the replacement and found none.  The Machine created
    is the old one with the replacement's name for itself, for its
    infrastructure object and for its bootstrap config, with the desired
    version, and without resource version, provider id and bootstrap
    data; it keeps the old Machine's namespace and annotations, the
    upgrade-id among them. *)
Theorem updateMachine_replacement (replacementKey : ObjectKey)
  (machine : Machine.t) (s : State W) :
  let run := updateMachine replacementKey machine s in
  let probe :=
    MgmtGetObject clusterv1_GroupVersion "Machine"
      {| key_Namespace := key_Namespace replacementKey;
         key_Name := key_Name replacementKey |} in
  forall ev created,
    In ev run.2 ->
    event_create_machine ev = Some created ->
    exists err rest configRef,
      run.2 = Ev probe (inl err) :: ev :: rest
      /\ IsNotFound err = true
      /\ Forall (fun ev => event_create_machine ev = None) rest
      /\ replacementMachine_of replacementKey
           (Version_String (desiredVersion (upgrader s))) machine
         = Some created
      /\ Machine.Name created = key_Name replacementKey
      /\ Machine.Namespace created = Machine.Namespace machine
      /\ Machine.Annotations created = Machine.Annotations machine
      /\ Machine.ResourceVersion created = ""
      /\ Machine.ProviderID (Machine.Spec created) = None
      /\ Machine.Version (Machine.Spec created)
         = Some (Version_String (desiredVersion (upgrader s)))
      /\ Machine.Data (Machine.Bootstrap_ (Machine.Spec created)) = None
      /\ ref_Name (Machine.InfrastructureRef (Machine.Spec created))
         = key_Name replacementKey
      /\ Machine.ConfigRef (Machine.Bootstrap_ (Machine.Spec created))
         = Some configRef
      /\ ref_Name configRef = key_Name replacementKey.
Proof.
  cbv zeta. intros ev created. rewrite updateMachine_parts.
  destruct (Machine.ProviderID (Machine.Spec machine)) as [providerID|];
    [|intros []].
  destruct (NewProviderID providerID) as [e|originalProviderID]; [intros []|].
  run_step.
  destruct (GetNodeFromProviderID _ _) as [oldNode|]; [|intros []].
  unfold resourceExists. run_step. run_perform.
  assert (forall st,
             Forall (fun ev => event_create_machine ev = None)
               (awaitReplacement replacementKey (hostnameForNode oldNode)
                  machine (upgrader s) st).2) as Hrest.
  { intros st.
    apply (within_awaitReplacement any_upgrader
             (fun ev => event_create_machine ev = None));
      intros; reflexivity. }
  destruct reply as [err|found]; run_step.
  - destruct (IsNotFound err) eqn:Hnf; run_step.
    2:{ intros [<-|[]]. discriminate. }
    cbn [negb]. cbv iota.
    destruct (replacementMachine_of _ _ _) as [replacementMachine|] eqn:Hrm;
      run_step.
    2:{ intros [<-|[]]. discriminate. }
    assert (exists configRef,
               Machine.ConfigRef
                 (Machine.Bootstrap_ (Machine.Spec replacementMachine))
               = Some configRef
               /\ ref_Name configRef = key_Name replacementKey
               /\ Machine.Name replacementMachine = key_Name replacementKey
               /\ Machine.Namespace replacementMachine
                  = Machine.Namespace machine
               /\ Machine.Annotations replacementMachine
                  = Machine.Annotations machine
               /\ Machine.ResourceVersion replacementMachine = ""
               /\ Machine.ProviderID (Machine.Spec replacementMachine) = None
               /\ Machine.Version (Machine.Spec replacementMachine)
                  = Some (Version_String (desiredVersion (upgrader s)))
               /\ Machine.Data
                    (Machine.Bootstrap_ (Machine.Spec replacementMachine))
                  = None
               /\ ref_Name
                    (Machine.InfrastructureRef (Machine.Spec replacementMachine))
                  = key_Name replacementKey) as Hfields.
    { revert Hrm. unfold replacementMachine_of.
      destruct (Machine.ConfigRef _) as [configRef|]; [|discriminate].
      cbn. intros [= <-]. cbn. eexists. repeat split. }
    destruct Hfields as (configRef & Hc & Hcn & Hn & Hns & Ha & Hrv & Hp & Hv
                         & Hd & Hi).
    run_perform. destruct reply as [e|]; run_step.
    { intros [<-|[<-|[]]]; [discriminate|]. intros [= <-].
      exists err, [], configRef. repeat split; auto. }
    specialize (Hrest {| upgrader := upgrader s; world := w0 |}).
    destruct (awaitReplacement _ _ _ _ _) as [[r2 s2] t2].
    cbn [fst snd] in *.
    intros [<-|[<-|Hin]]; [discriminate| |].
    + intros [= <-]. exists err, t2, configRef. repeat split; auto.
    + intros Hev. rewrite List.Forall_forall in Hrest.
      rewrite (Hrest ev Hin) in Hev. discriminate.
  - cbn [negb]. cbv iota. run_step. run_perform.
    destruct reply as [e|replacement]; run_step.
    { intros [<-|[<-|[]]]; discriminate. }
    specialize (Hrest {| upgrader := upgrader s; world := w0 |}).
    destruct (awaitReplacement _ _ _ _ _) as [[r2 s2] t2].
    cbn [fst snd] in *.
    intros [<-|[<-|Hin]]; [discriminate..|].
    intros Hev. rewrite List.Forall_forall in Hrest.
    rewrite (Hrest ev Hin) in Hev. discriminate.
Qed.

End ReplacementMachineFacts.

Lemma updateBootstrapConfig_joins_witness :
  let key := {| key_Namespace := "default"; key_Name := "cp-0.upgrade.100" |} in
  let config := replacementBootstrap_of key (Example.kubeadmConfig_of "cp-0") in
  let ev := Ev (MgmtCreateKubeadmConfig config) (inr config) in
  In ev (updateBootstrapConfig key "cp-0" (Example.start Example.rolling)).2
  /\ event_create_kubeadmconfig ev = Some (config, inr config)
  /\ KubeadmConfig.InitConfiguration_ config = None
  /\ exists join,
       KubeadmConfig.JoinConfiguration_ config = Some join
       /\ KubeadmConfig.join_ControlPlane join = Some tt.
Proof.
  cbv zeta.
  set (key := {| key_Namespace := "default"; key_Name := "cp-0.upgrade.100" |}).
  set (config := replacementBootstrap_of key (Example.kubeadmConfig_of "cp-0")).
  assert (In (Ev (MgmtCreateKubeadmConfig config) (inr config))
            (updateBootstrapConfig key "cp-0"
               (Example.start Example.rolling)).2) as Hin.
  { vm_compute. right. right. left. reflexivity. }
  split; [exact Hin|]. split; [reflexivity|].
  destruct (updateBootstrapConfig_joins key "cp-0"
              (Example.start Example.rolling) _ config (inr config) Hin
              eq_refl)
    as (err & original & rest & join & _ & _ & _ & _ & _ & _ & _ & Hinit
        & Hjoin & _).
  split; [exact Hinit|]. exists join. split; [exact Hjoin|].
  vm_compute in Hjoin. injection Hjoin as <-. reflexivity.
Defined.

Lemma updateMachine_replacement_witness :
  let key := {| key_Namespace := "default"; key_Name := "cp-0.upgrade.100" |} in
  exists created,
    In (Ev (MgmtCreateMachine created) None)
      (updateMachine key Example.cp0 (Example.start Example.rolling)).2
    /\ Machine.Name created = "cp-0.upgrade.100"
    /\ Machine.Version (Machine.Spec created) = Some "1.16.3"
    /\ Machine.ProviderID (Machine.Spec created) = None.
Proof.
  cbv zeta.
  set (key := {| key_Namespace := "default"; key_Name := "cp-0.upgrade.100" |}).
  destruct (replacementMachine_of key "1.16.3" Example.cp0)
    as [created|] eqn:Hcreated; [|discriminate Hcreated].
  assert (In (Ev (MgmtCreateMachine created) None)
            (updateMachine key Example.cp0
               (Example.start Example.rolling)).2) as Hin.
  { injection Hcreated as <-. vm_compute. right. left. reflexivity. }
  exists created. split; [exact Hin|].
  destruct (updateMachine_replacement key Example.cp0
              (Example.start Example.rolling) _ created Hin eq_refl)
    as (err & rest & configRef & _ & _ & _ & _ & Hn & _ & _ & _ & Hp & Hv & _).
  split; [exact Hn|]. split; [exact Hv | exact Hp].
Defined.

(** ** Outcomes of the kubeadm configmap update *)

Section KubeadmOutcomes.

Context `{!YAML}.

(** [updateKubeadmKubernetesVersion] never writes to a map that was in
    the store, whatever its outcome.  The text it decodes is the entry
    [ClusterConfiguration] of the input's data, the empty text where the
    entry or the data map is missing.  It returns the decoding error or
    the encoding error, wrapped; with both steps done it panics when the
    input has no data map, the write going to a nil map, and otherwise
    returns a configmap whose data is the input's with the entry
    replaced by the encoded text. *)
Theorem updateKubeadmKubernetesVersion_outcomes (original : ConfigMap.t)
  (version : string) (h : MapStore) :
  let run := updateKubeadmKubernetesVersion original version h in
  let text := map_get (ConfigMap_data h original) "ClusterConfiguration" in
  (forall l, is_Some (h !! l) -> run.2 !! l = h !! l)
  /\ match yaml_Unmarshal text with
     | inl err =>
         run.1
         = Err (Wrapf err
                  "error decoding kubeadm configmap ClusterConfiguration" [])
     | inr clusterConfig =>
         match yaml_Marshal
                 (<["kubernetesVersion" := VString version]> clusterConfig)
         with
         | inl err =>
             run.1
             = Err (Wrapf err
                      "error encoding kubeadm configmap ClusterConfiguration"
                      [])
         | inr updated =>
             match ConfigMap.Data original with
             | None => run.1 = Panic
             | Some _ =>
                 exists cm,
                   run.1 = Ok cm
                   /\ ConfigMap_data run.2 cm
                      = <["ClusterConfiguration" := updated]>
                          (ConfigMap_data h original)
             end
         end
     end.
Proof.
  cbv zeta. unfold updateKubeadmKubernetesVersion, ConfigMap_DeepCopy.
  destruct (ConfigMap.Data original) as [l|] eqn:Hdata.
  - set (l' := fresh (dom h)).
    assert (h !! l' = None) as Hfresh by (apply not_elem_of_dom, is_fresh).
    assert (forall d : gmap string string,
               ConfigMap_data (<[l' := d]> h)
                 {| ConfigMap.Namespace := ConfigMap.Namespace original;
                    ConfigMap.Name := ConfigMap.Name original;
                    ConfigMap.ResourceVersion :=
                      ConfigMap.ResourceVersion original;
                    ConfigMap.Data := Some l' |} = d) as Hcopy.
    { intros d. unfold ConfigMap_data. cbn [ConfigMap.Data].
      now rewrite lookup_insert_eq. }
    rewrite Hcopy.
    assert (ConfigMap_data h original = default ∅ (h !! l)) as ->
        by (unfold ConfigMap_data; now rewrite Hdata).
    destruct (yaml_Unmarshal _) as [err|clusterConfig]; cbn [fst snd].
    { split; [|reflexivity]. intros l0 [d Hl0].
      apply lookup_insert_ne. congruence. }
    destruct (yaml_Marshal _) as [err|updated]; cbn [fst snd].
    { split; [|reflexivity]. intros l0 [d Hl0].
      apply lookup_insert_ne. congruence. }
    cbn [ConfigMap.Data fst snd]. split.
    + intros l0 [d Hl0]. rewrite !lookup_insert_ne by congruence. reflexivity.
    + eexists. split; [reflexivity|].
      unfold ConfigMap_data at 1. cbn [ConfigMap.Data].
      now rewrite lookup_insert_eq.
  - assert (ConfigMap_data h original = ∅) as ->
        by (unfold ConfigMap_data; now rewrite Hdata).
    destruct (yaml_Unmarshal _) as [err|clusterConfig]; cbn [fst snd];
      [auto|].
    destruct (yaml_Marshal _) as [err|updated]; cbn [fst snd]; [auto|].
    rewrite Hdata. auto.
Qed.

End KubeadmOutcomes.

(** ** Running the upgrade as a whole *)

Section UpgradeRunFacts.

Context {W : Type} `{!UpgradeCluster W} `{!Memory W}.
Context `{!Libraries} `{!YAML} `{!Semver}.

Lemma ubind_run {A B} (m : UM W A) (f : A -> UM W B) (s : State W) :
  (m ≫= f) s
  = match m s return result B * State W * list UpgradeEvent with
    | (Ok a, s', t) => let '(r, s'', t') := f a s' in (r, s'', t ++ t')
    | (Err e, s', t) => (Err e, s', t)
    | (Panic, s', t) => (Panic, s', t)
    end.
Proof. reflexivity. Qed.

Lemma uret_run {A} (a : A) (s : State W) :
  (mret a : UM W A) s = (Ok a, s, []).
Proof. reflexivity. Qed.

Lemma ufail_run {A} (e : error) (s : State W) :
  (ufail e : UM W A) s = (Err e, s, []).
Proof. reflexivity. Qed.

Lemma ucall_run {T} (c : UpgradeCall T) (s : State W) :
  ucall c s
  = (Ok (performUpgrade T c (world s)).1,
     {| upgrader := upgrader s; world := (performUpgrade T c (world s)).2 |},
     [UEv c (performUpgrade T c (world s)).1]).
Proof. unfold ucall. destruct (performUpgrade T c (world s)); reflexivity. Qed.

Lemma uget_u_run (s : State W) : uget_u s = (Ok (upgrader s), s, []).
Proof. reflexivity. Qed.

Lemma umodify_u_run f (s : State W) :
  umodify_u f s
  = (Ok tt, {| upgrader := f (upgrader s); world := world s |}, []).
Proof. reflexivity. Qed.

Lemma replacing_run {A} (m : M W A) (s : State W) :
  replacing m s = ((m s).1.1, (m s).1.2, replacing_event <$> (m s).2).
Proof. unfold replacing. now destruct (m s) as [[r s'] t]. Qed.

End UpgradeRunFacts.

Ltac urun_step :=
  repeat progress
    (rewrite ?ubind_run, ?ucall_run, ?uget_u_run, ?uret_run, ?ufail_run,
       ?umodify_u_run;
     cbn [fst snd upgrader world app];
     cbv beta iota).

Ltac urun_perform :=
  match goal with
  | |- context [performUpgrade ?T ?c ?w] =>
      let reply := fresh "reply" in
      let w' := fresh "w" in
      destruct (performUpgrade T c w) as [reply w']; cbn [fst snd]
  end.

Section UpgradeFootprint.

Context {W : Type} `{!UpgradeCluster W} `{!Memory W}.
Context `{!Libraries} `{!YAML} `{!Semver}.
Context (R : relation ControlPlaneUpgrader) (P : UpgradeEvent -> Prop).
Context `{!Reflexive R} `{!Transitive R}.

Lemma uwithin_ret {A} (a : A) : uwithin R P (mret a : UM W A).
Proof. intros s. split; [reflexivity | constructor]. Qed.

Lemma uwithin_fail {A} (e : error) : uwithin R P (ufail e : UM W A).
Proof. intros s. split; [reflexivity | constructor]. Qed.

Lemma uwithin_get_u : uwithin R P (uget_u : UM W _).
Proof. intros s. split; [reflexivity | constructor]. Qed.

Lemma uwithin_call {T} (c : UpgradeCall T) :
  (forall reply, P (UEv c reply)) -> uwithin R P (ucall c : UM W _).
Proof.
  intros Hc s. rewrite ucall_run. split; [reflexivity|].
  constructor; [apply Hc | constructor].
Qed.

Lemma uwithin_modify_u f :
  (forall u, R u (f u)) -> uwithin R P (umodify_u f : UM W _).
Proof. intros Hf s. split; [apply Hf | constructor]. Qed.

Lemma uwithin_memory {A} (f : MapStore -> result A * MapStore) :
  uwithin R P (memory f : UM W A).
Proof.
  intros s. unfold memory. destruct (f _) as [r h].
  split; [reflexivity | constructor].
Qed.

Lemma uwithin_bind {A B} (m : UM W A) (f : A -> UM W B) :
  uwithin R P m -> (forall a, uwithin R P (f a)) -> uwithin R P (m ≫= f).
Proof.
  intros Hm Hf s. rewrite ubind_run. specialize (Hm s).
  destruct (m s) as [[[a|e|] s1] t1]; simpl in *; [|exact Hm..].
  specialize (Hf a s1). destruct (f a s1) as [[r2 s2] t2]; simpl in *.
  destruct Hm, Hf. split; [etransitivity; eassumption|].
  now apply Forall_app.
Qed.

Lemma uwithin_replacing {A} (m : M W A) (Q : Event -> Prop) :
  (forall ev, Q ev -> P (replacing_event ev)) ->
  within R Q m -> uwithin R P (replacing m).
Proof.
  intros HQ Hm s. rewrite replacing_run. cbn [fst snd].
  destruct (Hm s) as [Hu Hev]. split; [exact Hu|].
  apply Forall_fmap. eapply Forall_impl; [exact Hev|]. exact HQ.
Qed.

End UpgradeFootprint.

Ltac uwithin_step :=
  first
    [ apply uwithin_ret; within_side | apply uwithin_fail; within_side
    | apply uwithin_get_u; within_side | apply uwithin_memory; within_side
    | apply uwithin_bind; [within_side..| |intros ?]
    | match goal with
      | |- uwithin _ _ (match ?x with _ => _ end) => destruct x
      | |- uwithin _ _ (if ?b then _ else _) => destruct b
      | |- uwithin _ _ (let '(_, _) := ?x in _) => destruct x
      end ].

Ltac uwithin_auto := repeat uwithin_step.

(** ** Access of the kubelets to their configmap *)

Section RbacFacts.

Context {W : Type} `{!UpgradeCluster W} `{!Memory W}.
Context `{!Libraries} `{!YAML} `{!Semver}.

(** [updateKubeletRbacIfNeeded] creates the role only right after its
    read of the role returned not-found, and the role binding only right
    after its read of the binding returned not-found.  Both go by the
    name [kubeadm:] followed by the name of the kubelet configmap of the
    version, the one [updateKubeletConfigMapIfNeeded] makes sure of; the
    role allows to get that one configmap, and the binding gives the
    role to the nodes and to the bootstrap tokens.  It returns without
    error exactly when it got as far as the role binding with no error
    other than a not-found of a read or an already-exists of a creation;
    it never panics and leaves the upgrader as it was. *)
Theorem updateKubeletRbacIfNeeded_grants (version : semver.Version)
  (s : State W) :
  let run := updateKubeletRbacIfNeeded version s in
  let configMap :=
    kubeletConfigMapName (semver.Major version) (semver.Minor version) in
  let name := "kubeadm:" +:+ configMap in
  upgrader run.1.2 = upgrader s
  /\ (forall ev role reply,
        In ev run.2 ->
        uevent_create_role ev = Some (role, reply) ->
        (exists err rest,
            run.2 = UEv (TargetGetRole name) (Some err) :: ev :: rest
            /\ IsNotFound err = true)
        /\ role
           = {| Role.Namespace := "kube-system";
                Role.Name := name;
                Role.Rules :=
                  [{| Role.Verbs := ["get"];
                      Role.APIGroups := [""];
                      Role.Resources := ["configmaps"];
                      Role.ResourceNames := [configMap] |}] |})
  /\ (forall ev binding reply,
        In ev run.2 ->
        uevent_create_rolebinding ev = Some (binding, reply) ->
        (exists before err,
            run.2 = before ++ [UEv (TargetGetRoleBinding name) (Some err); ev]
            /\ IsNotFound err = true)
        /\ binding
           = {| RoleBinding.Namespace := "kube-system";
                RoleBinding.Name := name;
                RoleBinding.Subjects :=
                  [{| RoleBinding.subject_APIGroup :=
                        "rbac.authorization.k8s.io";
                      RoleBinding.subject_Kind := "Group";
                      RoleBinding.subject_Name := "system:nodes" |};
                   {| RoleBinding.subject_APIGroup :=
                        "rbac.authorization.k8s.io";
                      RoleBinding.subject_Kind := "Group";
                      RoleBinding.subject_Name :=
                        "system:bootstrappers:kubeadm:default-node-token" |}];
                RoleBinding.RoleRef_ :=
                  {| RoleBinding.roleRef_APIGroup :=
                       "rbac.authorization.k8s.io";
                     RoleBinding.roleRef_Kind := "Role";
                     RoleBinding.roleRef_Name := name |} |})
  /\ match run.1.1 with
     | Ok _ => exists reply, In (UEv (TargetGetRoleBinding name) reply) run.2
     | Err e =>
         exists before (c : UpgradeCall (option error)) cause format,
           run.2 = before ++ [UEv c (Some cause)]
           /\ e = Wrapf cause format [name]
           /\ match c with
              | TargetGetRole _ | TargetGetRoleBinding _ =>
                  IsNotFound cause = false
              | TargetCreateRole _ | TargetCreateRoleBinding _ =>
                  IsAlreadyExists cause = false
              | _ => False
              end
     | Panic => False
     end.
Proof.
  cbv zeta. unfold updateKubeletRbacIfNeeded. cbv zeta.
  repeat
    (urun_step;
     first
       [ match goal with
         | |- context [performUpgrade ?T ?c ?w0] =>
             let reply := fresh "reply" in
             let w' := fresh "w" in
             let err := fresh "err" in
             destruct (performUpgrade T c w0) as [reply w']; cbn [fst snd];
             destruct reply as [err|]
         end
       | match goal with
         | |- context [if IsNotFound ?e then _ else _] =>
             destruct (IsNotFound e) eqn:?
         end
       | match goal with
         | |- context [if negb (IsAlreadyExists ?e) then _ else _] =>
             destruct (IsAlreadyExists e) eqn:?; cbn [negb]
         end ]).
  all: urun_step.
  all: split; [reflexivity|].
  all: split;
    [intros ev role reply Hin Hev; simpl in Hin;
     repeat (destruct Hin as [<-|Hin]; [try discriminate Hev|]);
     try contradiction;
     injection Hev as <- <-; (split; [eauto | reflexivity])|].
  all: split;
    [intros ev binding reply Hin Hev; simpl in Hin;
     repeat (destruct Hin as [<-|Hin]; [try discriminate Hev|]);
     try contradiction;
     injection Hev as <- <-;
     (split; [|reflexivity]);
     match goal with
     | |- exists before err, ?t = _ /\ _ =>
         exists (firstn (length t - 2) t); eexists;
         split; [reflexivity | assumption]
     end|].
  all: try (eexists; simpl; eauto 10; fail).
  all: match goal with
       | |- exists before c cause format, ?t = _ /\ _ =>
           exists (firstn (length t - 1) t); do 3 eexists;
           split; [reflexivity|]; split; [reflexivity | assumption]
       end.
Qed.

End RbacFacts.

(** ** The upgrade in two parts *)

Section UpgradePartsFacts.

Context {W : Type} `{!UpgradeCluster W} `{!Memory W}.
Context `{!Libraries} `{!YAML} `{!Semver}.

Lemma ubind_assoc {A B C} (m : UM W A) (f : A -> UM W B) (g : B -> UM W C)
  (s : State W) :
  ((m ≫= f) ≫= g) s = (m ≫= (fun a => f a ≫= g)) s.
Proof.
  rewrite !ubind_run. destruct (m s) as [[[a|e|] s1] t1]; [|reflexivity..].
  rewrite ubind_run.
  destruct (f a s1) as [[[b|e|] s2] t2]; [|reflexivity..].
  destruct (g b s2) as [[r3 s3] t3]. now rewrite app_assoc.
Qed.

Lemma ubind_ext {A B} (m : UM W A) (f g : A -> UM W B) (s : State W) :
  (forall a s', f a s' = g a s') -> (m ≫= f) s = (m ≫= g) s.
Proof.
  intros Hfg. rewrite !ubind_run.
  destruct (m s) as [[[a|e|] s1] t1]; [|reflexivity..]. now rewrite Hfg.
Qed.

Lemma ubind_ret_r {A} (m : UM W A) (s : State W) :
  (m ≫= mret) s = m s.
Proof.
  rewrite ubind_run. destruct (m s) as [[[a|e|] s1] t1]; [|reflexivity..].
  rewrite uret_run. now rewrite app_nil_r.
Qed.

Lemma ubind_fail {A B} (e : error) (f : A -> UM W B) (s : State W) :
  (ufail e ≫= f) s = ufail e s.
Proof. reflexivity. Qed.

Lemma ubind_ret_l {A B} (a : A) (f : A -> UM W B) (s : State W) :
  (mret a ≫= f) s = f a s.
Proof.
  rewrite ubind_run, uret_run. now destruct (f a s) as [[r s1] t1].
Qed.

Lemma Upgrade_parts (s : State W) :
  Upgrade s = (prepareUpgrade ≫= finishUpgrade) s.
Proof.
  unfold Upgrade, prepareUpgrade. rewrite ubind_assoc.
  apply ubind_ext. intros machines s1.
  destruct (length machines =? 0)%nat; [reflexivity|].
  destruct (minMaxControlPlaneVersions _ machines) as [[min max] [err|]];
    [reflexivity|].
  rewrite ubind_assoc. apply ubind_ext. intros u s2.
  rewrite ubind_assoc. apply ubind_ext. intros _ s3.
  rewrite ubind_assoc. apply ubind_ext. intros u' s4.
  rewrite ubind_assoc. apply ubind_ext. intros _ s5.
  rewrite ubind_assoc. apply ubind_ext. intros _ s6.
  rewrite ubind_assoc. apply ubind_ext. intros _ s7.
  rewrite ubind_assoc. apply ubind_ext. intros _ s8.
  now rewrite ubind_ret_l.
Qed.

End UpgradePartsFacts.

(** ** What the replacement of the Machines touches *)

#[global] Instance same_run_refl : Reflexive same_run.
Proof. now intros u. Qed.

#[global] Instance same_run_trans : Transitive same_run.
Proof. unfold same_run. intros u1 u2 u3 H12 H23. congruence. Qed.

Section MachinesFootprint.

Context {W : Type} `{!Cluster W} `{!Libraries}.
Context (R : relation ControlPlaneUpgrader) (P : Event -> Prop).
Context `{!Reflexive R} `{!Transitive R}.
Context (Hnodes : forall u pairs, R u (set_providerIDsToNodes pairs u)).
Context (Hsnapshot : forall u m, R u (set_oldNodeToEtcdMember m u)).
Context (Hsecrets : forall u b, R u (set_secretsUpdated b u)).
Context (HP : forall ev, configmap_event ev = false -> P ev).

Lemma within_oldNodeToEtcdMemberId timeout :
  within R P (oldNodeToEtcdMemberId timeout : M W _).
Proof.
  unfold oldNodeToEtcdMemberId. apply within_bind; within_side.
  - apply within_listEtcdMembers; within_side; intros; now apply HP.
  - intros members. apply within_modify_u. intros u. apply Hsnapshot.
Qed.

Lemma within_updateInfrastructureReference replacementKey ref :
  within R P (updateInfrastructureReference replacementKey ref : M W _).
Proof.
  unfold updateInfrastructureReference, external_Get.
  apply within_bind; within_side.
  - apply within_resourceExists; within_side. intros; now apply HP.
  - intros exists_. within_auto;
      (apply within_call; within_side; intros; now apply HP).
Qed.

Lemma within_updateBootstrapConfig replacementKey configName :
  within R P (updateBootstrapConfig replacementKey configName : M W _).
Proof.
  unfold updateBootstrapConfig.
  apply within_bind; within_side.
  - apply within_resourceExists; within_side. intros; now apply HP.
  - intros exists_. within_auto;
      first [ apply within_call; within_side; intros; now apply HP
            | apply within_modify_u; intros; apply Hsecrets ].
Qed.

Lemma within_updateMachine replacementKey machine :
  within R P (updateMachine replacementKey machine : M W _).
Proof.
  rewrite updateMachine_parts.
  destruct (Machine.ProviderID _); [|within_auto].
  destruct (NewProviderID _); [within_auto|].
  apply within_bind; within_side; [within_auto|]. intros u.
  destruct (GetNodeFromProviderID _ _); [|within_auto].
  apply within_bind; within_side.
  { apply within_resourceExists; within_side. intros; now apply HP. }
  intros exists_. apply within_bind; within_side.
  { within_auto; (apply within_call; within_side; intros; now apply HP). }
  intros _. apply within_awaitReplacement; within_side;
    first [ exact Hnodes | intros; now apply HP ].
Qed.

Lemma within_updateMachines_body machine :
  within R P (updateMachines_body machine : M W _).
Proof.
  assert (forall m, within R P (replaceMachine m : M W _)) as Hreplace.
  { intros m. unfold replaceMachine.
    apply within_bind; within_side; [within_auto|].
    intros u. destruct (HasSuffix _ _); [within_auto|].
    destruct (generateReplacementMachineName _ _); [|within_auto].
    apply within_bind; within_side;
      [apply within_updateInfrastructureReference|]. intros _.
    destruct (Machine.ConfigRef _); [|within_auto].
    apply within_bind; within_side; [apply within_updateBootstrapConfig|].
    intros _. apply within_updateMachine. }
  assert (forall m, within R P (processMachine m : M W _)) as Hprocess.
  { intros m. unfold processMachine.
    apply within_bind; within_side; [within_auto|]. intros u.
    destruct (negb _); [within_auto|]. apply Hreplace. }
  unfold updateMachines_body.
  apply within_bind; within_side; [within_auto|]. intros u.
  destruct (Machine.ProviderID _); [|within_auto]. cbv zeta.
  destruct (String.eqb _ _); [|apply Hprocess].
  apply within_bind; within_side;
    [apply within_call; within_side; intros; now apply HP|].
  intros [e|]; [within_auto|].
  apply within_bind; within_side;
    [apply within_call; within_side; intros; now apply HP|].
  intros [e|]; [within_auto|]. apply Hprocess.
Qed.

Lemma within_updateMachines machines :
  within R P (updateMachines machines : M W _).
Proof.
  unfold updateMachines. apply within_bind; within_side.
  - apply within_oldNodeToEtcdMemberId.
  - intros _. apply within_forM_; within_side.
    intros machine. apply within_updateMachines_body.
Qed.

End MachinesFootprint.

(** ** The steps before the replacement of the Machines *)

Section PrepareFacts.

Context {W : Type} `{!UpgradeCluster W} `{!Memory W}.
Context `{!Libraries} `{!YAML} `{!Semver}.

Lemma udisruptive_replacing (ev : Event) :
  udisruptive (replacing_event ev) = disruptive ev.
Proof. now destruct ev. Qed.

Lemma kubelet_access_replacing (ev : Event) :
  configmap_event ev = false -> kubelet_access (replacing_event ev) = false.
Proof. destruct ev as [T c reply]. now destruct c. Qed.

Section Footprint.

Context (R : relation ControlPlaneUpgrader) (P : UpgradeEvent -> Prop).
Context `{!Reflexive R} `{!Transitive R}.
Context (Hversion : forall u v, R u (set_desiredVersion v u)).
Context (Hnodes : forall u pairs, R u (set_providerIDsToNodes pairs u)).
Context (Hquiet : forall ev,
            disruptive ev = false -> configmap_event ev = false ->
            P (replacing_event ev)).
Context (Hget : forall reply,
            P (UEv (Replacing (TargetGetConfigMap "kubeadm-config")) reply)).
Context (Hupdate : forall cm reply, P (UEv (TargetUpdateConfigMap cm) reply)).

Lemma uwithin_healthCheck timeout :
  uwithin R P (replacing (etcdClusterHealthCheck timeout) : UM W _).
Proof.
  apply uwithin_replacing
    with (Q := fun ev => disruptive ev = false /\ configmap_event ev = false);
    [intros ev [Hd Hc]; now apply Hquiet|].
  unfold etcdClusterHealthCheck.
  apply within_bind; within_side.
  - apply within_listEtcdMembers; within_side; intros; now split.
  - intros members. apply within_bind; within_side; [|intros; within_auto].
    apply within_etcdctl; within_side; intros; now split.
Qed.

Lemma uwithin_updateNodes :
  uwithin R P (replacing UpdateProviderIDsToNodes : UM W _).
Proof.
  apply uwithin_replacing
    with (Q := fun ev => disruptive ev = false /\ configmap_event ev = false);
    [intros ev [Hd Hc]; now apply Hquiet|].
  apply within_UpdateProviderIDsToNodes; within_side;
    [exact Hnodes | intros; now split].
Qed.

Lemma uwithin_updateAndUpload :
  uwithin R P (updateAndUploadKubeadmKubernetesVersion : UM W _).
Proof.
  unfold updateAndUploadKubeadmKubernetesVersion.
  apply uwithin_bind; within_side; [now apply uwithin_call; within_side|].
  intros r. destruct r.2; [uwithin_auto|].
  apply uwithin_bind; within_side; [uwithin_auto|]. intros u.
  apply uwithin_bind; within_side; [uwithin_auto|]. intros updated.
  apply uwithin_bind; within_side; [now apply uwithin_call; within_side|].
  intros err. uwithin_auto.
Qed.

Lemma uwithin_checkAndRecord machines :
  uwithin R P (checkAndRecord machines : UM W _).
Proof.
  unfold checkAndRecord.
  apply uwithin_bind; within_side; [apply uwithin_healthCheck|]. intros _.
  apply uwithin_bind; within_side; [apply uwithin_updateNodes|]. intros _.
  apply uwithin_bind; within_side; [apply uwithin_updateAndUpload|].
  intros _. uwithin_auto.
Qed.

Context (Hlist : forall labels namespace reply,
            P (UEv (MgmtListMachines labels namespace) reply)).

Lemma uwithin_listMachines : uwithin R P (listMachines : UM W _).
Proof.
  unfold listMachines. apply uwithin_bind; within_side; [uwithin_auto|].
  intros u. apply uwithin_bind; within_side;
    [now apply uwithin_call; within_side|].
  intros r. uwithin_auto.
Qed.

Context (Hkubelet : forall ev, kubelet_access ev = true -> P ev).

Lemma uwithin_kubelet version :
  uwithin R P
    (replacing (updateKubeletConfigMapIfNeeded version);;
     updateKubeletRbacIfNeeded version : UM W _).
Proof.
  apply uwithin_bind; within_side.
  - apply uwithin_replacing
      with (Q := fun ev => kubelet_access (replacing_event ev) = true);
      [intros ev; apply Hkubelet|].
    unfold updateKubeletConfigMapIfNeeded. within_auto;
      (apply within_call; within_side; intros; reflexivity).
  - intros _. unfold updateKubeletRbacIfNeeded. cbv zeta.
    uwithin_auto;
      (apply uwithin_call; within_side; intros; now apply Hkubelet).
Qed.

Lemma uwithin_prepareUpgrade : uwithin R P (prepareUpgrade : UM W _).
Proof.
  unfold prepareUpgrade.
  apply uwithin_bind; within_side; [apply uwithin_listMachines|].
  intros machines. destruct (_ =? _)%nat; [uwithin_auto|].
  destruct (minMaxControlPlaneVersions _ machines) as [[min max] [err|]];
    [uwithin_auto|].
  apply uwithin_bind; within_side; [uwithin_auto|]. intros u.
  apply uwithin_bind; within_side.
  { destruct (semver.EQ _ _); [|uwithin_auto].
    apply uwithin_modify_u. intros; apply Hversion. }
  intros _. apply uwithin_bind; within_side; [uwithin_auto|]. intros u'.
  apply uwithin_bind; within_side.
  { destruct (isMinorVersionUpgrade _ _); [|uwithin_auto].
    apply uwithin_kubelet. }
  intros _. apply (uwithin_checkAndRecord machines).
Qed.

End Footprint.

Lemma ubind_ok {A B} (m : UM W A) (f : A -> UM W B) (s : State W) (b : B) :
  ((m ≫= f) s).1.1 = Ok b ->
  exists a,
    (m s).1.1 = Ok a
    /\ (f a (m s).1.2).1.1 = Ok b
    /\ ((m ≫= f) s).2 = (m s).2 ++ (f a (m s).1.2).2
    /\ ((m ≫= f) s).1.2 = (f a (m s).1.2).1.2.
Proof.
  rewrite ubind_run. destruct (m s) as [[[a|e|] s1] t1]; cbn [fst snd];
    [|discriminate..].
  intros Hb. exists a. split; [reflexivity|]. revert Hb.
  destruct (f a s1) as [[r2 s2] t2]; cbn [fst snd]. auto.
Qed.

Lemma ubind_trace {A B} (m : UM W A) (f : A -> UM W B) (s : State W) :
  ((m ≫= f) s).2
  = (m s).2 ++ match (m s).1.1 with
               | Ok a => (f a (m s).1.2).2
               | _ => []
               end.
Proof.
  rewrite ubind_run. destruct (m s) as [[[a|e|] s1] t1]; cbn [fst snd];
    [|now rewrite app_nil_r..].
  now destruct (f a s1) as [[r2 s2] t2].
Qed.

Lemma split_after {A} (D : A -> bool) (ta tb t1 t2 : list A) (ev : A) :
  Forall (fun e => D e = false) ta ->
  ta ++ tb = t1 ++ ev :: t2 ->
  D ev = true ->
  exists t1', t1 = ta ++ t1' /\ tb = t1' ++ ev :: t2.
Proof.
  revert t1. induction ta as [|a ta IH]; intros t1 Hq Heq Hev.
  - exists t1. auto.
  - inversion Hq as [|? ? Ha Hta]; subst.
    destruct t1 as [|b t1]; simpl in Heq.
    + injection Heq as -> _. congruence.
    + injection Heq as -> Heq.
      destruct (IH t1 Hta Heq Hev) as (t1' & -> & ->). eauto.
Qed.

Lemma event_exec_inv (ev : Event) timeout input err :
  event_exec ev = Some (timeout, input, err) ->
  exists stdout stderr, ev = Ev (PodExec timeout input) (stdout, stderr, err).
Proof.
  destruct ev as [T c reply]. destruct c; try discriminate.
  destruct reply as [[stdout stderr] e]. simpl. intros [= <- <- <-]. eauto.
Qed.

Lemma healthCheck_ok (s : State W) :
  (etcdClusterHealthCheck (1 * Minute) s).1.1 = Ok tt ->
  health_checked
    (replacing_event <$> (etcdClusterHealthCheck (1 * Minute) s).2).
Proof.
  unfold etcdClusterHealthCheck. rewrite bind_run.
  destruct (listEtcdMembers _ s) as [[[members|e|] s1] t1]; cbn [fst snd];
    [|discriminate..].
  rewrite bind_run.
  destruct (etcdctl _ _ s1) as [[[out|e|] s2] t2] eqn:Hrun; cbn [fst snd];
    [|discriminate..].
  intros _. apply etcdctl_trace in Hrun as (_ & _ & Hok).
  specialize (Hok (ex_intro _ out eq_refl)).
  apply List.Exists_exists in Hok as (ev & Hin & pod & Hexec).
  apply event_exec_inv in Hexec as (stdout & stderr & ->).
  exists pod, (Join (members ≫= member_ClientURLs) ","), stdout, stderr.
  apply (in_map replacing_event) in Hin.
  rewrite ret_run. cbn [fst snd].
  rewrite app_nil_r, fmap_app. apply in_or_app. right. exact Hin.
Qed.

Lemma updateNodes_ok (s : State W) :
  (UpdateProviderIDsToNodes s).1.1 = Ok tt ->
  nodes_listed (replacing_event <$> (UpdateProviderIDsToNodes s).2).
Proof.
  unfold UpdateProviderIDsToNodes. run_step. run_perform.
  destruct reply as [e|items]; run_step; [discriminate|].
  intros _. exists items. now left.
Qed.

Lemma updateAndUpload_ok (s : State W) :
  (updateAndUploadKubeadmKubernetesVersion s).1.1 = Ok tt ->
  kubeadm_updated (updateAndUploadKubeadmKubernetesVersion s).2.
Proof.
  unfold updateAndUploadKubeadmKubernetesVersion. urun_step. urun_perform.
  destruct reply as [original [e|]]; urun_step; [discriminate|].
  unfold memory. cbn [upgrader world].
  destruct (updateKubeadmKubernetesVersion _ _ _) as [[updated|e|] h];
    cbn [fst snd]; [|discriminate..].
  urun_step. urun_perform. destruct reply as [e|]; urun_step; [discriminate|].
  intros _. exists updated. right. now left.
Qed.

Lemma checkAndRecord_ok machines (s : State W) (r : list Machine.t) :
  (checkAndRecord machines s).1.1 = Ok r ->
  r = machines
  /\ health_checked (checkAndRecord machines s).2
  /\ nodes_listed (checkAndRecord machines s).2
  /\ kubeadm_updated (checkAndRecord machines s).2.
Proof.
  unfold checkAndRecord. intros Hok.
  apply ubind_ok in Hok as ([] & Hc1 & Hok & -> & _).
  rewrite replacing_run in Hc1. cbn [fst snd] in Hc1.
  apply healthCheck_ok in Hc1. rewrite replacing_run in *. cbn [fst snd] in *.
  set (s1 := (etcdClusterHealthCheck (1 * Minute) s).1.2) in *.
  apply ubind_ok in Hok as ([] & Hc2 & Hok & -> & _).
  rewrite replacing_run in Hc2. cbn [fst snd] in Hc2.
  apply updateNodes_ok in Hc2. rewrite replacing_run in *. cbn [fst snd] in *.
  set (s2 := (UpdateProviderIDsToNodes s1).1.2) in *.
  apply ubind_ok in Hok as ([] & Hc3 & Hok & -> & _).
  apply updateAndUpload_ok in Hc3.
  rewrite uret_run in *. cbn [fst snd] in *. injection Hok as <-.
  split; [reflexivity|]. split; [|split].
  - destruct Hc1 as (pod & endpoints & so & se & Hin).
    exists pod, endpoints, so, se. apply in_or_app. now left.
  - destruct Hc2 as (items & Hin). exists items.
    apply in_or_app. right. apply in_or_app. now left.
  - destruct Hc3 as (cm & Hin). exists cm.
    apply in_or_app. right. apply in_or_app. right.
    apply in_or_app. now left.
Qed.

(** What a run of the first part that returned Machines has seen. *)
Lemma prepareUpgrade_ok (s : State W) (machines : list Machine.t) :
  (prepareUpgrade s).1.1 = Ok machines ->
  (listMachines s).1.1 = Ok machines
  /\ machines <> []
  /\ health_checked (prepareUpgrade s).2
  /\ nodes_listed (prepareUpgrade s).2
  /\ kubeadm_updated (prepareUpgrade s).2.
Proof.
  unfold prepareUpgrade. intros Hok.
  apply ubind_ok in Hok as (listed & Hc1 & Hok & -> & _).
  set (s1 := (listMachines s).1.2) in *.
  destruct (length listed =? 0)%nat eqn:Hlen; [discriminate Hok|].
  destruct (minMaxControlPlaneVersions _ listed) as [[min max] [err|]];
    [discriminate Hok|].
  apply ubind_ok in Hok as (u & _ & Hok & -> & _).
  rewrite uget_u_run in *. cbn [fst snd] in *.
  apply ubind_ok in Hok as ([] & _ & Hok & -> & _).
  match type of Hok with context [(?m s1).1.2] => set (s2 := (m s1).1.2) in * end.
  match goal with |- context [(?m s1).2] => set (t2 := (m s1).2) end.
  apply ubind_ok in Hok as (u' & _ & Hok & -> & _).
  rewrite uget_u_run in *. cbn [fst snd] in *.
  apply ubind_ok in Hok as ([] & _ & Hok & -> & _).
  match type of Hok with context [(?m s2).1.2] => set (s3 := (m s2).1.2) in * end.
  match goal with |- context [(?m s2).2] => set (t3 := (m s2).2) end.
  change (((checkAndRecord listed : UM W _) s3).1.1 = Ok machines) in Hok.
  change (replacing (etcdClusterHealthCheck (1 * Minute));; _)
    with (checkAndRecord listed : UM W _).
  apply checkAndRecord_ok in Hok as (-> & Hh & Hn & Hk).
  split; [exact Hc1|]. split.
  { intros ->. discriminate Hlen. }
  split; [|split].
  - destruct Hh as (pod & endpoints & so & se & Hin).
    exists pod, endpoints, so, se. repeat (apply in_or_app; right). exact Hin.
  - destruct Hn as (items & Hin). exists items.
    repeat (apply in_or_app; right). exact Hin.
  - destruct Hk as (cm & Hin). exists cm.
    repeat (apply in_or_app; right). exact Hin.
Qed.

End PrepareFacts.

(** ** The upgrade as a whole *)

Section UpgradeFacts.

Context {W : Type} `{!UpgradeCluster W} `{!Memory W}.
Context `{!Libraries} `{!YAML} `{!Semver}.

Lemma kubelet_access_quiet (ev : UpgradeEvent) :
  kubelet_access ev = true -> udisruptive ev = false.
Proof.
  destruct ev as [T c reply]. destruct c as [T c| | | | | |];
    try reflexivity; try discriminate.
  destruct c; try reflexivity; discriminate.
Qed.

Lemma prepareUpgrade_quiet (s : State W) :
  Forall (fun ev => udisruptive ev = false) (prepareUpgrade s).2.
Proof.
  apply (uwithin_prepareUpgrade any_upgrader
           (fun ev => udisruptive ev = false)); try easy.
  - intros ev Hd _. now rewrite udisruptive_replacing.
  - apply kubelet_access_quiet.
Qed.

(** [Upgrade] creates, deletes and patches nothing in the management
    cluster, and removes no etcd member, before a pod has answered the
    etcd health check without error, the nodes were listed, and the
    kubeadm configmap was updated without error. *)
Theorem Upgrade_guard (s : State W) (t1 t2 : list UpgradeEvent)
  (ev : UpgradeEvent) :
  (Upgrade s).2 = t1 ++ ev :: t2 ->
  udisruptive ev = true ->
  health_checked t1 /\ nodes_listed t1 /\ kubeadm_updated t1.
Proof.
  rewrite Upgrade_parts, ubind_trace. intros Ht Hev.
  destruct (split_after udisruptive _ _ _ _ _ (prepareUpgrade_quiet s) Ht Hev)
    as (t1' & -> & Hrest).
  destruct (prepareUpgrade s).1.1 as [machines| |] eqn:Hok;
    [|now destruct t1'..].
  apply prepareUpgrade_ok in Hok as (_ & _ & Hh & Hn & Hk).
  split; [|split].
  - destruct Hh as (pod & endpoints & so & se & Hin).
    exists pod, endpoints, so, se. apply in_or_app. now left.
  - destruct Hn as (items & Hin). exists items. apply in_or_app. now left.
  - destruct Hk as (cm & Hin). exists cm. apply in_or_app. now left.
Qed.

Lemma within_removeUpgradeAnnotation (R : relation ControlPlaneUpgrader)
  (P : Event -> Prop) `{!Reflexive R} `{!Transitive R} (m : Machine.t) :
  (forall ev, configmap_event ev = false -> P ev) ->
  within R P (removeUpgradeAnnotation m : M W unit).
Proof.
  intros HP. unfold removeUpgradeAnnotation. within_auto;
    (apply within_call; within_side; intros; now apply HP).
Qed.

Lemma finishUpgrade_within (R : relation ControlPlaneUpgrader)
  (P : UpgradeEvent -> Prop) `{!Reflexive R} `{!Transitive R} machines :
  (forall u pairs, R u (set_providerIDsToNodes pairs u)) ->
  (forall u m, R u (set_oldNodeToEtcdMember m u)) ->
  (forall u b, R u (set_secretsUpdated b u)) ->
  (forall ev, configmap_event ev = false -> P (replacing_event ev)) ->
  uwithin R P (finishUpgrade machines : UM W unit).
Proof.
  intros Hn Hs Hb HP. unfold finishUpgrade.
  apply uwithin_bind; within_side.
  - apply uwithin_replacing with (Q := fun ev => P (replacing_event ev));
      [auto|].
    now apply within_updateMachines; within_side.
  - intros _.
    apply uwithin_replacing with (Q := fun ev => P (replacing_event ev));
      [auto|].
    apply within_forM_; within_side. intros m.
    now apply within_removeUpgradeAnnotation; within_side.
Qed.

Lemma removeUpgradeAnnotations_run (machines : list Machine.t) :
  forall (s s' : State W) t,
    forM_ machines removeUpgradeAnnotation s = (Ok tt, s', t) ->
    upgrader s' = upgrader s
    /\ Forall (fun m =>
                 generateReplacementMachineName (Machine.Name m)
                   (upgradeID (upgrader s)) <> None) machines
    /\ exists replacements,
         length replacements = length machines
         /\ t = annotation_events (upgradeID (upgrader s))
                  (zip machines replacements).
Proof.
  induction machines as [|m machines IH]; intros s s' t.
  - intros [= <- <-]. split; [reflexivity|]. split; [constructor|].
    now exists [].
  - cbn [forM_]. intros Hrun.
    apply bind_inv in Hrun
        as [([] & s1 & t1 & t2 & Hm & Hrest & ->)|(r0 & _ & _ & Hno)];
      [|now destruct (Hno tt)].
    apply IH in Hrest as (Eu & Hall & replacements & Hlen & ->).
    revert Hm. unfold removeUpgradeAnnotation. run_step.
    destruct (generateReplacementMachineName _ _) as [name|] eqn:Hname;
      run_step; [|discriminate].
    run_perform. destruct reply as [e|replacement]; run_step; [discriminate|].
    run_perform. destruct reply as [e|]; run_step; [discriminate|].
    run_perform. destruct reply as [e|]; run_step; [discriminate|].
    intros [= <- <-]. cbn [upgrader] in *.
    split; [exact Eu|]. split.
    { constructor; [congruence | exact Hall]. }
    exists (replacement :: replacements). split; [simpl; lia|].
    cbn [zip zip_with annotation_events mbind list_bind fst snd].
    unfold annotation_events. now rewrite Hname.
Qed.

(** When [Upgrade] returns without error, the last thing it did was to
    go through the Machines it had listed at the start, those without
    deletion timestamp, in the order listed: for each it read the
    Machine that goes by the replacement name and patched it to be
    without the upgrade-id annotation.  There was at least one such
    Machine, and the name generator returned a name for each. *)
Theorem Upgrade_removes_annotations (s : State W) :
  (Upgrade s).1.1 = Ok tt ->
  exists machines before replacements,
    (listMachines s).1.1 = Ok machines
    /\ machines <> []
    /\ Forall (fun m =>
                 generateReplacementMachineName (Machine.Name m)
                   (upgradeID (upgrader s)) <> None) machines
    /\ length replacements = length machines
    /\ (Upgrade s).2
       = before
         ++ (replacing_event
               <$> annotation_events (upgradeID (upgrader s))
                     (zip machines replacements)).
Proof.
  rewrite Upgrade_parts. intros Hok.
  apply ubind_ok in Hok as (machines & Hprepare & Hok & -> & _).
  pose proof (uwithin_prepareUpgrade same_run (fun _ => True)) as Hsame.
  destruct (Hsame ltac:(easy) ltac:(easy) ltac:(easy) ltac:(easy) ltac:(easy)
              ltac:(easy) ltac:(easy) s) as [Hid1 _].
  apply prepareUpgrade_ok in Hprepare as (Hlist & Hne & _).
  set (s1 := (prepareUpgrade s).1.2) in *.
  unfold finishUpgrade in *.
  apply ubind_ok in Hok as ([] & Hupdate & Hok & -> & _).
  destruct (within_updateMachines (W := W) same_run (fun _ => True)
              ltac:(easy) ltac:(easy) ltac:(easy) ltac:(easy) machines s1)
    as [Hid2 _].
  rewrite !replacing_run in *. cbn [fst snd] in *.
  set (s2 := (updateMachines machines s1).1.2) in *.
  destruct (forM_ machines removeUpgradeAnnotation s2) as [[r3 s3] t3] eqn:Hloop.
  cbn [fst snd] in *. subst r3.
  apply removeUpgradeAnnotations_run in Hloop
      as (_ & Hall & replacements & Hlen & ->).
  assert (upgradeID (upgrader s2) = upgradeID (upgrader s)) as Hid
      by (unfold same_run in *; congruence).
  rewrite Hid in *.
  exists machines, ((prepareUpgrade s).2
                    ++ (replacing_event <$> (updateMachines machines s1).2)),
    replacements.
  repeat split; try assumption. now rewrite app_assoc.
Qed.

Lemma prepareUpgrade_gate (s : State W) :
  Forall (fun ev => kubelet_access ev = false) (prepareUpgrade s).2
  \/ exists machines min max,
       (listMachines s).1.1 = Ok machines
       /\ minMaxControlPlaneVersions semver_ParseTolerant machines
          = (min, max, None)
       /\ isMinorVersionUpgrade min (resolvedVersion (upgrader s) max) = true.
Proof.
  unfold prepareUpgrade. rewrite ubind_run.
  destruct (uwithin_listMachines eq (fun ev => kubelet_access ev = false)
              ltac:(easy) s) as [Hu Hl].
  destruct (listMachines s) as [[[machines|e|] s1] t1]; cbn [fst snd] in *;
    [|now left..].
  destruct (length machines =? 0)%nat;
    [left; urun_step; now rewrite app_nil_r|].
  destruct (minMaxControlPlaneVersions _ machines) as [[min max] [err|]] eqn:Hmm;
    [left; urun_step; now rewrite app_nil_r|].
  urun_step.
  assert (forall st,
             Forall (fun ev => kubelet_access ev = false)
               ((checkAndRecord machines : UM W _) st).2) as Hcr.
  { intros st.
    apply (uwithin_checkAndRecord any_upgrader
             (fun ev => kubelet_access ev = false)); try easy.
    intros ev _ Hc. now apply kubelet_access_replacing. }
  fold (checkAndRecord machines : UM W _).
  unfold resolvedVersion. rewrite Hu.
  destruct (semver.EQ unsetVersion (userVersion (upgrader s1))); urun_step.
  - cbn [desiredVersion set_desiredVersion].
    destruct (isMinorVersionUpgrade min max) eqn:Hgate;
      [right; exists machines, min, max; auto|].
    left. urun_step.
    match goal with
    | |- context [checkAndRecord machines ?st] =>
        specialize (Hcr st);
        destruct (checkAndRecord machines st) as [[r s2] t2]
    end.
    cbn [fst snd] in *. now apply Forall_app.
  - destruct (isMinorVersionUpgrade min (desiredVersion (upgrader s1)))
      eqn:Hgate; [right; exists machines, min, max; auto|].
    left. urun_step.
    match goal with
    | |- context [checkAndRecord machines ?st] =>
        specialize (Hcr st);
        destruct (checkAndRecord machines st) as [[r s2] t2]
    end.
    cbn [fst snd] in *. now apply Forall_app.
Qed.

(** [Upgrade] reads or creates a kubelet configmap, or the role and role
    binding that go with it, only on a minor version upgrade: when, of
    the Machines listed, the least version has the major number of the
    desired version and a smaller minor number.  The desired version is
    the one the user gave, or the greatest version of the Machines where
    the user's is the zero version. *)
Theorem Upgrade_kubelet_gate (s : State W) (ev : UpgradeEvent) :
  In ev (Upgrade s).2 ->
  kubelet_access ev = true ->
  exists machines min max,
    (listMachines s).1.1 = Ok machines
    /\ minMaxControlPlaneVersions semver_ParseTolerant machines
       = (min, max, None)
    /\ isMinorVersionUpgrade min (resolvedVersion (upgrader s) max) = true.
Proof.
  rewrite Upgrade_parts, ubind_trace. intros Hin Hev.
  destruct (prepareUpgrade_gate s) as [Hquiet|Hgate]; [|exact Hgate].
  exfalso. apply in_app_or in Hin as [Hin|Hin].
  - rewrite List.Forall_forall in Hquiet. rewrite (Hquiet ev Hin) in Hev.
    discriminate.
  - destruct (prepareUpgrade s).1.1 as [machines| |]; [|destruct Hin..].
    destruct (finishUpgrade_within any_upgrader
                (fun ev => kubelet_access ev = false) machines
                ltac:(easy) ltac:(easy) ltac:(easy)
                kubelet_access_replacing (prepareUpgrade s).1.2)
      as [_ Hfinish].
    rewrite List.Forall_forall in Hfinish. rewrite (Hfinish ev Hin) in Hev.
    discriminate.
Qed.

End UpgradeFacts.

Lemma Upgrade_guard_witness :
  exists t1 ev t2,
    (Upgrade UpgradeExample.start).2 = t1 ++ ev :: t2
    /\ udisruptive ev = true
    /\ health_checked t1 /\ nodes_listed t1 /\ kubeadm_updated t1.
Proof.
  assert (exists ev,
             (Upgrade UpgradeExample.start).2
             = firstn 47 (Upgrade UpgradeExample.start).2
               ++ ev :: skipn 48 (Upgrade UpgradeExample.start).2
             /\ udisruptive ev = true) as (ev & Hsplit & Hev)
      by (vm_compute; eexists; split; reflexivity).
  exists (firstn 47 (Upgrade UpgradeExample.start).2), ev,
    (skipn 48 (Upgrade UpgradeExample.start).2).
  split; [exact Hsplit|]. split; [exact Hev|].
  exact (Upgrade_guard UpgradeExample.start _ _ _ Hsplit Hev).
Defined.

Lemma Upgrade_removes_annotations_witness :
  (Upgrade UpgradeExample.start).1.1 = Ok tt
  /\ exists machines before replacements,
       (listMachines UpgradeExample.start).1.1 = Ok machines
       /\ machines <> []
       /\ Forall (fun m =>
                    generateReplacementMachineName (Machine.Name m) "100"
                    <> None) machines
       /\ length replacements = length machines
       /\ (Upgrade UpgradeExample.start).2
          = before
            ++ (replacing_event
                  <$> annotation_events "100" (zip machines replacements)).
Proof.
  assert ((Upgrade UpgradeExample.start).1.1 = Ok tt) as Hok
      by (vm_compute; reflexivity).
  split; [exact Hok|].
  exact (Upgrade_removes_annotations UpgradeExample.start Hok).
Defined.

Lemma Upgrade_kubelet_gate_witness :
  exists ev,
    In ev (Upgrade UpgradeExample.start).2
    /\ kubelet_access ev = true
    /\ exists machines min max,
         (listMachines UpgradeExample.start).1.1 = Ok machines
         /\ minMaxControlPlaneVersions semver_ParseTolerant machines
            = (min, max, None)
         /\ isMinorVersionUpgrade min
              (resolvedVersion UpgradeExample.upgrader_117 max) = true.
Proof.
  assert (exists ev,
             In ev (Upgrade UpgradeExample.start).2
             /\ kubelet_access ev = true) as (ev & Hin & Hev)
      by (eexists; split;
          [vm_compute; do 5 right; left; reflexivity | reflexivity]).
  exists ev. split; [exact Hin|]. split; [exact Hev|].
  exact (Upgrade_kubelet_gate UpgradeExample.start ev Hin Hev).
Defined.

(** ** Leaving the upgrade early *)

Section EarlyExitFacts.

Context {W : Type} `{!UpgradeCluster W} `{!Memory W}.
Context `{!Libraries} `{!YAML} `{!Semver}.

Lemma listMachines_run (s : State W) :
  let listing :=
    MgmtListMachines
      {[ MachineClusterLabelName := clusterName (upgrader s);
         MachineControlPlaneLabelName := "true" ]}
      (clusterNamespace (upgrader s)) in
  let reply := performUpgrade _ listing (world s) in
  listMachines s
  = (match reply.1 with
     | inl err => Err (Wrapf err "error listing machines" [])
     | inr items => Ok (liveMachines items)
     end,
     {| upgrader := upgrader s; world := reply.2 |},
     [UEv listing reply.1]).
Proof.
  cbv zeta. unfold listMachines. urun_step. urun_perform.
  destruct reply as [e|items]; urun_step; reflexivity.
Qed.

Lemma trace_cons_ex {A} (x : result A * State W * list UpgradeEvent)
  (ev : UpgradeEvent) :
  exists rest,
    (let '(r, s'', t') := x in (r, s'', [ev] ++ t')).2 = ev :: rest.
Proof. destruct x as [[r s'] t']. simpl. eauto. Qed.

(** [Upgrade] first lists the Machines of the cluster's namespace that
    carry the cluster's name and the control-plane label, and goes on
    with those that have no deletion timestamp.  When the listing fails,
    when no listed Machine is without deletion timestamp, or when the
    versions of those Machines do not resolve, it returns the error
    having made no call but the listing, and leaves the upgrader as it
    was. *)
Theorem Upgrade_early_exit (s : State W) :
  let run := Upgrade s in
  let listing :=
    MgmtListMachines
      {[ MachineClusterLabelName := clusterName (upgrader s);
         MachineControlPlaneLabelName := "true" ]}
      (clusterNamespace (upgrader s)) in
  let reply := performUpgrade _ listing (world s) in
  let stopped e :=
    run = (Err e, {| upgrader := upgrader s; world := reply.2 |},
           [UEv listing reply.1]) in
  (listMachines s).1.1
  = match reply.1 with
    | inl err => Err (Wrapf err "error listing machines" [])
    | inr items => Ok (liveMachines items)
    end
  /\ match reply.1 with
     | inl err => stopped (Wrapf err "error listing machines" [])
     | inr items =>
         match liveMachines items with
         | [] => stopped (Errorf "Found 0 control plane machines" [])
         | machines =>
             match (minMaxControlPlaneVersions semver_ParseTolerant
                      machines).2 with
             | Some err =>
                 stopped
                   (Wrapf err
                      "error determining current control plane versions" [])
             | None =>
                 exists rest, run.2 = UEv listing reply.1 :: rest
             end
         end
     end.
Proof.
  cbv zeta. rewrite listMachines_run. split; [reflexivity|].
  unfold Upgrade. rewrite ubind_run, listMachines_run.
  destruct (performUpgrade _ _ (world s)) as [[e|items] w]; cbn [fst snd];
    [reflexivity|].
  destruct (liveMachines items) as [|m machines] eqn:Hlive; [reflexivity|].
  cbn [length Nat.eqb]. cbv iota.
  destruct (minMaxControlPlaneVersions _ (m :: machines))
    as [[min max] [err|]]; cbn [snd]; cbv iota; [reflexivity|].
  apply trace_cons_ex.
Qed.

End EarlyExitFacts.

(** ** Uploading the kubeadm configmap *)

Section UploadFacts.

Context {W : Type} `{!UpgradeCluster W} `{!Memory W}.
Context `{!Libraries} `{!YAML} `{!Semver}.

(** [updateAndUploadKubeadmKubernetesVersion] sends at most one update,
    as its last call, and only after it has read the configmap
    [kubeadm-config] without error: the configmap it sends is the one
    [updateKubeadmKubernetesVersion] returns for the configmap read and
    the version [v] followed by the desired version.  Nothing is sent
    when the read fails or when that function fails or panics.  The
    upgrader stays as it was. *)
Theorem updateAndUploadKubeadmKubernetesVersion_update (s : State W) :
  let run := updateAndUploadKubeadmKubernetesVersion s in
  let get := Replacing (TargetGetConfigMap "kubeadm-config") in
  let read := performUpgrade _ get (world s) in
  upgrader run.1.2 = upgrader s
  /\ forall ev cm reply,
       In ev run.2 ->
       uevent_update_configmap ev = Some (cm, reply) ->
       exists original h,
         read.1 = (original, None)
         /\ updateKubeadmKubernetesVersion original
              ("v" +:+ Version_String (desiredVersion (upgrader s)))
              (heap read.2)
            = (Ok cm, h)
         /\ run.2 = [UEv get read.1; ev]
         /\ run.1.1 = match reply with
                      | None => Ok tt
                      | Some err =>
                          Err (Wrapf err "error updating kubeadm configmap" [])
                      end.
Proof.
  cbv zeta. unfold updateAndUploadKubeadmKubernetesVersion.
  urun_step. urun_perform. destruct reply as [original [e|]]; urun_step.
  { split; [reflexivity|]. intros ev cm reply [<-|[]]. discriminate. }
  unfold memory. cbn [upgrader world].
  destruct (updateKubeadmKubernetesVersion _ _ _) as [[updated|e|] h] eqn:Hrun;
    cbn [fst snd].
  2,3: split; [reflexivity|]; intros ev cm reply [<-|[]]; discriminate.
  urun_step. urun_perform.
  destruct reply as [e|]; urun_step; (split; [reflexivity|]);
    intros ev cm reply [<-|[<-|[]]]; try discriminate;
    intros [= <- <-]; exists original, h; auto.
Qed.

End UploadFacts.

(** ** Creating the kubelet configmap *)

Section KubeletConfigMapFacts.

Context {W : Type} `{!Cluster W} `{!Libraries}.

(** [updateKubeletConfigMapIfNeeded] creates at most one configmap, as
    its last call, and only after the read of the configmap of the
    version returned not-found and the read of the configmap of the
    previous minor version returned anything but not-found.  The
    configmap created is the object that second read returned, under
    the name for the version and without resource version.  An
    already-exists error of the creation counts as success.  When the
    first read returns no error nothing else is called.  The upgrader
    stays as it was. *)
Theorem updateKubeletConfigMapIfNeeded_creates (version : semver.Version)
  (s : State W) :
  let run := updateKubeletConfigMapIfNeeded version s in
  let desired :=
    kubeletConfigMapName (semver.Major version) (semver.Minor version) in
  let previous :=
    kubeletConfigMapName (semver.Major version)
      (uint64_sub (semver.Minor version) 1) in
  let get1 := perform _ (TargetGetConfigMap desired) (world s) in
  upgrader run.1.2 = upgrader s
  /\ (get1.1.2 = None ->
      run.1.1 = Ok tt /\ run.2 = [Ev (TargetGetConfigMap desired) get1.1])
  /\ forall ev cm reply,
       In ev run.2 ->
       event_create_configmap ev = Some (cm, reply) ->
       exists found1 err1 found2 err2,
         run.2 = [Ev (TargetGetConfigMap desired) (found1, Some err1);
                  Ev (TargetGetConfigMap previous) (found2, err2); ev]
         /\ IsNotFound err1 = true
         /\ (forall e, err2 = Some e -> IsNotFound e = false)
         /\ cm = {| ConfigMap.Namespace := ConfigMap.Namespace found2;
                    ConfigMap.Name := desired;
                    ConfigMap.ResourceVersion := "";
                    ConfigMap.Data := ConfigMap.Data found2 |}
         /\ run.1.1 = match reply with
                      | None => Ok tt
                      | Some err =>
                          if IsAlreadyExists err then Ok tt
                          else Err (Wrapf err "error creating configmap %s"
                                      [desired])
                      end.
Proof.
  cbv zeta. unfold updateKubeletConfigMapIfNeeded. cbv zeta.
  run_step. run_perform. destruct reply as [found1 [err1|]]; run_step.
  2:{ split; [reflexivity|]. split; [auto|].
      intros ev cm reply [<-|[]]. discriminate. }
  split; [|split; [discriminate|]].
  { destruct (IsNotFound err1); cbn [negb]; run_step; [|reflexivity].
    run_perform. destruct reply as [found2 [err2|]]; cbn [fst snd].
    - destruct (IsNotFound err2); run_step; [reflexivity|].
      run_perform. destruct reply as [e|]; [destruct (IsAlreadyExists e)|];
        reflexivity.
    - run_step. run_perform.
      destruct reply as [e|]; [destruct (IsAlreadyExists e)|]; reflexivity. }
  destruct (IsNotFound err1) eqn:Hnf1; cbn [negb]; run_step.
  2:{ intros ev cm reply [<-|[]]. discriminate. }
  run_perform. destruct reply as [found2 [err2|]]; cbn [fst snd].
  - destruct (IsNotFound err2) eqn:Hnf2; run_step.
    { intros ev cm reply [<-|[<-|[]]]; discriminate. }
    run_perform.
    destruct reply as [e|]; [destruct (IsAlreadyExists e) eqn:Hae|];
      cbn [negb]; run_step;
      intros ev cm reply [<-|[<-|[<-|[]]]]; try discriminate;
      intros [= <- <-]; exists found1, err1, found2, (Some err2);
      rewrite ?Hae; repeat split; auto; intros e' [= <-]; exact Hnf2.
  - run_step. run_perform.
    destruct reply as [e|]; [destruct (IsAlreadyExists e) eqn:Hae|];
      cbn [negb]; run_step;
      intros ev cm reply [<-|[<-|[<-|[]]]]; try discriminate;
      intros [= <- <-]; exists found1, err1, found2, None;
      rewrite ?Hae; repeat split; auto; discriminate.
Qed.

End KubeletConfigMapFacts.
